(** * automl-translation-tools: parsers, exporters and the dataset splitter

    A shallow embedding of [automl/parser_util.py] and [automl/autosplit.py]
    and the properties of their specification.

    Conventions of the embedding.
    - Python text is a [list ascii]; every character the code inspects
      (newline, carriage return, tab, hyphen, white space, the XML
      delimiters) is ASCII, so [_try_decode] and [_try_encode] (UTF-8
      transcoding of well-encoded text) are the identity here.
    - Python integers are [Z]; [len] is [Z.of_nat (length _)].
    - An exception is a value of [exn]; a method that may raise returns a
      [outcome] and threads the object's fields explicitly.
    - Python floats are IEEE 754 binary64 numbers, the [spec_float] of the
      standard library with [prec = 53] and [emax = 1024]. *)

From Stdlib Require Import ZArith List String Ascii Bool Lia.
From Stdlib Require Import Floats.SpecFloat.
From Stdlib Require Import DecimalString.
From Stdlib Require Import Sorting.Permutation.
Import ListNotations.

#[local] Set Warnings "-register-all".

Local Open Scope Z_scope.

(** ** Python text primitives *)

Module Py.

Definition text := list ascii.

Definition txt (s : string) : text := list_ascii_of_string s.

Definition nl : ascii := "010"%char.
Definition cr : ascii := "013"%char.
Definition tab : ascii := "009"%char.
Definition dquote : ascii := "034"%char.
Definition hyphen : ascii := "-"%char.

Definition len (s : text) : Z := Z.of_nat (List.length s).

(** [not s] for a text: the empty text is falsy. *)
Definition falsy (s : text) : bool :=
  match s with [] => true | _ => false end.

Definition text_eqb (a b : text) : bool :=
  if list_eq_dec ascii_dec a b then true else false.

(** [str.lower] on ASCII letters. *)
Definition lower_char (c : ascii) : ascii :=
  let n := nat_of_ascii c in
  if (Nat.leb 65 n && Nat.leb n 90)%bool then ascii_of_nat (n + 32) else c.

Definition lower (s : text) : text := map lower_char s.

(** [s.split(sep)] for a one-character separator: the fields between the
    separators, one more than there are separators. *)
Fixpoint split (sep : ascii) (s : text) : list text :=
  match s with
  | [] => [[]]
  | c :: s' =>
      if Ascii.eqb c sep then [] :: split sep s'
      else match split sep s' with
           | f :: fs => (c :: f) :: fs
           | [] => [[c]]
           end
  end.

Fixpoint drop_while (p : ascii -> bool) (s : text) : text :=
  match s with
  | [] => []
  | c :: s' => if p c then drop_while p s' else s
  end.

(** [s.rstrip(c)]: every trailing occurrence of [c] is removed. *)
Definition rstrip (c : ascii) (s : text) : text :=
  rev (drop_while (Ascii.eqb c) (rev s)).

(** The white space of [str.strip()]: space, tab, newline, vertical tab,
    form feed and carriage return. *)
Definition is_space (c : ascii) : bool :=
  let n := nat_of_ascii c in
  (Nat.eqb n 32 || (Nat.leb 9 n && Nat.leb n 13))%bool.

Definition lstrip_ws (s : text) : text := drop_while is_space s.
Definition rstrip_ws (s : text) : text := rev (drop_while is_space (rev s)).
Definition strip (s : text) : text := rstrip_ws (lstrip_ws s).

Fixpoint is_prefix (p s : text) : bool :=
  match p, s with
  | [], _ => true
  | a :: p', b :: s' => (Ascii.eqb a b && is_prefix p' s')%bool
  | _ :: _, [] => false
  end.

Definition endswith (s suffix : text) : bool := is_prefix (rev suffix) (rev s).

(** [sep.join(parts)]. *)
Fixpoint join (sep : text) (parts : list text) : text :=
  match parts with
  | [] => []
  | [p] => p
  | p :: ps => p ++ sep ++ join sep ps
  end.

(** [tmpl.format(args)] for templates whose only replacement fields are
    [{}]: the fields are filled from left to right and the inserted texts
    are not scanned again.  With more fields than arguments Python raises
    [IndexError]; no template of this program does that, and the model
    leaves such a field as it is. *)
Fixpoint format (tmpl : text) (args : list text) : text :=
  match tmpl with
  | [] => []
  | c :: rest =>
      match rest with
      | d :: rest' =>
          if (Ascii.eqb c "{" && Ascii.eqb d "}")%bool then
            match args with
            | a :: args' => a ++ format rest' args'
            | [] => c :: format rest args
            end
          else c :: format rest args
      | [] => [c]
      end
  end.

(** [tmpl % args] for templates whose only conversions are [%s] and [%d]
    (the arguments are already rendered as text). *)
Fixpoint percent (tmpl : text) (args : list text) : text :=
  match tmpl with
  | [] => []
  | c :: rest =>
      match rest with
      | d :: rest' =>
          if (Ascii.eqb c "%" && (Ascii.eqb d "s" || Ascii.eqb d "d"))%bool then
            match args with
            | a :: args' => a ++ percent rest' args'
            | [] => c :: percent rest args
            end
          else c :: percent rest args
      | [] => [c]
      end
  end.

(** [str(n)] for an integer. *)
Definition str_of_int (n : Z) : text :=
  txt (NilZero.string_of_int (Z.to_int n)).

End Py.

Import Py.

(** ** Exceptions and outcomes *)

(** The exceptions of [parser_util]: [InvalidFileFormatError] keeps the
    three arguments of its constructor, [XMLSyntaxError] is lxml's, and
    [PyError] stands for a built-in exception of the given name. *)
Inductive exn : Type :=
| InvalidFileFormatError (file_type : text) (line_index : option Z) (message : text)
| ParseFinished
| XMLSyntaxError (message : text)
| PyError (name : text).

(** [InvalidFileFormatError.__str__]: the [message] attribute built by
    [__init__]. *)
Definition exn_str (e : exn) : text :=
  match e with
  | InvalidFileFormatError file_type (Some line_index) message =>
      format (txt "Invalid {} file at line {}: {}")
             [file_type; str_of_int line_index; message]
  | InvalidFileFormatError file_type None message =>
      format (txt "Invalid {} file: {}") [file_type; message]
  | ParseFinished => []
  | XMLSyntaxError message => message
  | PyError name => name
  end.

Definition is_InvalidFormat (e : exn) : bool :=
  match e with InvalidFileFormatError _ _ _ => true | _ => false end.

(** A method call on an object of state [S]: it returns a value or raises,
    and leaves the object in a new state either way. *)
Inductive outcome (S A : Type) : Type :=
| Return (a : A) (s : S)
| Raises (e : exn) (s : S).

Arguments Return {S A} a s.
Arguments Raises {S A} e s.

Definition state_of {S A} (o : outcome S A) : S :=
  match o with Return _ s => s | Raises _ s => s end.

Definition raised {S A} (o : outcome S A) : option exn :=
  match o with Return _ _ => None | Raises e _ => Some e end.

(** ** parser_util: locales *)

Definition _skip_invalid_tmx_data : bool := false.

Definition _parse_locale (lang_code : text) : text :=
  hd [] (split hyphen (lower lang_code)).

Definition _is_same_language (locale1 locale2 : text) : bool :=
  text_eqb locale1 locale2.

(** ** parser_util: the parser base class *)

(** A file object opened for reading: the text not read yet. *)
Definition stream := text.

(** [stream.readline(size)]: the characters up to and including the next
    newline, at most [size] of them; the rest stays in the stream. *)
Fixpoint stream_readline (size : Z) (s : stream) : text * stream :=
  match s with
  | [] => ([], [])
  | c :: s' =>
      if size <=? 0 then ([], s)
      else if Ascii.eqb c nl then ([c], s')
      else let (l, r) := stream_readline (size - 1) s' in (c :: l, r)
  end.

Definition skipped_phrase : Type := Z * option text * option text * text.

Record ParallelPhraseParser : Type := mkBase {
  FILE_FORMAT : text;
  _line_index : Z;
  _next_read_line_index : Z;
  _skipped_phrases : list skipped_phrase
}.

Definition _SENTENCE_BUFFER_SIZE : Z := 1024 * 1024.
Definition _MAX_SKIPPED_PHRASES : Z := 1024.

Definition ParallelPhraseParser_init (file_format : text) : ParallelPhraseParser :=
  mkBase file_format 0 0 [].

Definition current_line_number (self : ParallelPhraseParser) : Z :=
  _line_index self + 1.

Definition current_skipped_phrases (self : ParallelPhraseParser) :=
  _skipped_phrases self.

Definition invalid_format_error (self : ParallelPhraseParser) (message : text)
    (show_line_index : bool) : exn :=
  let line_index := if show_line_index then Some (current_line_number self) else None in
  InvalidFileFormatError (FILE_FORMAT self) line_index message.

(** [readline]: the object is the parser together with the stream it reads. *)
Definition readline (self : ParallelPhraseParser) (stream_ : stream)
    (check_sentence_buffer rstrip_ : bool)
  : outcome (ParallelPhraseParser * stream) text :=
  let self := mkBase (FILE_FORMAT self) (_next_read_line_index self)
                     (_next_read_line_index self) (_skipped_phrases self) in
  let (line, stream_) := stream_readline _SENTENCE_BUFFER_SIZE stream_ in
  if falsy line then Raises ParseFinished (self, stream_) else
  let ended := (endswith line [nl] || endswith line [nl; cr])%bool in
  let self := if ended
              then mkBase (FILE_FORMAT self) (_line_index self)
                          (_next_read_line_index self + 1) (_skipped_phrases self)
              else self in
  if (ended && check_sentence_buffer && (len line =? _SENTENCE_BUFFER_SIZE))%bool then
    Raises (invalid_format_error self
              (format (txt "Length of the line exceeds the {} characters limit.")
                      [str_of_int _SENTENCE_BUFFER_SIZE]) true)
           (self, stream_)
  else
    Return (if rstrip_ then rstrip nl (rstrip cr (rstrip nl line)) else line)
           (self, stream_).

(** ** parser_util: TSV *)

Record TsvParser : Type := mkTsvParser {
  tsv_base : ParallelPhraseParser;
  tsv_src_lang : text;
  tsv_dst_lang : text;
  _tsv_stream : stream
}.

Definition TsvParser_init (src_lang_code dst_lang_code : text) (input_stream : stream)
  : TsvParser :=
  mkTsvParser (ParallelPhraseParser_init (txt "TSV"))
              (_parse_locale src_lang_code) (_parse_locale dst_lang_code) input_stream.

Definition tsv_with (self : TsvParser) (bs : ParallelPhraseParser * stream) : TsvParser :=
  mkTsvParser (fst bs) (tsv_src_lang self) (tsv_dst_lang self) (snd bs).

Definition TsvParser_next_parallel_phrase_pair (self : TsvParser)
  : outcome TsvParser (text * text) :=
  match readline (tsv_base self) (_tsv_stream self) true true with
  | Raises e bs => Raises e (tsv_with self bs)
  | Return line bs =>
      let self := tsv_with self bs in
      let pair := split tab line in
      if negb (Z.of_nat (List.length pair) =? 2) then
        Raises (invalid_format_error (tsv_base self)
                  (txt "Each line can only contains 2 phrases.") true) self
      else
        match pair with
        | [src; dst] => Return (src, dst) self
        | _ => Raises (invalid_format_error (tsv_base self)
                         (txt "Each line can only contains 2 phrases.") true) self
        end
  end.

(** A file object opened for writing: the text written so far. *)
Definition ostream := text.

Definition write (out : ostream) (data : text) : ostream := out ++ data.

Record TsvExporter : Type := mkTsvExporter {
  tsvx_src_lang : text;
  tsvx_dst_lang : text;
  _tsvx_stream : ostream
}.

Definition TsvExporter_init (src_lang_code dst_lang_code : text) (output_stream : ostream)
  : TsvExporter :=
  mkTsvExporter (_parse_locale src_lang_code) (_parse_locale dst_lang_code) output_stream.

Definition TsvExporter_feed_parallel_phrase_pair (self : TsvExporter) (src dst : text)
  : TsvExporter :=
  let line := join [] [src; [tab]; dst; [nl]] in
  mkTsvExporter (tsvx_src_lang self) (tsvx_dst_lang self) (write (_tsvx_stream self) line).

(** ** lxml: elements and the pull parser

    The part of [lxml.etree] that [TmxParser] uses, on the XML subset that
    [TmxExporter] writes and the tests read: an optional XML declaration,
    start tags with double-quoted attributes, empty-element tags, end tags
    and character data.  Entity references, comments, CDATA sections and
    DOCTYPE declarations are outside the model and reported as syntax
    errors. *)

Module Lxml.

Inductive Element : Type :=
| Elem (tag : text) (attrib : list (text * text)) (text_ : text)
       (children : list Element) (tail : text).

Definition tag (e : Element) : text := let 'Elem t _ _ _ _ := e in t.
Definition attrib (e : Element) := let 'Elem _ a _ _ _ := e in a.
Definition getchildren (e : Element) := let 'Elem _ _ _ c _ := e in c.
Definition tail (e : Element) : text := let 'Elem _ _ _ _ t := e in t.

Fixpoint lookup (key : text) (l : list (text * text)) : option text :=
  match l with
  | [] => None
  | (k, v) :: l' => if text_eqb k key then Some v else lookup key l'
  end.

(** [element.get(key, None)]. *)
Definition get (e : Element) (key : text) : option text := lookup key (attrib e).

(** [element.itertext()]: the text of the element, then for each child its
    own texts followed by its tail, in document order. *)
Fixpoint itertext (e : Element) : list text :=
  match e with
  | Elem _ _ t cs _ => t :: flat_map (fun c => itertext c ++ [tail c]) cs
  end.

Inductive action : Type := start | end_.

Definition event : Type := action * Element.

(** An element whose end tag has not been read yet. *)
Record open_element : Type := mkOpen {
  o_tag : text;
  o_attrib : list (text * text);
  o_text : text;
  o_children : list Element
}.

(** [XMLPullParser(events=('start', 'end'))]: the input not tokenised yet
    (an incomplete tag), the open elements, innermost first, and whether
    the root element is closed. *)
Record XMLPullParser : Type := mkParser {
  pending : text;
  opened : list open_element;
  root_closed : bool
}.

Definition XMLPullParser_init : XMLPullParser := mkParser [] [] false.

Inductive token : Type :=
| TDecl
| TText (t : text)
| TStart (name : text) (attrs : list (text * text)) (empty : bool)
| TEnd (name : text).

Inductive lexed : Type :=
| NeedMore
| LexError (message : text)
| Lexed (t : token) (rest : text).

(** The text before the first [c] and the text after it. *)
Fixpoint break (c : ascii) (s : text) : option (text * text) :=
  match s with
  | [] => None
  | d :: s' =>
      if Ascii.eqb d c then Some ([], s')
      else match break c s' with
           | Some (a, b) => Some (d :: a, b)
           | None => None
           end
  end.

(** The longest prefix without [c], and the rest. *)
Fixpoint span_until (c : ascii) (s : text) : text * text :=
  match s with
  | [] => ([], [])
  | d :: s' =>
      if Ascii.eqb d c then ([], s)
      else let (a, b) := span_until c s' in (d :: a, b)
  end.

Definition xml_namespace : text := txt "{http://www.w3.org/XML/1998/namespace}".

(** The name of an attribute as lxml reports it: the prefix [xml:] is
    replaced by the XML namespace in braces. *)
Definition qualify (name : text) : text :=
  if is_prefix (txt "xml:") name then xml_namespace ++ skipn 4 name else name.

(** [k] is the text between two attribute values: white space, a name and
    an equals sign. *)
Definition attr_key (k : text) : option text :=
  match rev (strip k) with
  | c :: r =>
      if Ascii.eqb c "=" then
        let name := strip (rev r) in
        if falsy name then None else Some (qualify name)
      else None
  | [] => None
  end.

(** The fields of a tag body cut at the double quotes alternate between
    [name=] parts and values; the last field is what follows the last
    value. *)
Fixpoint attrs_of (k : text) (fields : list text) : option (list (text * text) * text) :=
  match fields with
  | [] => Some ([], k)
  | v :: fields' =>
      match fields' with
      | [] => None
      | k' :: fields'' =>
          match attr_key k, attrs_of k' fields'' with
          | Some key, Some (attrs, trailer) => Some ((key, v) :: attrs, trailer)
          | _, _ => None
          end
      end
  end.

Definition name_char (c : ascii) : bool := negb (is_space c || Ascii.eqb c "/").

Fixpoint take_while (p : ascii -> bool) (s : text) : text :=
  match s with
  | [] => []
  | c :: s' => if p c then c :: take_while p s' else []
  end.

Definition lex_start_tag (inner rest : text) : lexed :=
  match split dquote inner with
  | [] => LexError (txt "StartTag: invalid element name")
  | f0 :: fields =>
      let name := take_while name_char f0 in
      if falsy name then LexError (txt "StartTag: invalid element name") else
      match attrs_of (drop_while name_char f0) fields with
      | None => LexError (txt "error parsing attribute name")
      | Some (attrs, trailer) =>
          match strip trailer with
          | [] => Lexed (TStart name attrs false) rest
          | [c] => if Ascii.eqb c "/" then Lexed (TStart name attrs true) rest
                   else LexError (txt "error parsing attribute name")
          | _ => LexError (txt "error parsing attribute name")
          end
      end
  end.

(** The next token of the input, if the input holds a whole one. *)
Definition lex1 (s : text) : lexed :=
  match s with
  | [] => NeedMore
  | c :: s' =>
      if Ascii.eqb c "<" then
        match break ">" s' with
        | None => NeedMore
        | Some (inner, rest) =>
            match inner with
            | [] => LexError (txt "StartTag: invalid element name")
            | d :: inner' =>
                if Ascii.eqb d "?" then
                  if endswith inner' (txt "?") then Lexed TDecl rest
                  else LexError (txt "ParsePI: PI never end")
                else if Ascii.eqb d "!" then
                  LexError (txt "markup declarations are not supported")
                else if Ascii.eqb d "/" then Lexed (TEnd (strip inner')) rest
                else lex_start_tag inner rest
            end
        end
      else
        let (t, rest) := span_until "<" s in
        if existsb (Ascii.eqb "&") t
        then LexError (txt "entity references are not supported")
        else Lexed (TText t) rest
  end.

(** Character data goes to the text of the innermost open element, or to
    the tail of its last child once it has one. *)
Definition add_text (o : open_element) (t : text) : open_element :=
  match rev (o_children o) with
  | [] => mkOpen (o_tag o) (o_attrib o) (o_text o ++ t) []
  | Elem g a x cs tl :: before =>
      mkOpen (o_tag o) (o_attrib o) (o_text o) (rev before ++ [Elem g a x cs (tl ++ t)])
  end.

Definition close_element (p : XMLPullParser) (name : text)
  : XMLPullParser * list event + text :=
  match opened p with
  | [] => inr (txt "Extra content at the end of the document")
  | o :: os =>
      if negb (text_eqb (o_tag o) name)
      then inr (txt "Opening and ending tag mismatch")
      else
        let el := Elem (o_tag o) (o_attrib o) (o_text o) (o_children o) [] in
        match os with
        | [] => inl (mkParser (pending p) [] true, [(end_, el)])
        | parent :: os' =>
            inl (mkParser (pending p)
                   (mkOpen (o_tag parent) (o_attrib parent) (o_text parent)
                           (o_children parent ++ [el]) :: os')
                   (root_closed p),
                 [(end_, el)])
        end
  end.

Definition apply_token (p : XMLPullParser) (t : token)
  : XMLPullParser * list event + text :=
  match t with
  | TDecl => inl (p, [])
  | TText s =>
      match opened p with
      | [] => if forallb is_space s then inl (p, [])
              else if root_closed p
                   then inr (txt "Extra content at the end of the document")
                   else inr (txt "Start tag expected, '<' not found")
      | o :: os => inl (mkParser (pending p) (add_text o s :: os) (root_closed p), [])
      end
  | TStart name attrs empty =>
      if root_closed p then inr (txt "Extra content at the end of the document") else
      let p' := mkParser (pending p) (mkOpen name attrs [] [] :: opened p) (root_closed p) in
      let ev := (start, Elem name attrs [] [] []) in
      if empty then
        match close_element p' name with
        | inl (p'', evs) => inl (p'', ev :: evs)
        | inr m => inr m
        end
      else inl (p', [ev])
  | TEnd name => close_element p name
  end.

(** Tokenise [s] as far as it holds whole tokens; what is left is kept. *)
Fixpoint run (fuel : nat) (p : XMLPullParser) (s : text) (events : list event)
  : XMLPullParser * list event + text :=
  match fuel with
  | O => inl (mkParser s (opened p) (root_closed p), events)
  | S fuel' =>
      match lex1 s with
      | NeedMore => inl (mkParser s (opened p) (root_closed p), events)
      | LexError m => inr m
      | Lexed t rest =>
          match apply_token p t with
          | inl (p', evs) => run fuel' p' rest (events ++ evs)
          | inr m => inr m
          end
      end
  end.

(** [parser.feed(data)] followed by reading [parser.read_events()]: the
    new parser and the events of the tokens completed by [data], or the
    message of an [XMLSyntaxError].  Every token takes at least one
    character, so the length of the input bounds the number of tokens. *)
Definition feed (p : XMLPullParser) (data : text)
  : XMLPullParser * list event + text :=
  let s := pending p ++ data in
  run (S (List.length s)) (mkParser [] (opened p) (root_closed p)) s [].

(** [parser.close()]: a syntax error unless the document is complete. *)
Definition close (p : XMLPullParser) : option text :=
  if (forallb is_space (pending p) && match opened p with [] => true | _ => false end && root_closed p)%bool
  then None
  else Some (txt "Premature end of data").

End Lxml.

(** ** parser_util: TMX parsing *)

Record TmxParser : Type := mkTmxParser {
  tmx_base : ParallelPhraseParser;
  tmx_src_lang : text;
  tmx_dst_lang : text;
  _tmx_stream : stream;
  _parser : Lxml.XMLPullParser;
  _buffered_parsed_pairs : list (text * text);
  _buffered_pairs_index : Z;
  _tag_name_stack : list text;
  _header_inited : bool;
  _body_inited : bool
}.

Definition _TU_BUF_SIZE : Z := 1024.

Definition _PARENT_TAG_NAME : list (text * text) :=
  [ (txt "tmx", []);
    (txt "header", txt "tmx");
    (txt "body", txt "tmx");
    (txt "tu", txt "body");
    (txt "tuv", txt "tu");
    (txt "seg", txt "tuv") ].

Definition TmxParser_init (src_lang_code dst_lang_code : text) (input_stream : stream)
  : TmxParser :=
  mkTmxParser (ParallelPhraseParser_init (txt "TMX"))
              (_parse_locale src_lang_code) (_parse_locale dst_lang_code)
              input_stream Lxml.XMLPullParser_init [] 0 [[]] false false.

Definition set_base (self : TmxParser) (b : ParallelPhraseParser) : TmxParser :=
  mkTmxParser b (tmx_src_lang self) (tmx_dst_lang self) (_tmx_stream self)
    (_parser self) (_buffered_parsed_pairs self) (_buffered_pairs_index self)
    (_tag_name_stack self) (_header_inited self) (_body_inited self).

Definition set_stream (self : TmxParser) (s : stream) : TmxParser :=
  mkTmxParser (tmx_base self) (tmx_src_lang self) (tmx_dst_lang self) s
    (_parser self) (_buffered_parsed_pairs self) (_buffered_pairs_index self)
    (_tag_name_stack self) (_header_inited self) (_body_inited self).

Definition set_parser (self : TmxParser) (p : Lxml.XMLPullParser) : TmxParser :=
  mkTmxParser (tmx_base self) (tmx_src_lang self) (tmx_dst_lang self) (_tmx_stream self)
    p (_buffered_parsed_pairs self) (_buffered_pairs_index self)
    (_tag_name_stack self) (_header_inited self) (_body_inited self).

Definition set_buffered (self : TmxParser) (pairs : list (text * text)) (index : Z)
  : TmxParser :=
  mkTmxParser (tmx_base self) (tmx_src_lang self) (tmx_dst_lang self) (_tmx_stream self)
    (_parser self) pairs index
    (_tag_name_stack self) (_header_inited self) (_body_inited self).

Definition set_stack (self : TmxParser) (stack : list text) : TmxParser :=
  mkTmxParser (tmx_base self) (tmx_src_lang self) (tmx_dst_lang self) (_tmx_stream self)
    (_parser self) (_buffered_parsed_pairs self) (_buffered_pairs_index self)
    stack (_header_inited self) (_body_inited self).

Definition set_header_inited (self : TmxParser) (b : bool) : TmxParser :=
  mkTmxParser (tmx_base self) (tmx_src_lang self) (tmx_dst_lang self) (_tmx_stream self)
    (_parser self) (_buffered_parsed_pairs self) (_buffered_pairs_index self)
    (_tag_name_stack self) b (_body_inited self).

(** [self._tag_name_stack[-1]]; the stack starts as [['']] and the empty
    name is never popped. *)
Definition stack_top (self : TmxParser) : text := last (_tag_name_stack self) [].

Definition tmx_error (self : TmxParser) (message : text) (show_line_index : bool) : exn :=
  invalid_format_error (tmx_base self) message show_line_index.

Definition _verify_element (self : TmxParser) (action : Lxml.action) (tag : text)
  : outcome TmxParser unit :=
  match Lxml.lookup tag _PARENT_TAG_NAME with
  | None => Return tt self
  | Some parent =>
      match action with
      | Lxml.start =>
          if negb (text_eqb (stack_top self) parent) then
            Raises (tmx_error self
                      (percent (txt "Invalid tag structure: <%s> should go inside <%s>, not <%s>.")
                               [tag; parent; stack_top self]) true) self
          else if (text_eqb tag (txt "header") && _header_inited self)%bool then
            Raises (tmx_error self (txt "Duplicate header tag.") true) self
          else
            let self := if text_eqb tag (txt "header")
                        then set_header_inited self true else self in
            if (text_eqb tag (txt "body") && _body_inited self)%bool then
              Raises (tmx_error self (txt "Duplicate body tag.") true) self
            else if (text_eqb tag (txt "body") && negb (_header_inited self))%bool then
              Raises (tmx_error self (txt "header should before body.") true) self
            else
              Return tt (set_stack self (_tag_name_stack self ++ [tag]))
      | Lxml.end_ =>
          if negb (text_eqb (stack_top self) tag) then
            Raises (tmx_error self
                      (format (txt "Unclosed tag {}.") [stack_top self]) true) self
          else
            Return tt (set_stack self (removelast (_tag_name_stack self)))
      end
  end.

Definition _parse_header_element (self : TmxParser) (element : Lxml.Element)
  : outcome TmxParser unit :=
  match Lxml.get element (txt "srclang") with
  | None => Return tt self
  | Some src_lang =>
      if falsy src_lang then Return tt self else
      let src_locale := _parse_locale src_lang in
      if negb (_is_same_language src_locale (tmx_src_lang self)) then
        Raises (tmx_error self
                  (format (txt "Language in header doesn't match language declared. Expecting {}, found {}")
                          [tmx_src_lang self; src_locale]) true) self
      else Return tt self
  end.

(** [(text_in_seg, language_code_without_locale)]. *)
Definition _parse_tuv_element (tuv_element : Lxml.Element) : text * option text :=
  let lang := Lxml.get tuv_element (Lxml.xml_namespace ++ txt "lang") in
  let lang := match lang with
              | Some l => if falsy l then Some l else Some (_parse_locale l)
              | None => None
              end in
  let tuv_text :=
    join (txt " ")
         (map strip (filter (fun t => negb (falsy (strip t))) (Lxml.itertext tuv_element))) in
  (strip tuv_text, lang).

(** One round of the loop over the children of a [<tu>]. *)
Definition tu_child (self : TmxParser) (acc : option text * option text)
    (child_element : Lxml.Element) : option text * option text :=
  let (src, dst) := acc in
  if negb (text_eqb (Lxml.tag child_element) (txt "tuv")) then acc else
  let (text_, lang) := _parse_tuv_element child_element in
  match lang with
  | Some lang =>
      if (negb (falsy text_) && negb (falsy lang))%bool then
        if _is_same_language lang (tmx_src_lang self) then (Some text_, dst)
        else if _is_same_language lang (tmx_dst_lang self) then (src, Some text_)
        else acc
      else acc
  | None => acc
  end.

Definition none_or_empty (t : option text) : bool :=
  match t with None => true | Some s => falsy s end.

(** [(src_text, target_text, error_message)]. *)
Definition _parse_tu_element (self : TmxParser) (tu_element : Lxml.Element)
  : option text * option text * option text :=
  let (src, dst) := fold_left (tu_child self) (Lxml.getchildren tu_element) (None, None) in
  if (none_or_empty src && none_or_empty dst)%bool then
    (src, dst, Some (txt "No sentence found in source and target languages in this <tu>"))
  else if none_or_empty src then
    (src, dst, Some (txt "No sentence found in source language in this <tu>"))
  else if none_or_empty dst then
    (src, dst, Some (txt "No sentence found in target language in this <tu>"))
  else (src, dst, None).

Definition _skip_phrase_or_fail_parsing (self : TmxParser)
    (src_text dst_text : option text) (error_message : text) : outcome TmxParser unit :=
  let base := tmx_base self in
  if Z.of_nat (List.length (_skipped_phrases base)) <? _MAX_SKIPPED_PHRASES then
    Return tt
      (set_base self
         (mkBase (FILE_FORMAT base) (_line_index base) (_next_read_line_index base)
                 (_skipped_phrases base
                    ++ [(current_line_number base, src_text, dst_text, error_message)])))
  else
    Raises (tmx_error self
              (percent (txt "Too many sentence pair errors(%d) so far. The TMX may be broken.")
                       [str_of_int (Z.of_nat (List.length (_skipped_phrases base)))]) true)
           self.

Definition text_or_empty (t : option text) : text :=
  match t with Some s => s | None => [] end.

(** The body of the loop over the events in [_read_next].  (The pruning of
    the processed [<tu>] siblings from lxml's tree changes no value that
    the parser reads afterwards and has no counterpart here.) *)
Definition _handle_event (self : TmxParser) (ev : Lxml.event) : outcome TmxParser unit :=
  let (action, element) := ev in
  match _verify_element self action (Lxml.tag element) with
  | Raises e self => Raises e self
  | Return _ self =>
      match action with
      | Lxml.start => Return tt self
      | Lxml.end_ =>
          match (if text_eqb (Lxml.tag element) (txt "header")
                 then _parse_header_element self element
                 else Return tt self) with
          | Raises e self => Raises e self
          | Return _ self =>
              if text_eqb (Lxml.tag element) (txt "tu") then
                match _parse_tu_element self element with
                | (src, dst, None) =>
                    Return tt (set_buffered self
                                 (_buffered_parsed_pairs self
                                    ++ [(text_or_empty src, text_or_empty dst)])
                                 (_buffered_pairs_index self))
                | (src, dst, Some error_message) =>
                    if _skip_invalid_tmx_data
                    then _skip_phrase_or_fail_parsing self src dst error_message
                    else Raises (tmx_error self error_message true) self
                end
              else Return tt self
          end
      end
  end.

Fixpoint _handle_events (self : TmxParser) (events : list Lxml.event)
  : outcome TmxParser unit :=
  match events with
  | [] => Return tt self
  | ev :: events' =>
      match _handle_event self ev with
      | Raises e self => Raises e self
      | Return _ self => _handle_events self events'
      end
  end.

(** The [while True] loop of [_read_next].  Every round reads at least one
    character or ends the loop, so the length of the stream bounds the
    rounds; [None] is a loop cut short by [fuel]. *)
Fixpoint _read_next_loop (fuel : nat) (self : TmxParser) (buff_total_size : Z)
  : option (outcome TmxParser unit) :=
  match fuel with
  | O => None
  | S fuel' =>
      match readline (tmx_base self) (_tmx_stream self) false false with
      | Raises e (b, s) =>
          let self := set_stream (set_base self b) s in
          match e with
          | ParseFinished =>
              match Lxml.close (_parser self) with
              | Some m => Some (Raises (XMLSyntaxError m) self)
              | None => Some (Raises ParseFinished self)
              end
          | _ => Some (Raises e self)
          end
      | Return buff (b, s) =>
          let self := set_stream (set_base self b) s in
          match Lxml.feed (_parser self) buff with
          | inr m => Some (Raises (tmx_error self m false) self)
          | inl (p, events) =>
              match _handle_events (set_parser self p) events with
              | Raises e self => Some (Raises e self)
              | Return _ self =>
                  if negb (match _buffered_parsed_pairs self with [] => true | _ => false end)
                  then Some (Return tt self)
                  else
                    let buff_total_size := buff_total_size + len buff in
                    if buff_total_size >? _SENTENCE_BUFFER_SIZE then
                      Some (Raises (tmx_error self
                                      (format (txt "Exceeded buffer limit {}.")
                                              [str_of_int _SENTENCE_BUFFER_SIZE]) true) self)
                    else _read_next_loop fuel' self buff_total_size
              end
          end
      end
  end.

Definition _read_next (self : TmxParser) : option (outcome TmxParser unit) :=
  _read_next_loop (S (List.length (_tmx_stream self))) (set_buffered self [] 0) 0.

Definition TmxParser_next_parallel_phrase_pair (self : TmxParser)
  : option (outcome TmxParser (text * text)) :=
  let after_read :=
    if Z.of_nat (List.length (_buffered_parsed_pairs self)) <=? _buffered_pairs_index self
    then _read_next self else Some (Return tt self) in
  match after_read with
  | None => None
  | Some (Raises e self) => Some (Raises e self)
  | Some (Return _ self) =>
      match nth_error (_buffered_parsed_pairs self) (Z.to_nat (_buffered_pairs_index self)) with
      | Some pr =>
          Some (Return pr (set_buffered self (_buffered_parsed_pairs self)
                                          (_buffered_pairs_index self + 1)))
      | None => Some (Raises (PyError (txt "IndexError")) self)
      end
  end.

(** ** parser_util: TMX export *)

Definition quoted (value : string) : text := [dquote] ++ txt value ++ [dquote].

Definition _TMX_INIT_TMPL : text :=
  txt "<?xml version=" ++ quoted "1.0" ++ txt " encoding=" ++ quoted "UTF-8" ++ txt " ?>" ++ [nl]
  ++ txt "<tmx version=" ++ quoted "1.4" ++ txt ">" ++ [nl]
  ++ txt "<header srclang=" ++ quoted "{}" ++ [nl]
  ++ txt "        adminlang=" ++ quoted "en-us" ++ [nl]
  ++ txt "        o-tmf=" ++ quoted "unknown" ++ [nl]
  ++ txt "        segtype=" ++ quoted "sentence" ++ [nl]
  ++ txt "        creationtool=" ++ quoted "Uplug" ++ [nl]
  ++ txt "        creationtoolversion=" ++ quoted "unknown" ++ [nl]
  ++ txt "        datatype=" ++ quoted "PlainText" ++ txt " />" ++ [nl]
  ++ txt "  <body>" ++ [nl].

Definition _TMX_PAIR_TMPL : text :=
  txt "    <tu>" ++ [nl]
  ++ txt "      <tuv xml:lang=" ++ quoted "{}" ++ txt "><seg>{}</seg></tuv>" ++ [nl]
  ++ txt "      <tuv xml:lang=" ++ quoted "{}" ++ txt "><seg>{}</seg></tuv>" ++ [nl]
  ++ txt "    </tu>" ++ [nl].

Record TmxExporter : Type := mkTmxExporter {
  tmxx_src_lang : text;
  tmxx_dst_lang : text;
  _src_lang_code : text;
  _dst_lang_code : text;
  _tmxx_stream : ostream
}.

Definition TmxExporter_init (src_lang_code dst_lang_code : text) (output_stream : ostream)
  : TmxExporter :=
  mkTmxExporter (_parse_locale src_lang_code) (_parse_locale dst_lang_code)
                src_lang_code dst_lang_code output_stream.

Definition TmxExporter_write (self : TmxExporter) (data : text) : TmxExporter :=
  mkTmxExporter (tmxx_src_lang self) (tmxx_dst_lang self)
                (_src_lang_code self) (_dst_lang_code self)
                (write (_tmxx_stream self) data).

Definition TmxExporter_feed_parallel_phrase_pair (self : TmxExporter) (src dst : text)
  : TmxExporter :=
  TmxExporter_write self
    (format _TMX_PAIR_TMPL [_src_lang_code self; src; _dst_lang_code self; dst]).

Definition TmxExporter_initialize (self : TmxExporter) : TmxExporter :=
  TmxExporter_write self (format _TMX_INIT_TMPL [_src_lang_code self]).

Definition TmxExporter_finalize (self : TmxExporter) : TmxExporter :=
  TmxExporter_write self (txt "  </body>" ++ [nl] ++ txt "</tmx>").

(** ** parser_util: the two interfaces *)

(** [ParallelPhraseExporter]: [initialize] and [finalize] do nothing unless
    a subclass overrides them. *)
Class ParallelPhraseExporter (X : Type) : Type := {
  feed_parallel_phrase_pair : X -> text -> text -> X;
  initialize : X -> X;
  finalize : X -> X;
  getvalue : X -> ostream
}.

#[export] Instance TsvExporter_exporter : ParallelPhraseExporter TsvExporter := {
  feed_parallel_phrase_pair := TsvExporter_feed_parallel_phrase_pair;
  initialize := fun self => self;
  finalize := fun self => self;
  getvalue := _tsvx_stream
}.

#[export] Instance TmxExporter_exporter : ParallelPhraseExporter TmxExporter := {
  feed_parallel_phrase_pair := TmxExporter_feed_parallel_phrase_pair;
  initialize := TmxExporter_initialize;
  finalize := TmxExporter_finalize;
  getvalue := _tmxx_stream
}.

(** [ParallelPhraseParser] as an iterator: [next] and the text still to be
    read, which bounds the number of pairs. *)
Class PhraseParser (P : Type) : Type := {
  next_parallel_phrase_pair : P -> option (outcome P (text * text));
  unread : P -> nat
}.

#[export] Instance TsvParser_parser : PhraseParser TsvParser := {
  next_parallel_phrase_pair := fun self => Some (TsvParser_next_parallel_phrase_pair self);
  unread := fun self => List.length (_tsv_stream self)
}.

#[export] Instance TmxParser_parser : PhraseParser TmxParser := {
  next_parallel_phrase_pair := TmxParser_next_parallel_phrase_pair;
  unread := fun self =>
    (List.length (_tmx_stream self) + List.length (_buffered_parsed_pairs self))%nat
}.

(** [for src, dst in parser: exporter.feed_parallel_phrase_pair(src, dst)],
    counting the pairs: the loop of [iterate_parallel_phrases] for one
    input.  [ParseFinished] ends the loop ([next] turns it into
    [StopIteration]); any other exception leaves it. *)
Fixpoint feed_all {P X} `{PhraseParser P} `{ParallelPhraseExporter X}
    (fuel : nat) (parser : P) (exporter : X) (total_counts : Z)
  : option (outcome (P * X) Z) :=
  match fuel with
  | O => None
  | S fuel' =>
      match next_parallel_phrase_pair parser with
      | None => None
      | Some (Raises ParseFinished parser) => Some (Return total_counts (parser, exporter))
      | Some (Raises e parser) => Some (Raises e (parser, exporter))
      | Some (Return (src, dst) parser) =>
          feed_all fuel' parser (feed_parallel_phrase_pair exporter src dst)
                   (total_counts + 1)
      end
  end.

(** [convert_input_files] for one input, on streams: the exporter is
    initialised, fed every pair of the parser, and finalised (also when
    the parser raises, as [__exit__] runs either way). *)
Definition convert {P X} `{PhraseParser P} `{ParallelPhraseExporter X}
    (parser : P) (exporter : X) : option (outcome (P * X) Z) :=
  match feed_all (S (unread parser)) parser (initialize exporter) 0 with
  | None => None
  | Some (Return n (p, x)) => Some (Return n (p, finalize x))
  | Some (Raises e (p, x)) => Some (Raises e (p, finalize x))
  end.

(** The pairs a parser yields, as [list(parser)] collects them. *)
Fixpoint pairs_of {P} `{PhraseParser P} (fuel : nat) (parser : P)
  : option (outcome P (list (text * text))) :=
  match fuel with
  | O => None
  | S fuel' =>
      match next_parallel_phrase_pair parser with
      | None => None
      | Some (Raises ParseFinished parser) => Some (Return [] parser)
      | Some (Raises e parser) => Some (Raises e parser)
      | Some (Return pr parser) =>
          match pairs_of fuel' parser with
          | Some (Return prs parser) => Some (Return (pr :: prs) parser)
          | other => other
          end
      end
  end.

(** ** Python floats *)

Module PyFloat.

Definition prec : Z := 53.
Definition emax : Z := 1024.

(** [float(n)] for an integer: the nearest double, ties to even;
    [OverflowError] when that is not finite. *)
Definition of_int (n : Z) : option spec_float :=
  match binary_normalize prec emax n 0 false with
  | S754_infinity _ => None
  | S754_nan => None
  | f => Some f
  end.

Definition mul : spec_float -> spec_float -> spec_float := SFmul prec emax.
Definition sub : spec_float -> spec_float -> spec_float := SFsub prec emax.

(** A decimal literal with one digit after the point: the double nearest
    to [tenths / 10], which is what the correctly rounded division gives. *)
Definition literal_tenths (tenths : Z) : spec_float :=
  SFdiv prec emax (binary_normalize prec emax tenths 0 false)
                  (binary_normalize prec emax 10 0 false).

(** [int(math.ceil(x))]: the least integer not below [x]. *)
Definition ceil (x : spec_float) : option Z :=
  match x with
  | S754_zero _ => Some 0
  | S754_finite s m e =>
      let z := cond_Zopp s (Zpos m) in
      Some (if 0 <=? e then z * 2 ^ e else - ((- z) / 2 ^ (- e)))
  | S754_infinity _ => None
  | S754_nan => None
  end.

End PyFloat.

(** ** autosplit *)

Inductive MLUse : Type := UNASSIGNED | TRAIN | VALIDATION | TEST.

Definition MLUse_value (u : MLUse) : Z :=
  match u with UNASSIGNED => 0 | TRAIN => 1 | VALIDATION => 2 | TEST => 3 end.

Definition MLUse_eqb (a b : MLUse) : bool := MLUse_value a =? MLUse_value b.

Definition _ML_USES : list MLUse := [TRAIN; VALIDATION; TEST].

(** The dictionary of example counts: its keys are the three members of
    [_ML_USES] from its creation on. *)
Record example_counts : Type := mkCounts {
  train_example_count : Z;
  validation_example_count : Z;
  test_example_count : Z
}.

(** [counts[ml_use]]; [None] is the [KeyError] of a missing key. *)
Definition getitem (counts : example_counts) (ml_use : MLUse) : option Z :=
  match ml_use with
  | TRAIN => Some (train_example_count counts)
  | VALIDATION => Some (validation_example_count counts)
  | TEST => Some (test_example_count counts)
  | UNASSIGNED => None
  end.

Definition values (counts : example_counts) : list Z :=
  [train_example_count counts; validation_example_count counts; test_example_count counts].

Definition sum (l : list Z) : Z := fold_left Z.add l 0.

(** [_autosplit_example_count]; [None] is the [OverflowError] of a total
    too large for a float. *)
Definition _autosplit_example_count (total_example_count : Z) : option example_counts :=
  match PyFloat.of_int total_example_count with
  | None => None
  | Some total =>
      match PyFloat.ceil (PyFloat.mul total (PyFloat.literal_tenths 8)) with
      | None => None
      | Some train_example_count =>
          match PyFloat.of_int train_example_count with
          | None => None
          | Some train =>
              match PyFloat.ceil (PyFloat.sub (PyFloat.mul total (PyFloat.literal_tenths 9))
                                              train) with
              | None => None
              | Some validation_example_count =>
                  let test_example_count :=
                    total_example_count - validation_example_count - train_example_count in
                  Some (mkCounts train_example_count validation_example_count
                                 test_example_count)
              end
          end
      end
  end.

(** The [random] module: the generator is a sequence of raw values and the
    number of values taken so far.  [randint(a, b)] takes one and maps it
    into [a .. b]; every member of the range is the image of some raw
    value, so all outcomes of a draw are covered. *)
Record random_state : Type := mkRandom {
  raw : nat -> Z;
  taken : nat
}.

Definition randint (r : random_state) (a b : Z) : option Z * random_state :=
  if b <? a then (None, r)
  else (Some (a + raw r (taken r) mod (b - a + 1)), mkRandom (raw r) (S (taken r))).

(** [random.random()], whose value the caller discards. *)
Definition random_random (r : random_state) : random_state :=
  mkRandom (raw r) (S (taken r)).

Record AutoSplitUtil : Type := mkAutoSplit {
  _example_counts : example_counts;
  rng : random_state
}.

(** The loop of [_assign_ml_use] over [_ML_USES]; [None] when the loop
    ends without returning. *)
Fixpoint assign_walk (counts : example_counts) (uses : list MLUse) (example_index : Z)
  : option MLUse :=
  match uses with
  | [] => None
  | ml_use_value :: uses' =>
      match getitem counts ml_use_value with
      | None => None
      | Some c =>
          if example_index <? c then Some ml_use_value
          else assign_walk counts uses' (example_index - c)
      end
  end.

(** [_assign_ml_use]; [randint] raises [ValueError] on an empty range. *)
Definition _assign_ml_use (self : AutoSplitUtil) : outcome AutoSplitUtil MLUse :=
  match randint (rng self) 0 (sum (values (_example_counts self)) - 1) with
  | (None, r) => Raises (PyError (txt "ValueError")) (mkAutoSplit (_example_counts self) r)
  | (Some example_index, r) =>
      let self := mkAutoSplit (_example_counts self) (random_random r) in
      match assign_walk (_example_counts self) _ML_USES example_index with
      | Some ml_use_value => Return ml_use_value self
      | None => Return TRAIN self
      end
  end.

Definition _select_ml_use (self : AutoSplitUtil) (ml_use_value : MLUse)
  : outcome AutoSplitUtil unit :=
  let c := _example_counts self in
  match ml_use_value with
  | TRAIN => Return tt (mkAutoSplit (mkCounts (train_example_count c - 1)
                          (validation_example_count c) (test_example_count c)) (rng self))
  | VALIDATION => Return tt (mkAutoSplit (mkCounts (train_example_count c)
                          (validation_example_count c - 1) (test_example_count c)) (rng self))
  | TEST => Return tt (mkAutoSplit (mkCounts (train_example_count c)
                          (validation_example_count c) (test_example_count c - 1)) (rng self))
  | UNASSIGNED => Raises (PyError (txt "KeyError")) self
  end.

(** The three exporters of [autosplit], by class. *)
Record exporters (X : Type) : Type := mkExporters {
  train_exporter : X;
  validation_exporter : X;
  test_exporter : X
}.

Arguments mkExporters {X}.
Arguments train_exporter {X}.
Arguments validation_exporter {X}.
Arguments test_exporter {X}.

Definition exporters_map {X} (f : X -> X) (e : exporters X) : exporters X :=
  mkExporters (f (train_exporter e)) (f (validation_exporter e)) (f (test_exporter e)).

(** [exporters[ml_use].feed_parallel_phrase_pair(src, dst)]. *)
Definition feed_exporter {X} `{ParallelPhraseExporter X}
    (e : exporters X) (ml_use : MLUse) (src dst : text) : option (exporters X) :=
  match ml_use with
  | TRAIN => Some (mkExporters (feed_parallel_phrase_pair (train_exporter e) src dst)
                               (validation_exporter e) (test_exporter e))
  | VALIDATION => Some (mkExporters (train_exporter e)
                               (feed_parallel_phrase_pair (validation_exporter e) src dst)
                               (test_exporter e))
  | TEST => Some (mkExporters (train_exporter e) (validation_exporter e)
                               (feed_parallel_phrase_pair (test_exporter e) src dst))
  | UNASSIGNED => None
  end.

(** The loop of [AutoSplitUtil.autosplit] over the pairs that the parsers
    yield.  Besides the exporters it returns the classes assigned, one per
    pair, in order. *)
Fixpoint autosplit_pairs {X} `{ParallelPhraseExporter X}
    (self : AutoSplitUtil) (e : exporters X) (pairs : list (text * text))
  : outcome (AutoSplitUtil * exporters X) (list MLUse) :=
  match pairs with
  | [] => Return [] (self, e)
  | (src_text, dst_text) :: pairs' =>
      match _assign_ml_use self with
      | Raises ex self => Raises ex (self, e)
      | Return ml_use_value self =>
          match feed_exporter e ml_use_value src_text dst_text with
          | None => Raises (PyError (txt "KeyError")) (self, e)
          | Some e =>
              match _select_ml_use self ml_use_value with
              | Raises ex self => Raises ex (self, e)
              | Return _ self =>
                  match autosplit_pairs self e pairs' with
                  | Return uses s => Return (ml_use_value :: uses) s
                  | Raises ex s => Raises ex s
                  end
              end
          end
      end
  end.

(** [AutoSplitUtil(...).autosplit(...)] on the pairs of its inputs: the
    exporters are initialised, fed and finalised. *)
Definition autosplit {X} `{ParallelPhraseExporter X}
    (total_size : Z) (r : random_state) (e : exporters X) (pairs : list (text * text))
  : option (outcome (AutoSplitUtil * exporters X) (list MLUse)) :=
  match _autosplit_example_count total_size with
  | None => None
  | Some counts =>
      Some match autosplit_pairs (mkAutoSplit counts r) (exporters_map initialize e) pairs with
           | Return uses (self, e) => Return uses (self, exporters_map finalize e)
           | Raises ex (self, e) => Raises ex (self, e)
           end
  end.

(** * Properties *)

(** ** Text primitives *)

Lemma text_eqb_eq (a b : text) : text_eqb a b = true <-> a = b.
Proof.
  unfold text_eqb. destruct (list_eq_dec ascii_dec a b); split; congruence.
Qed.

Lemma text_eqb_refl (a : text) : text_eqb a a = true.
Proof. now apply text_eqb_eq. Qed.

Lemma text_eqb_neq (a b : text) : text_eqb a b = false <-> a <> b.
Proof.
  unfold text_eqb. destruct (list_eq_dec ascii_dec a b); split; congruence.
Qed.

Lemma falsy_nil (s : text) : falsy s = true <-> s = [].
Proof. destruct s; simpl; split; congruence. Qed.

Lemma split_not_nil (sep : ascii) (s : text) : split sep s <> [].
Proof.
  induction s as [|c s IH]; simpl; [discriminate|].
  destruct (Ascii.eqb c sep); [discriminate|].
  destruct (split sep s); discriminate.
Qed.

(** The number of fields is one more than the number of separators. *)
Lemma split_length (sep : ascii) (s : text) :
  List.length (split sep s) = S (count_occ ascii_dec s sep).
Proof.
  induction s as [|c s IH]; simpl; [reflexivity|].
  destruct (Ascii.eqb_spec c sep) as [->|Hne].
  - destruct (ascii_dec sep sep); [|contradiction]. simpl. now rewrite IH.
  - destruct (ascii_dec c sep); [contradiction|].
    destruct (split sep s) eqn:E; simpl in *; [discriminate|]. exact IH.
Qed.

(** Joining the fields with the separator gives the text back. *)
Lemma join_split (sep : ascii) (s : text) : join [sep] (split sep s) = s.
Proof.
  induction s as [|c s IH]; simpl; [reflexivity|].
  pose proof (split_not_nil sep s) as Hn.
  destruct (split sep s) as [|f fs] eqn:E; [contradiction|].
  destruct (Ascii.eqb_spec c sep) as [->|Hne].
  - change (join [sep] ([] :: f :: fs)) with ([] ++ [sep] ++ join [sep] (f :: fs)).
    cbn [app]. now rewrite IH.
  - destruct fs as [|g gs]; simpl in *; now rewrite <- IH.
Qed.

Lemma split_fields_no_sep (sep : ascii) (s : text) :
  Forall (fun f => ~ In sep f) (split sep s).
Proof.
  induction s as [|c s IH]; simpl.
  - constructor; [intros []|constructor].
  - destruct (Ascii.eqb_spec c sep) as [->|Hne].
    + constructor; [intros []|exact IH].
    + destruct (split sep s) as [|f fs]; [repeat constructor; intros [H|[]]; congruence|].
      inversion IH; subst. constructor; [|assumption].
      intros [H|H]; [congruence|contradiction].
Qed.

(** The fields of a text with no separator between two texts without one. *)
Lemma split_two (sep : ascii) (a b : text) :
  ~ In sep a -> ~ In sep b -> split sep (a ++ sep :: b) = [a; b].
Proof.
  intros Ha Hb. induction a as [|c a IH]; simpl.
  - rewrite Ascii.eqb_refl. f_equal.
    clear Ha. induction b as [|d b IHb]; simpl; [reflexivity|].
    destruct (Ascii.eqb_spec d sep) as [->|Hne]; [exfalso; apply Hb; now left|].
    rewrite IHb; [reflexivity|]. intros H; apply Hb; now right.
  - destruct (Ascii.eqb_spec c sep) as [->|Hne]; [exfalso; apply Ha; now left|].
    rewrite IH; [reflexivity|]. intros H; apply Ha; now right.
Qed.

(** ** Locales *)

(** The longest prefix of a text without the character [c]: the text
    truncated at its first [c]. *)
Fixpoint truncate_at_first (c : ascii) (s : text) : text :=
  match s with
  | [] => []
  | d :: s' => if Ascii.eqb d c then [] else d :: truncate_at_first c s'
  end.

Lemma hd_split (sep : ascii) (s : text) :
  hd [] (split sep s) = truncate_at_first sep s.
Proof.
  induction s as [|c s IH]; simpl; [reflexivity|].
  destruct (Ascii.eqb c sep); [reflexivity|].
  destruct (split sep s) as [|f fs] eqn:E; [now destruct (split_not_nil sep s)|].
  simpl in *. now rewrite IH.
Qed.

Lemma truncate_at_first_spec (c : ascii) (s : text) :
  ~ In c (truncate_at_first c s)
  /\ (s = truncate_at_first c s \/ exists rest, s = truncate_at_first c s ++ c :: rest).
Proof.
  induction s as [|d s [IH1 IH2]]; simpl.
  - split; [intros []|now left].
  - destruct (Ascii.eqb_spec d c) as [->|Hne].
    + split; [intros []|right; now exists s].
    + split.
      * intros [H|H]; [congruence|contradiction].
      * destruct IH2 as [IH2|[rest IH2]]; [left|right; exists rest]; simpl; congruence.
Qed.

Lemma _parse_locale_truncates (code : text) :
  _parse_locale code = truncate_at_first hyphen (lower code).
Proof. unfold _parse_locale. apply hd_split. Qed.

(** A [<header>] element as lxml hands it over at its end tag. *)
Definition header_element (attrs : list (text * text)) : Lxml.Element :=
  Lxml.Elem (txt "header") attrs [] [] [].

(** A TMX document whose header carries an empty [srclang]. *)
Definition tmx_empty_srclang : text :=
  txt "<tmx><header srclang=" ++ quoted "" ++ txt "/><body></body></tmx>".




(** ** The tag structure of a TMX document *)

Lemma verify_unrecognized (self : TmxParser) (action : Lxml.action) (tag : text) :
  Lxml.lookup tag _PARENT_TAG_NAME = None ->
  _verify_element self action tag = Return tt self.
Proof. intros H. unfold _verify_element. now rewrite H. Qed.

(** A recognized tag that starts under another parent than its required
    one is refused. *)
Lemma verify_start_wrong_parent (self : TmxParser) (tag parent : text) :
  Lxml.lookup tag _PARENT_TAG_NAME = Some parent ->
  stack_top self <> parent ->
  exists message,
    _verify_element self Lxml.start tag
    = Raises (InvalidFileFormatError (FILE_FORMAT (tmx_base self))
                (Some (current_line_number (tmx_base self))) message) self.
Proof.
  intros H Hne. unfold _verify_element. rewrite H.
  apply text_eqb_neq in Hne. rewrite Hne. cbn [negb]. eexists. reflexivity.
Qed.

Lemma verify_duplicate_header (self : TmxParser) :
  _header_inited self = true ->
  exists message,
    _verify_element self Lxml.start (txt "header")
    = Raises (InvalidFileFormatError (FILE_FORMAT (tmx_base self))
                (Some (current_line_number (tmx_base self))) message) self.
Proof.
  intros H. unfold _verify_element.
  change (Lxml.lookup (txt "header") _PARENT_TAG_NAME) with (Some (txt "tmx")).
  cbv iota beta. destruct (negb (text_eqb (stack_top self) (txt "tmx"))); [eexists; reflexivity|].
  rewrite H. rewrite text_eqb_refl. cbn [andb]. eexists. reflexivity.
Qed.

Lemma verify_body_before_header (self : TmxParser) :
  _header_inited self = false ->
  exists message,
    _verify_element self Lxml.start (txt "body")
    = Raises (InvalidFileFormatError (FILE_FORMAT (tmx_base self))
                (Some (current_line_number (tmx_base self))) message) self.
Proof.
  intros H. unfold _verify_element.
  change (Lxml.lookup (txt "body") _PARENT_TAG_NAME) with (Some (txt "tmx")).
  cbv iota beta. destruct (negb (text_eqb (stack_top self) (txt "tmx"))); [eexists; reflexivity|].
  change (text_eqb (txt "body") (txt "header")) with false.
  cbv iota beta. cbn [andb]. rewrite text_eqb_refl. cbn [andb].
  destruct (_body_inited self); [eexists; reflexivity|].
  rewrite H. cbn [negb]. eexists. reflexivity.
Qed.

(** The end of a recognized tag that is not the innermost open one is
    refused, and the message names the tag left open. *)
Lemma verify_end_mismatch (self : TmxParser) (tag parent : text) :
  Lxml.lookup tag _PARENT_TAG_NAME = Some parent ->
  stack_top self <> tag ->
  _verify_element self Lxml.end_ tag
  = Raises (InvalidFileFormatError (FILE_FORMAT (tmx_base self))
              (Some (current_line_number (tmx_base self)))
              (txt "Unclosed tag " ++ stack_top self ++ txt ".")) self.
Proof.
  intros H Hne. unfold _verify_element. rewrite H.
  apply text_eqb_neq in Hne. rewrite Hne. cbn [negb]. reflexivity.
Qed.

(** [<tmx><tu></tu></tmx>] is refused at line 1 for its tag structure. *)
Lemma invalid_tmx_tag_structure :
  exists final,
    pairs_of 1 (TmxParser_init (txt "en") (txt "zh") (txt "<tmx><tu></tu></tmx>"))
    = Some (Raises (InvalidFileFormatError (txt "TMX") (Some 1)
                      (txt "Invalid tag structure: <tu> should go inside <body>, not <tmx>."))
                   final).
Proof. eexists. vm_compute. reflexivity. Qed.

(** No step of the parser sets [_body_inited]. *)
Lemma verify_keeps_body_inited (self : TmxParser) (action : Lxml.action) (tag : text) :
  _body_inited (state_of (_verify_element self action tag)) = _body_inited self.
Proof.
  unfold _verify_element.
  destruct (Lxml.lookup tag _PARENT_TAG_NAME); [|reflexivity].
  destruct action.
  - destruct (negb (text_eqb (stack_top self) t)); [reflexivity|].
    destruct (text_eqb tag (txt "header") && _header_inited self)%bool; [reflexivity|].
    destruct (text_eqb tag (txt "header")); cbn;
      repeat match goal with |- context [if ?c then _ else _] => destruct c end; reflexivity.
  - destruct (negb (text_eqb (stack_top self) tag)); reflexivity.
Qed.

(** A TMX document with two [<body>] elements. *)
Definition tmx_two_bodies : text :=
  txt "<tmx><header srclang=" ++ quoted "en" ++ txt "/><body></body><body></body></tmx>".

(** C3 at its failing input: the second [<body>] of [tmx_two_bodies] is
    accepted, and the document parses to the end without an error.
    [_verify_element] tests [_body_inited] but nothing ever sets it. *)
Theorem C3_duplicate_body_accepted :
  (exists final,
     pairs_of 2 (TmxParser_init (txt "en") (txt "zh") tmx_two_bodies)
     = Some (Return [] final))
  /\ (exists p events final,
        Lxml.feed Lxml.XMLPullParser_init tmx_two_bodies = inl (p, events)
        /\ map (fun ev => (fst ev, Lxml.tag (snd ev))) events
           = [ (Lxml.start, txt "tmx"); (Lxml.start, txt "header"); (Lxml.end_, txt "header");
               (Lxml.start, txt "body"); (Lxml.end_, txt "body");
               (Lxml.start, txt "body"); (Lxml.end_, txt "body"); (Lxml.end_, txt "tmx") ]
        /\ _handle_events (TmxParser_init (txt "en") (txt "zh") []) events = Return tt final
        /\ _body_inited final = false).
Proof.
  split.
  - eexists. vm_compute. reflexivity.
  - do 3 eexists. split; [vm_compute; reflexivity|].
    split; [reflexivity|]. split; vm_compute; reflexivity.
Qed.

(** ** Errors in a [<tu>] *)

Definition msg_no_source_and_target : text :=
  txt "No sentence found in source and target languages in this <tu>".
Definition msg_no_source : text :=
  txt "No sentence found in source language in this <tu>".
Definition msg_no_target : text :=
  txt "No sentence found in target language in this <tu>".

Lemma verify_keeps_base (self : TmxParser) (action : Lxml.action) (tag : text) :
  tmx_base (state_of (_verify_element self action tag)) = tmx_base self.
Proof.
  unfold _verify_element.
  destruct (Lxml.lookup tag _PARENT_TAG_NAME); [|reflexivity].
  destruct action.
  - destruct (negb (text_eqb (stack_top self) t)); [reflexivity|].
    destruct (text_eqb tag (txt "header") && _header_inited self)%bool; [reflexivity|].
    destruct (text_eqb tag (txt "header")); cbn;
      repeat match goal with |- context [if ?c then _ else _] => destruct c end; reflexivity.
  - destruct (negb (text_eqb (stack_top self) tag)); reflexivity.
Qed.

Lemma parse_header_keeps_state (self : TmxParser) (element : Lxml.Element) :
  state_of (_parse_header_element self element) = self.
Proof.
  unfold _parse_header_element.
  destruct (Lxml.get element (txt "srclang")) as [s|]; [|reflexivity].
  destruct (falsy s); [reflexivity|].
  destruct (negb (_is_same_language (_parse_locale s) (tmx_src_lang self))); reflexivity.
Qed.

(** The error message of a [<tu>], in the order of the tests. *)
Lemma parse_tu_message (self : TmxParser) (tu : Lxml.Element)
    (src dst error_message : option text) :
  _parse_tu_element self tu = (src, dst, error_message) ->
  error_message =
    if (none_or_empty src && none_or_empty dst)%bool then Some msg_no_source_and_target
    else if none_or_empty src then Some msg_no_source
    else if none_or_empty dst then Some msg_no_target
    else None.
Proof.
  unfold _parse_tu_element.
  destruct (fold_left (tu_child self) (Lxml.getchildren tu) (None, None)) as [src' dst'].
  destruct (none_or_empty src') eqn:Es, (none_or_empty dst') eqn:Ed; cbn [andb];
    intros [= <- <- <-]; rewrite Es, ?Ed; reflexivity.
Qed.

Lemma handle_event_keeps_skipped (self : TmxParser) (ev : Lxml.event) :
  _skipped_phrases (tmx_base (state_of (_handle_event self ev)))
  = _skipped_phrases (tmx_base self).
Proof.
  destruct ev as [action element]. unfold _handle_event.
  pose proof (verify_keeps_base self action (Lxml.tag element)) as Hv.
  destruct (_verify_element self action (Lxml.tag element)) as [[] s1|e s1];
    cbn [state_of] in *; [|now rewrite Hv].
  destruct action; cbn [state_of]; [now rewrite Hv|].
  assert (Hh : forall o : outcome TmxParser unit, state_of o = s1 ->
            _skipped_phrases (tmx_base (state_of
              match o with
              | Raises e s => Raises e s
              | Return _ s =>
                  if text_eqb (Lxml.tag element) (txt "tu") then
                    match _parse_tu_element s element with
                    | (src, dst, None) =>
                        Return tt (set_buffered s
                                     (_buffered_parsed_pairs s
                                        ++ [(text_or_empty src, text_or_empty dst)])
                                     (_buffered_pairs_index s))
                    | (src, dst, Some error_message) =>
                        if _skip_invalid_tmx_data
                        then _skip_phrase_or_fail_parsing s src dst error_message
                        else Raises (tmx_error s error_message true) s
                    end
                  else Return tt s
              end)) = _skipped_phrases (tmx_base self)).
  { intros o Ho. destruct o as [[] s|e s]; cbn [state_of] in Ho; subst s;
      [|cbn [state_of]; now rewrite Hv].
    destruct (text_eqb (Lxml.tag element) (txt "tu")); [|cbn [state_of]; now rewrite Hv].
    destruct (_parse_tu_element s1 element) as [[src dst] [m|]];
      cbn [state_of _skip_invalid_tmx_data]; cbn; now rewrite Hv. }
  destruct (text_eqb (Lxml.tag element) (txt "header")).
  - apply Hh. apply parse_header_keeps_state.
  - apply (Hh (Return tt s1)). reflexivity.
Qed.

Lemma handle_events_keeps_skipped (events : list Lxml.event) (self : TmxParser) :
  _skipped_phrases (tmx_base (state_of (_handle_events self events)))
  = _skipped_phrases (tmx_base self).
Proof.
  revert self. induction events as [|ev events IH]; intros self; cbn [_handle_events state_of];
    [reflexivity|].
  pose proof (handle_event_keeps_skipped self ev) as H.
  destruct (_handle_event self ev) as [[] s|e s]; cbn [state_of] in *; [|exact H].
  now rewrite IH.
Qed.

Lemma readline_keeps_skipped (base : ParallelPhraseParser) (s : stream) (check strip_ : bool) :
  _skipped_phrases (fst (state_of (readline base s check strip_))) = _skipped_phrases base.
Proof.
  unfold readline. destruct (stream_readline _SENTENCE_BUFFER_SIZE s) as [line rest].
  destruct (falsy line); [reflexivity|].
  destruct (endswith line [nl] || endswith line [nl; cr])%bool; cbn [andb];
    [destruct (check && (len line =? _SENTENCE_BUFFER_SIZE))%bool|]; reflexivity.
Qed.

Lemma read_next_loop_keeps_skipped (fuel : nat) :
  forall (self : TmxParser) (total : Z) (o : outcome TmxParser unit),
    _read_next_loop fuel self total = Some o ->
    _skipped_phrases (tmx_base (state_of o)) = _skipped_phrases (tmx_base self).
Proof.
  induction fuel as [|fuel IH]; intros self total o; cbn [_read_next_loop]; [discriminate|].
  pose proof (readline_keeps_skipped (tmx_base self) (_tmx_stream self) false false) as Hr.
  destruct (readline (tmx_base self) (_tmx_stream self) false false) as [buff [b s]|e [b s]];
    cbn [state_of fst] in Hr.
  - destruct (Lxml.feed (_parser (set_stream (set_base self b) s)) buff) as [[p events]|m].
    + pose proof (handle_events_keeps_skipped events
                    (set_parser (set_stream (set_base self b) s) p)) as He.
      destruct (_handle_events (set_parser (set_stream (set_base self b) s) p) events)
        as [[] s1|e s1]; cbn [state_of] in He.
      * destruct (negb match _buffered_parsed_pairs s1 with [] => true | _ => false end).
        { intros [= <-]. cbn [state_of]. rewrite He. exact Hr. }
        destruct (total + len buff >? _SENTENCE_BUFFER_SIZE).
        { intros [= <-]. cbn [state_of]. rewrite He. exact Hr. }
        intros H. apply IH in H. rewrite H, He. exact Hr.
      * intros [= <-]. cbn [state_of]. rewrite He. exact Hr.
    + intros [= <-]. exact Hr.
  - destruct e; try (intros [= <-]; exact Hr).
    destruct (Lxml.close (_parser (set_stream (set_base self b) s))); intros [= <-]; exact Hr.
Qed.

(** C4.  With the switch [_skip_invalid_tmx_data] off, the end of a [<tu>]
    whose texts give an error message (both missing, else the source
    missing, else the target missing) raises [InvalidFileFormatError] with
    that message at once and appends nothing to the skipped phrases; and no
    call of [_read_next] ever changes the list of skipped phrases. *)
Theorem C4_tu_error_is_fatal
    (self self1 : TmxParser) (tu : Lxml.Element) (src dst : option text) (message : text) :
  Lxml.tag tu = txt "tu" ->
  _verify_element self Lxml.end_ (txt "tu") = Return tt self1 ->
  _parse_tu_element self1 tu = (src, dst, Some message) ->
  _skip_invalid_tmx_data = false
  /\ _handle_event self (Lxml.end_, tu)
     = Raises (InvalidFileFormatError (FILE_FORMAT (tmx_base self))
                 (Some (current_line_number (tmx_base self))) message) self1
  /\ _skipped_phrases (tmx_base self1) = _skipped_phrases (tmx_base self)
  /\ _buffered_parsed_pairs self1 = _buffered_parsed_pairs self
  /\ message = (if (none_or_empty src && none_or_empty dst)%bool then msg_no_source_and_target
                else if none_or_empty src then msg_no_source else msg_no_target)
  /\ (none_or_empty src = true \/ none_or_empty dst = true)
  /\ (forall fuel parser total o,
        _read_next_loop fuel parser total = Some o ->
        _skipped_phrases (tmx_base (state_of o)) = _skipped_phrases (tmx_base parser)).
Proof.
  intros Htag Hverify Htu.
  pose proof (verify_keeps_base self Lxml.end_ (txt "tu")) as Hb.
  rewrite Hverify in Hb. cbn [state_of] in Hb.
  split; [reflexivity|]. split.
  { unfold _handle_event. rewrite Htag, Hverify.
    change (text_eqb (txt "tu") (txt "header")) with false. cbv iota.
    rewrite text_eqb_refl, Htu. cbn [_skip_invalid_tmx_data].
    unfold tmx_error, invalid_format_error. now rewrite Hb. }
  split; [now rewrite Hb|]. split.
  { revert Hverify. unfold _verify_element.
    change (Lxml.lookup (txt "tu") _PARENT_TAG_NAME) with (Some (txt "body")). cbv iota.
    destruct (negb (text_eqb (stack_top self) (txt "tu"))); [discriminate|].
    intros [= <-]. reflexivity. }
  pose proof (parse_tu_message self1 tu src dst (Some message) Htu) as Hm.
  split; [|split; [|intros fuel parser total o; apply read_next_loop_keeps_skipped]].
  - destruct (none_or_empty src), (none_or_empty dst); cbn in *; congruence.
  - destruct (none_or_empty src), (none_or_empty dst); cbn in *;
      try discriminate; auto.
Qed.

(** A [<tu>] whose two [<tuv>] are in Japanese and Korean, read by a parser
    for English and Chinese whose innermost open tag is [tu]. *)
Definition tuv_element (lang seg : string) : Lxml.Element :=
  Lxml.Elem (txt "tuv") [(Lxml.xml_namespace ++ txt "lang", txt lang)] []
            [Lxml.Elem (txt "seg") [] (txt seg) [] []] [].

Definition tu_ja_ko : Lxml.Element :=
  Lxml.Elem (txt "tu") [] [] [tuv_element "ja" "so ni"; tuv_element "ko" "o ba"] [].

Definition parser_in_tu : TmxParser :=
  set_stack (TmxParser_init (txt "en") (txt "zh") [])
            [[]; txt "tmx"; txt "body"; txt "tu"].

(** C4 at [tu_ja_ko]: the parse fails with the message for both languages
    and the skipped phrases stay empty. *)
Lemma C4_tu_error_is_fatal_witness :
  _handle_event parser_in_tu (Lxml.end_, tu_ja_ko)
  = Raises (InvalidFileFormatError (txt "TMX") (Some 1) msg_no_source_and_target)
           (set_stack parser_in_tu [[]; txt "tmx"; txt "body"])
  /\ _skipped_phrases (tmx_base (set_stack parser_in_tu [[]; txt "tmx"; txt "body"])) = [].
Proof.
  destruct (C4_tu_error_is_fatal parser_in_tu
              (set_stack parser_in_tu [[]; txt "tmx"; txt "body"])
              tu_ja_ko None None msg_no_source_and_target
              eq_refl eq_refl eq_refl) as (_ & H & Hs & _).
  split; [exact H|exact Hs].
Defined.

(** ** Reading lines *)

Lemma stream_readline_app (s : stream) :
  forall size l r, stream_readline size s = (l, r) -> s = l ++ r.
Proof.
  induction s as [|c s IH]; intros size l r; cbn [stream_readline].
  - now intros [= <- <-].
  - destruct (size <=? 0); [now intros [= <- <-]|].
    destruct (Ascii.eqb_spec c nl) as [->|Hne]; [now intros [= <- <-]|].
    destruct (stream_readline (size - 1) s) as [l' r'] eqn:E.
    intros [= <- <-]. cbn. f_equal. now apply (IH (size - 1)).
Qed.

Lemma stream_readline_length (s : stream) :
  forall size l r, 0 <= size -> stream_readline size s = (l, r) -> len l <= size.
Proof.
  unfold len.
  induction s as [|c s IH]; intros size l r Hs; cbn [stream_readline].
  - intros [= <- <-]. cbn. lia.
  - destruct (Z.leb_spec size 0); [intros [= <- <-]; cbn; lia|].
    destruct (Ascii.eqb c nl); [intros [= <- <-]; cbn; lia|].
    destruct (stream_readline (size - 1) s) as [l' r'] eqn:E.
    intros [= <- <-]. apply IH in E; [|lia]. cbn [List.length]. lia.
Qed.

Lemma stream_readline_nonempty (s : stream) (size : Z) :
  0 < size -> s <> [] -> fst (stream_readline size s) <> [].
Proof.
  intros Hs Hne. destruct s as [|c s]; [contradiction|]. cbn [stream_readline].
  destruct (Z.leb_spec size 0); [lia|].
  destruct (Ascii.eqb c nl); [discriminate|].
  destruct (stream_readline (size - 1) s); discriminate.
Qed.

(** A read that meets no newline within [size] characters returns exactly
    [size] characters and leaves the rest of the line in the stream. *)
Lemma stream_readline_long (l rest : text) :
  forall size, len l = size -> ~ In nl l -> stream_readline size (l ++ rest) = (l, rest).
Proof.
  unfold len.
  induction l as [|c l IH]; intros size Hlen Hnl.
  - cbn in Hlen. subst size. destruct rest; reflexivity.
  - cbn [List.length] in Hlen. cbn [app stream_readline].
    destruct (Z.leb_spec size 0); [lia|].
    destruct (Ascii.eqb_spec c nl) as [->|Hne]; [exfalso; apply Hnl; now left|].
    rewrite (IH (size - 1)); [reflexivity|lia|]. intros H'; apply Hnl; now right.
Qed.

(** A read up to the newline that ends the line. *)
Lemma stream_readline_line (l rest : text) :
  forall size, len l < size -> ~ In nl l ->
               stream_readline size (l ++ nl :: rest) = (l ++ [nl], rest).
Proof.
  unfold len.
  induction l as [|c l IH]; intros size Hlen Hnl.
  - cbn in *. destruct (Z.leb_spec size 0); [lia|reflexivity].
  - cbn [List.length] in Hlen. cbn [app stream_readline].
    destruct (Z.leb_spec size 0); [lia|].
    destruct (Ascii.eqb_spec c nl) as [->|Hne]; [exfalso; apply Hnl; now left|].
    rewrite (IH (size - 1)); [reflexivity|lia|]. intros H'; apply Hnl; now right.
Qed.

(** What is read holds one newline when it ends with one and none
    otherwise. *)
Lemma stream_readline_newlines (s : stream) :
  forall size l r, stream_readline size s = (l, r) ->
    count_occ ascii_dec l nl = if endswith l [nl] then 1%nat else 0%nat.
Proof.
  induction s as [|c s IH]; intros size l r; cbn [stream_readline].
  - now intros [= <- <-].
  - destruct (size <=? 0); [now intros [= <- <-]|].
    destruct (Ascii.eqb_spec c nl) as [->|Hne]; [now intros [= <- <-]|].
    destruct (stream_readline (size - 1) s) as [l' r'] eqn:E.
    intros [= <- <-]. apply IH in E. cbn [count_occ].
    destruct (ascii_dec c nl); [contradiction|]. rewrite E.
    unfold endswith. cbn [rev]. destruct (rev l') as [|d t] eqn:Er; cbn [is_prefix app].
    + destruct (Ascii.eqb_spec nl c); [congruence|reflexivity].
    + reflexivity.
Qed.

Lemma endswith_app (s suffix : text) : endswith (s ++ suffix) suffix = true.
Proof.
  unfold endswith. rewrite rev_app_distr.
  induction (rev suffix) as [|c t IH]; cbn; [reflexivity|].
  now rewrite Ascii.eqb_refl.
Qed.

Lemma rstrip_snoc (c : ascii) (s : text) : rstrip c (s ++ [c]) = rstrip c s.
Proof. unfold rstrip. rewrite rev_app_distr. cbn. now rewrite Ascii.eqb_refl. Qed.

Definition ends_with_char (c : ascii) (s : text) : Prop := exists b, s = b ++ [c].

Lemma rstrip_id (c : ascii) (s : text) : ~ ends_with_char c s -> rstrip c s = s.
Proof.
  intros H. unfold rstrip. destruct (rev s) as [|d t] eqn:E.
  - apply (f_equal (@rev ascii)) in E. rewrite rev_involutive in E. now subst.
  - cbn. destruct (Ascii.eqb_spec c d) as [->|Hne].
    + exfalso. apply H. exists (rev t).
      apply (f_equal (@rev ascii)) in E. rewrite rev_involutive in E. exact E.
    + rewrite <- E. apply rev_involutive.
Qed.

(** The three [rstrip] calls of [readline] remove the line terminator and a
    carriage return before it. *)
Lemma rstrip_line (body : text) :
  ~ ends_with_char nl body -> ~ ends_with_char cr body ->
  rstrip nl (rstrip cr (rstrip nl (body ++ [cr; nl]))) = body
  /\ rstrip nl (rstrip cr (rstrip nl (body ++ [nl]))) = body
  /\ rstrip nl (rstrip cr (rstrip nl body)) = body.
Proof.
  intros Hn Hc.
  assert (H0 : rstrip nl (rstrip cr (rstrip nl body)) = body)
    by (now rewrite (rstrip_id nl body Hn), (rstrip_id cr body Hc), (rstrip_id nl body Hn)).
  split; [|split; [|exact H0]].
  - change (body ++ [cr; nl]) with (body ++ [cr] ++ [nl]). rewrite app_assoc, rstrip_snoc.
    assert (Hx : ~ ends_with_char nl (body ++ [cr])).
    { intros [b Hb]. apply app_inj_tail in Hb. destruct Hb as [_ Hb]. discriminate. }
    rewrite (rstrip_id nl _ Hx), rstrip_snoc, (rstrip_id cr body Hc). now apply rstrip_id.
  - now rewrite rstrip_snoc.
Qed.

Lemma rstrip_count (c d : ascii) (s : text) :
  c <> d -> count_occ ascii_dec (rstrip c s) d = count_occ ascii_dec s d.
Proof.
  intros Hne. unfold rstrip.
  rewrite <- (rev_involutive s) at 2.
  induction (rev s) as [|e t IH]; [reflexivity|].
  cbn [drop_while]. destruct (Ascii.eqb_spec c e) as [<-|Hce]; [|reflexivity].
  rewrite IH. cbn [rev]. rewrite count_occ_app. cbn.
  destruct (ascii_dec c d); [contradiction|]. lia.
Qed.

Lemma is_prefix_app (p s : text) : is_prefix p s = true -> exists t, s = p ++ t.
Proof.
  revert s. induction p as [|a p IH]; intros s; cbn [is_prefix].
  - intros _. now exists s.
  - destruct s as [|b s]; [discriminate|].
    destruct (Ascii.eqb_spec a b) as [->|]; [|discriminate]. cbn [andb].
    intros H. destruct (IH s H) as [t ->]. now exists t.
Qed.

Lemma endswith_true (s suffix : text) :
  endswith s suffix = true -> exists b, s = b ++ suffix.
Proof.
  unfold endswith. intros H. apply is_prefix_app in H. destruct H as [t H].
  exists (rev t). apply (f_equal (@rev ascii)) in H.
  now rewrite rev_involutive, rev_app_distr, rev_involutive in H.
Qed.

(** A line as [stream.readline] returns it never ends with a newline
    followed by a carriage return. *)
Lemma stream_readline_no_nl_cr (s : stream) (size : Z) (l : text) (r : stream) :
  stream_readline size s = (l, r) -> endswith l [nl; cr] = false.
Proof.
  intros H. apply stream_readline_newlines in H.
  destruct (endswith l [nl; cr]) eqn:E; [|reflexivity].
  apply endswith_true in E. destruct E as [b ->].
  replace (endswith (b ++ [nl; cr]) [nl]) with false in H.
  - rewrite count_occ_app in H. cbn in H. lia.
  - unfold endswith. rewrite rev_app_distr. reflexivity.
Qed.

(** What a successful [readline] returns and how it leaves the parser. *)
Lemma readline_return (base : ParallelPhraseParser) (s : stream) (check strip_ : bool)
    (raw : text) (rest : stream) (line : text) (bs : ParallelPhraseParser * stream) :
  stream_readline _SENTENCE_BUFFER_SIZE s = (raw, rest) ->
  readline base s check strip_ = Return line bs ->
  raw <> []
  /\ line = (if strip_ then rstrip nl (rstrip cr (rstrip nl raw)) else raw)
  /\ bs = (mkBase (FILE_FORMAT base) (_next_read_line_index base)
                  (_next_read_line_index base + (if endswith raw [nl] then 1 else 0))
                  (_skipped_phrases base), rest).
Proof.
  intros Hraw. unfold readline. rewrite Hraw.
  rewrite (stream_readline_no_nl_cr _ _ _ _ Hraw), Bool.orb_false_r.
  destruct raw as [|c raw]; cbn [falsy]; [discriminate|].
  destruct (endswith (c :: raw) [nl]); cbn [andb].
  - destruct (check && (len (c :: raw) =? _SENTENCE_BUFFER_SIZE))%bool; [discriminate|].
    intros [= <- <-]. split; [discriminate|]. split; reflexivity.
  - intros [= <- <-]. split; [discriminate|]. split; [reflexivity|].
    cbn. now rewrite Z.add_0_r.
Qed.

Definition msg_two_phrases : text := txt "Each line can only contains 2 phrases.".

(** C7.  [input] is the whole TSV text, [consumed] the part of it read so
    far by a parser whose line counter agrees with it.  For a line that
    [readline] returns: the line is what [stream.readline] read without its
    terminator and a carriage return before it; [next_parallel_phrase_pair]
    returns a pair iff the line holds exactly one tab, and the pair is the
    two fields as they stand; otherwise it raises [InvalidFileFormatError]
    with the 1-based number of the line (one more than the newlines read
    before it); and the line counter agrees with what has been read after
    the call as well. *)
Theorem C7_tsv_line (input consumed : text) (self : TsvParser)
    (raw : text) (rest : stream) (line : text) (bs : ParallelPhraseParser * stream) :
  input = consumed ++ _tsv_stream self ->
  _next_read_line_index (tsv_base self) = Z.of_nat (count_occ ascii_dec consumed nl) ->
  stream_readline _SENTENCE_BUFFER_SIZE (_tsv_stream self) = (raw, rest) ->
  readline (tsv_base self) (_tsv_stream self) true true = Return line bs ->
  line = rstrip nl (rstrip cr (rstrip nl raw))
  /\ (forall body, ~ ends_with_char nl body -> ~ ends_with_char cr body ->
        raw = body ++ [cr; nl] \/ raw = body ++ [nl] \/ raw = body -> line = body)
  /\ ((exists pr final, TsvParser_next_parallel_phrase_pair self = Return pr final)
      <-> count_occ ascii_dec line tab = 1%nat)
  /\ (forall pr final,
        TsvParser_next_parallel_phrase_pair self = Return pr final ->
        line = fst pr ++ tab :: snd pr /\ ~ In tab (fst pr) /\ ~ In tab (snd pr)
        /\ final = tsv_with self bs)
  /\ (count_occ ascii_dec line tab <> 1%nat ->
      TsvParser_next_parallel_phrase_pair self
      = Raises (InvalidFileFormatError (FILE_FORMAT (tsv_base self))
                  (Some (Z.of_nat (count_occ ascii_dec consumed nl) + 1)) msg_two_phrases)
               (tsv_with self bs))
  /\ current_line_number (fst bs) = Z.of_nat (count_occ ascii_dec consumed nl) + 1
  /\ input = (consumed ++ raw) ++ snd bs
  /\ _next_read_line_index (fst bs) = Z.of_nat (count_occ ascii_dec (consumed ++ raw) nl).
Proof.
  intros Hin Hidx Hraw Hread.
  destruct (readline_return _ _ _ _ _ _ _ _ Hraw Hread) as (Hne & Hline & Hbs).
  pose proof (split_length tab line) as Hlen.
  pose proof (join_split tab line) as Hjoin.
  pose proof (split_fields_no_sep tab line) as Hsep.
  assert (Hnext : TsvParser_next_parallel_phrase_pair self
                  = match split tab line with
                    | [src; dst] => Return (src, dst) (tsv_with self bs)
                    | _ => Raises (invalid_format_error (fst bs) msg_two_phrases true)
                                  (tsv_with self bs)
                    end).
  { unfold TsvParser_next_parallel_phrase_pair. rewrite Hread.
    destruct (split tab line) as [|a [|b [|c l]]]; try reflexivity.
    destruct (negb _); reflexivity. }
  assert (Hcur : current_line_number (fst bs) = Z.of_nat (count_occ ascii_dec consumed nl) + 1).
  { rewrite Hbs. unfold current_line_number. cbn. now rewrite Hidx. }
  split; [exact Hline|]. split.
  { intros body Hn Hc Hshape. rewrite Hline.
    destruct (rstrip_line body Hn Hc) as (H1 & H2 & H3).
    destruct Hshape as [->|[->| ->]]; assumption. }
  split.
  { rewrite Hnext. split.
    - intros (pr & final & H).
      destruct (split tab line) as [|a [|b [|c l]]]; try discriminate.
      cbn in Hlen. lia.
    - intros Hc. rewrite Hc in Hlen.
      destruct (split tab line) as [|a [|b [|c l]]]; try discriminate.
      now exists (a, b), (tsv_with self bs). }
  split.
  { intros pr final. rewrite Hnext.
    destruct (split tab line) as [|a [|b [|c l]]]; try discriminate.
    intros [= <- <-]. cbn [fst snd].
    inversion Hsep as [|? ? Ha Hsep']; subst. inversion Hsep' as [|? ? Hb _]; subst.
    repeat split; try assumption. symmetry. exact Hjoin. }
  split.
  { intros Hc. rewrite Hnext.
    destruct (split tab line) as [|a [|b [|c l]]] eqn:E;
      try (cbn in Hlen; unfold invalid_format_error; rewrite Hcur; rewrite Hbs;
           reflexivity).
    cbn in Hlen. lia. }
  split; [exact Hcur|]. split.
  { rewrite Hbs. cbn [snd]. rewrite <- app_assoc, Hin. f_equal.
    now apply stream_readline_app with (size := _SENTENCE_BUFFER_SIZE). }
  rewrite Hbs. cbn [fst _next_read_line_index]. rewrite Hidx, count_occ_app.
  rewrite (stream_readline_newlines _ _ _ _ Hraw).
  destruct (endswith raw [nl]); lia.
Qed.

(** The parser after a first line [a<TAB>b], about to read the line
    [x<TAB>y] that ends with a carriage return and a newline. *)
Definition tsv_at_second_line : TsvParser :=
  mkTsvParser (mkBase (txt "TSV") 0 1 []) (txt "en") (txt "zh")
              (txt "x" ++ [tab] ++ txt "y" ++ [cr; nl]).

(** C7 at the second line of a two-line text: the pair [(x, y)] comes back
    without the carriage return. *)
Lemma C7_tsv_line_witness :
  TsvParser_next_parallel_phrase_pair tsv_at_second_line
  = Return (txt "x", txt "y")
           (mkTsvParser (mkBase (txt "TSV") 1 2 []) (txt "en") (txt "zh") []).
Proof.
  destruct (C7_tsv_line
              (txt "a" ++ [tab] ++ txt "b" ++ [nl] ++ txt "x" ++ [tab] ++ txt "y" ++ [cr; nl])
              (txt "a" ++ [tab] ++ txt "b" ++ [nl])
              tsv_at_second_line
              (txt "x" ++ [tab] ++ txt "y" ++ [cr; nl]) []
              (txt "x" ++ [tab] ++ txt "y")
              (mkBase (txt "TSV") 1 2 [], [])
              eq_refl eq_refl eq_refl eq_refl) as (_ & _ & [_ Hiff] & Hpair & _).
  destruct (Hiff eq_refl) as (pr & final & Hret).
  destruct (Hpair pr final Hret) as (Hline & Ha & Hb & ->).
  rewrite Hret. f_equal.
  destruct pr as [src dst]. cbn [fst snd] in *.
  destruct src as [|c [|c' src]].
  - discriminate Hline.
  - injection Hline as -> H. destruct dst as [|d [|d' dst]]; try discriminate.
    injection H as ->. reflexivity.
  - injection Hline as -> -> H. exfalso. apply Ha. right. now left.
Defined.

(** ** Lines longer than the buffer *)

(** A [readline] that meets no newline within [_SENTENCE_BUFFER_SIZE]
    characters raises nothing, whatever [check_sentence_buffer] is: it
    returns the first [_SENTENCE_BUFFER_SIZE] characters of the line as if
    they were a line, and the line counter stays. *)
Lemma readline_splits_long_line (base : ParallelPhraseParser) (l rest : text) (check : bool) :
  len l = _SENTENCE_BUFFER_SIZE -> ~ In nl l -> ~ ends_with_char cr l ->
  readline base (l ++ rest) check true
  = Return l (mkBase (FILE_FORMAT base) (_next_read_line_index base)
                     (_next_read_line_index base) (_skipped_phrases base), rest).
Proof.
  intros Hlen Hnl Hcr. unfold readline.
  rewrite (stream_readline_long l rest _ Hlen Hnl).
  assert (Hn : ~ ends_with_char nl l).
  { intros [b ->]. apply Hnl. apply in_or_app. right. now left. }
  assert (E1 : endswith l [nl] = false).
  { destruct (endswith l [nl]) eqn:E; [|reflexivity].
    apply endswith_true in E. now destruct Hn. }
  assert (E2 : endswith l [nl; cr] = false).
  { destruct (endswith l [nl; cr]) eqn:E; [|reflexivity].
    apply endswith_true in E. destruct E as [b ->].
    exfalso. apply Hnl. apply in_or_app. right. now left. }
  rewrite E1, E2. cbn [orb andb].
  destruct l as [|c l]; [discriminate Hlen|]. cbn [falsy].
  destruct (rstrip_line (c :: l) Hn Hcr) as (_ & _ & ->). reflexivity.
Qed.

(** Filler for a line that does not fit the buffer. *)
Definition filler : text := repeat "b"%char (Z.to_nat (_SENTENCE_BUFFER_SIZE - 2)).

Lemma filler_length : len filler = _SENTENCE_BUFFER_SIZE - 2.
Proof.
  unfold filler, len. rewrite repeat_length. apply Z2Nat.id.
  unfold _SENTENCE_BUFFER_SIZE. lia.
Qed.

Lemma filler_chars (c : ascii) : In c filler -> c = "b"%char.
Proof. unfold filler. intros H. now apply repeat_spec in H. Qed.

(** One line of a TSV text, [_SENTENCE_BUFFER_SIZE + 4] characters long
    with its newline: [a<TAB>bbb...bc<TAB>d]. *)
Definition tsv_long_line_with (f : text) : text :=
  (txt "a" ++ [tab] ++ f) ++ txt "c" ++ [tab] ++ txt "d" ++ [nl].

Definition tsv_long_line : text := tsv_long_line_with filler.

Lemma long_line_is_split (f : text) :
  len f = _SENTENCE_BUFFER_SIZE - 2 ->
  (forall c, In c f -> c = "b"%char) ->
  _SENTENCE_BUFFER_SIZE < len (tsv_long_line_with f)
  /\ count_occ ascii_dec (tsv_long_line_with f) nl = 1%nat
  /\ exists final,
       pairs_of 3 (TsvParser_init (txt "en") (txt "zh") (tsv_long_line_with f))
       = Some (Return [(txt "a", f); (txt "c", txt "d")] final).
Proof.
  intros Hf Hchars. unfold len in Hf.
  assert (Hnot : forall c, c <> "b"%char -> ~ In c f)
    by (intros c Hc H; apply Hchars in H; contradiction).
  assert (Hnl : ~ In nl (txt "a" ++ [tab] ++ f)).
  { intros [H|[H|H]]; [discriminate H|discriminate H|].
    revert H. apply Hnot. discriminate. }
  assert (Hlen : len (txt "a" ++ [tab] ++ f) = _SENTENCE_BUFFER_SIZE).
  { unfold len. change (txt "a" ++ [tab] ++ f) with ("a"%char :: tab :: f).
    cbn [List.length]. rewrite !Nat2Z.inj_succ, Hf. lia. }
  split; [|split].
  - unfold tsv_long_line_with. unfold len in *. rewrite length_app, Nat2Z.inj_add, Hlen.
    change (List.length (txt "c" ++ [tab] ++ txt "d" ++ [nl])) with 4%nat. lia.
  - unfold tsv_long_line_with. rewrite count_occ_app.
    replace (count_occ ascii_dec (txt "a" ++ [tab] ++ f) nl) with 0%nat
      by (symmetry; now apply count_occ_not_In).
    reflexivity.
  - eexists. unfold tsv_long_line_with, TsvParser_init.
    cbn [pairs_of next_parallel_phrase_pair TsvParser_parser].
    unfold TsvParser_next_parallel_phrase_pair at 1.
    cbn [tsv_base _tsv_stream ParallelPhraseParser_init].
    rewrite readline_splits_long_line; [|exact Hlen|exact Hnl|].
    + assert (Hsplit : split tab (txt "a" ++ [tab] ++ f) = [txt "a"; f]).
      { apply (split_two tab (txt "a") f); [intros [H|[]]; discriminate H|].
        apply Hnot. discriminate. }
      rewrite !Hsplit. vm_compute. reflexivity.
    + intros [b Hb].
      assert (Hin : In cr (txt "a" ++ [tab] ++ f))
        by (rewrite Hb; apply in_or_app; right; now left).
      destruct Hin as [H|[H|H]]; [discriminate H|discriminate H|].
      revert H. apply Hnot. discriminate.
Qed.

(** C5 at its failing input: the one line of [tsv_long_line] is longer than
    the buffer, and the parser neither raises nor keeps it whole; it yields
    the two pairs [(a, bbb...b)] and [(c, d)] and ends normally. *)
Theorem C5_long_line_is_split :
  _SENTENCE_BUFFER_SIZE < len tsv_long_line
  /\ count_occ ascii_dec tsv_long_line nl = 1%nat
  /\ exists final,
       pairs_of 3 (TsvParser_init (txt "en") (txt "zh") tsv_long_line)
       = Some (Return [(txt "a", filler); (txt "c", txt "d")] final).
Proof. exact (long_line_is_split filler filler_length filler_chars). Qed.

(** ** The output of the TMX exporter *)

(** The opening of a TMX file with the attributes of [<header>] separated
    by [sep]: the XML declaration, the [<tmx>] and [<header>] tags and the
    opening [<body>]. *)
Definition tmx_opening (sep src : text) : text :=
  txt "<?xml version=" ++ quoted "1.0" ++ txt " encoding=" ++ quoted "UTF-8" ++ txt " ?>" ++ [nl]
  ++ txt "<tmx version=" ++ quoted "1.4" ++ txt ">" ++ [nl]
  ++ txt "<header srclang=" ++ [dquote] ++ src ++ [dquote]
  ++ sep ++ txt "adminlang=" ++ quoted "en-us"
  ++ sep ++ txt "o-tmf=" ++ quoted "unknown"
  ++ sep ++ txt "segtype=" ++ quoted "sentence"
  ++ sep ++ txt "creationtool=" ++ quoted "Uplug"
  ++ sep ++ txt "creationtoolversion=" ++ quoted "unknown"
  ++ sep ++ txt "datatype=" ++ quoted "PlainText" ++ txt " />" ++ [nl]
  ++ txt "  <body>" ++ [nl].

(** The opening as section 6 of the specification prints it: the header on
    one line, one space between its attributes. *)
Definition wire_format_opening (src : text) : text := tmx_opening (txt " ") src.

(** The separator of the exporter's template: a newline and eight spaces. *)
Definition header_indent : text := nl :: txt "        ".

(** One [<tu>] of the wire format. *)
Definition tmx_unit (src_code dst_code : text) (pr : text * text) : text :=
  txt "    <tu>" ++ [nl]
  ++ txt "      <tuv xml:lang=" ++ [dquote] ++ src_code ++ [dquote]
  ++ txt "><seg>" ++ fst pr ++ txt "</seg></tuv>" ++ [nl]
  ++ txt "      <tuv xml:lang=" ++ [dquote] ++ dst_code ++ [dquote]
  ++ txt "><seg>" ++ snd pr ++ txt "</seg></tuv>" ++ [nl]
  ++ txt "    </tu>" ++ [nl].

Definition tmx_closing : text := txt "  </body>" ++ [nl] ++ txt "</tmx>".

(** The exporter after [initialize], one [feed_parallel_phrase_pair] per
    pair, and [finalize]. *)
Definition export_pairs {X} `{ParallelPhraseExporter X} (x : X) (pairs : list (text * text)) : X :=
  finalize (fold_left (fun x pr => feed_parallel_phrase_pair x (fst pr) (snd pr))
                      pairs (initialize x)).

Lemma format_init (src : text) :
  format _TMX_INIT_TMPL [src] = tmx_opening header_indent src.
Proof. reflexivity. Qed.

Lemma format_pair (src_code dst_code src dst : text) :
  format _TMX_PAIR_TMPL [src_code; src; dst_code; dst]
  = tmx_unit src_code dst_code (src, dst).
Proof. reflexivity. Qed.

Definition tmx_feed_list (x : TmxExporter) (pairs : list (text * text)) : TmxExporter :=
  fold_left (fun x pr => TmxExporter_feed_parallel_phrase_pair x (fst pr) (snd pr)) pairs x.

Lemma tmx_feed_pairs (pairs : list (text * text)) :
  forall x : TmxExporter,
    _tmxx_stream (tmx_feed_list x pairs)
    = _tmxx_stream x
      ++ List.concat (map (tmx_unit (_src_lang_code x) (_dst_lang_code x)) pairs)
    /\ _src_lang_code (tmx_feed_list x pairs) = _src_lang_code x
    /\ _dst_lang_code (tmx_feed_list x pairs) = _dst_lang_code x.
Proof.
  induction pairs as [|[src dst] pairs IH]; intros x.
  - cbn. now rewrite app_nil_r.
  - change (tmx_feed_list x ((src, dst) :: pairs))
      with (tmx_feed_list (TmxExporter_feed_parallel_phrase_pair x src dst) pairs).
    destruct (IH (TmxExporter_feed_parallel_phrase_pair x src dst)) as (H1 & H2 & H3).
    rewrite H1, H2, H3.
    unfold TmxExporter_feed_parallel_phrase_pair, TmxExporter_write, write.
    cbn [_tmxx_stream _src_lang_code _dst_lang_code map List.concat]. rewrite format_pair.
    now rewrite <- app_assoc.
Qed.

(** C9, as stated, fails: what [initialize] writes is not the opening that
    section 6 shows.  The header attributes are separated by a newline and
    eight spaces, not by one space. *)
Lemma C9_header_is_not_on_one_line :
  text_eqb (getvalue (initialize (TmxExporter_init (txt "en") (txt "zh") [])))
           (wire_format_opening (txt "en")) = false
  /\ getvalue (initialize (TmxExporter_init (txt "en") (txt "zh") []))
     = tmx_opening header_indent (txt "en").
Proof. split; vm_compute; reflexivity. Qed.

(** C9 (amended).  For all language codes, pairs and an output stream that
    already holds [out]: [initialize] writes the opening of section 6 with
    the header attributes separated by a newline and eight spaces; every
    [feed_parallel_phrase_pair] writes one [<tu>] whose two [xml:lang] are
    the codes as given to the constructor and whose [<seg>] hold the texts
    as they are; [finalize] writes the two closing tags.  Nothing else is
    written. *)
Theorem C9_tmx_export_bytes (src_code dst_code out : text) (pairs : list (text * text)) :
  getvalue (initialize (TmxExporter_init src_code dst_code out))
  = out ++ tmx_opening header_indent src_code
  /\ (forall src dst,
        getvalue (feed_parallel_phrase_pair (TmxExporter_init src_code dst_code out) src dst)
        = out ++ txt "    <tu>" ++ [nl]
              ++ txt "      <tuv xml:lang=" ++ [dquote] ++ src_code ++ [dquote]
              ++ txt "><seg>" ++ src ++ txt "</seg></tuv>" ++ [nl]
              ++ txt "      <tuv xml:lang=" ++ [dquote] ++ dst_code ++ [dquote]
              ++ txt "><seg>" ++ dst ++ txt "</seg></tuv>" ++ [nl]
              ++ txt "    </tu>" ++ [nl])
  /\ getvalue (finalize (TmxExporter_init src_code dst_code out))
     = out ++ txt "  </body>" ++ [nl] ++ txt "</tmx>"
  /\ getvalue (export_pairs (TmxExporter_init src_code dst_code out) pairs)
     = out ++ tmx_opening header_indent src_code
           ++ List.concat (map (tmx_unit src_code dst_code) pairs)
           ++ tmx_closing.
Proof.
  split; [reflexivity|]. split; [reflexivity|]. split; [reflexivity|].
  unfold export_pairs.
  cbn [getvalue finalize initialize feed_parallel_phrase_pair TmxExporter_exporter].
  unfold TmxExporter_finalize, TmxExporter_write, write. cbn [_tmxx_stream].
  destruct (tmx_feed_pairs pairs (TmxExporter_initialize (TmxExporter_init src_code dst_code out)))
    as (H & _ & _).
  unfold tmx_feed_list in H. rewrite H.
  unfold TmxExporter_initialize, TmxExporter_write, write, TmxExporter_init.
  cbn [_tmxx_stream _src_lang_code _dst_lang_code]. rewrite format_init.
  now rewrite <- !app_assoc.
Qed.

(** ** The split: one assignment *)

Definition nonneg (c : example_counts) : Prop :=
  0 <= train_example_count c /\ 0 <= validation_example_count c /\ 0 <= test_example_count c.

Definition remaining (c : example_counts) : Z := sum (values c).

Lemma remaining_eq (c : example_counts) :
  remaining c = train_example_count c + validation_example_count c + test_example_count c.
Proof. unfold remaining, sum, values. cbn. lia. Qed.

(** The counts after one pair went to the class [u]. *)
Definition decrement (c : example_counts) (u : MLUse) : example_counts :=
  match u with
  | TRAIN => mkCounts (train_example_count c - 1) (validation_example_count c)
                      (test_example_count c)
  | VALIDATION => mkCounts (train_example_count c) (validation_example_count c - 1)
                           (test_example_count c)
  | TEST => mkCounts (train_example_count c) (validation_example_count c)
                     (test_example_count c - 1)
  | UNASSIGNED => c
  end.

(** The class that the walk over [_ML_USES] reaches for an index below the
    sum of the counts. *)
Lemma assign_walk_spec (c : example_counts) (i : Z) :
  nonneg c -> 0 <= i < remaining c ->
  assign_walk c _ML_USES i
  = Some (if i <? train_example_count c then TRAIN
          else if i <? train_example_count c + validation_example_count c then VALIDATION
          else TEST).
Proof.
  intros (Ht & Hv & Hs) Hi. rewrite remaining_eq in Hi.
  cbn [assign_walk _ML_USES getitem].
  destruct (Z.ltb_spec i (train_example_count c)); [reflexivity|].
  destruct (Z.ltb_spec (i - train_example_count c) (validation_example_count c));
    destruct (Z.ltb_spec i (train_example_count c + validation_example_count c));
    try lia; [reflexivity|].
  destruct (Z.ltb_spec (i - train_example_count c - validation_example_count c)
                       (test_example_count c)); [reflexivity|lia].
Qed.

Lemma assign_walk_positive (c : example_counts) (i : Z) (u : MLUse) :
  nonneg c -> 0 <= i < remaining c -> assign_walk c _ML_USES i = Some u ->
  u <> UNASSIGNED /\ exists n, getitem c u = Some n /\ 0 < n.
Proof.
  intros Hc Hi. rewrite (assign_walk_spec c i Hc Hi).
  destruct Hc as (Ht & Hv & Hs). rewrite remaining_eq in Hi.
  destruct (Z.ltb_spec i (train_example_count c)).
  - intros [= <-]. split; [discriminate|]. eexists. split; [reflexivity|lia].
  - destruct (Z.ltb_spec i (train_example_count c + validation_example_count c));
      intros [= <-]; (split; [discriminate|]); eexists; (split; [reflexivity|lia]).
Qed.

Lemma randint_range (r : random_state) (a b : Z) :
  a <= b ->
  exists i, randint r a b = (Some i, mkRandom (raw r) (S (taken r))) /\ a <= i <= b.
Proof.
  intros Hab. unfold randint. destruct (Z.ltb_spec b a); [lia|].
  eexists. split; [reflexivity|].
  pose proof (Z.mod_pos_bound (raw r (taken r)) (b - a + 1)). lia.
Qed.

(** Every member of the range is the outcome of [randint] for some
    generator. *)
Lemma randint_any (a b j : Z) (k : nat) :
  a <= j <= b -> fst (randint (mkRandom (fun _ => j - a) k) a b) = Some j.
Proof.
  intros Hj. unfold randint. destruct (Z.ltb_spec b a); [lia|].
  cbn [fst raw taken]. rewrite Z.mod_small by lia. f_equal. lia.
Qed.

Lemma decrement_nonneg (c : example_counts) (u : MLUse) (n : Z) :
  nonneg c -> getitem c u = Some n -> 0 < n ->
  nonneg (decrement c u) /\ remaining (decrement c u) = remaining c - 1
  /\ getitem (decrement c u) u = Some (n - 1)
  /\ forall w, w <> u -> getitem (decrement c u) w = getitem c w.
Proof.
  intros (Ht & Hv & Hs) Hg Hn. rewrite !remaining_eq. unfold nonneg.
  destruct u; cbn in *; try discriminate; injection Hg as <-;
    (split; [lia|]); (split; [lia|]); (split; [reflexivity|]);
    intros [] Hw; try reflexivity; now destruct Hw.
Qed.

Lemma select_decrements (self : AutoSplitUtil) (u : MLUse) :
  u <> UNASSIGNED ->
  _select_ml_use self u = Return tt (mkAutoSplit (decrement (_example_counts self) u) (rng self)).
Proof. destruct u; [contradiction| | |]; reflexivity. Qed.

(** One assignment from non-negative counts with a positive sum. *)
Lemma assign_step (self : AutoSplitUtil) :
  nonneg (_example_counts self) -> 0 < remaining (_example_counts self) ->
  exists i u n,
    randint (rng self) 0 (remaining (_example_counts self) - 1)
    = (Some i, mkRandom (raw (rng self)) (S (taken (rng self))))
    /\ 0 <= i < remaining (_example_counts self)
    /\ assign_walk (_example_counts self) _ML_USES i = Some u
    /\ _assign_ml_use self
       = Return u (mkAutoSplit (_example_counts self)
                               (mkRandom (raw (rng self)) (S (S (taken (rng self))))))
    /\ u <> UNASSIGNED
    /\ getitem (_example_counts self) u = Some n /\ 0 < n.
Proof.
  intros Hc HR.
  destruct (randint_range (rng self) 0 (remaining (_example_counts self) - 1)) as (i & Hr & Hi);
    [lia|].
  assert (Hi' : 0 <= i < remaining (_example_counts self)) by lia.
  pose proof (assign_walk_spec _ i Hc Hi') as Hw.
  destruct (assign_walk_positive _ i _ Hc Hi' Hw) as (Hu & n & Hg & Hn).
  eexists i, _, n. split; [exact Hr|]. split; [exact Hi'|]. split; [exact Hw|].
  split; [|split; [exact Hu|split; [exact Hg|exact Hn]]].
  unfold _assign_ml_use. fold (remaining (_example_counts self)). rewrite Hr.
  cbn [_example_counts]. rewrite Hw. reflexivity.
Qed.

(** ** The split: a run over the pairs *)

Definition count_use (u : MLUse) (uses : list MLUse) : Z :=
  Z.of_nat (List.length (filter (MLUse_eqb u) uses)).

(** The pairs that went to the class [u], in order. *)
Fixpoint assigned (u : MLUse) (uses : list MLUse) (pairs : list (text * text))
  : list (text * text) :=
  match uses, pairs with
  | w :: uses', pr :: pairs' =>
      if MLUse_eqb u w then pr :: assigned u uses' pairs' else assigned u uses' pairs'
  | _, _ => []
  end.

Definition feed_list {X} `{ParallelPhraseExporter X} (x : X) (pairs : list (text * text)) : X :=
  fold_left (fun x pr => feed_parallel_phrase_pair x (fst pr) (snd pr)) pairs x.

Lemma assigned_length (u : MLUse) (uses : list MLUse) :
  forall pairs, List.length pairs = List.length uses ->
                Z.of_nat (List.length (assigned u uses pairs)) = count_use u uses.
Proof.
  unfold count_use.
  induction uses as [|w uses IH]; intros [|pr pairs] Hlen; try discriminate; [reflexivity|].
  cbn [assigned filter]. injection Hlen as Hlen.
  destruct (MLUse_eqb u w); cbn [List.length]; rewrite ?Nat2Z.inj_succ; now rewrite IH.
Qed.

(** A run over at most as many pairs as the counts allow raises nothing,
    keeps the counts non-negative, takes from each count the number of
    pairs given to its class, and feeds each exporter the pairs of its
    class in order. *)
Lemma autosplit_pairs_run {X} `{ParallelPhraseExporter X} (pairs : list (text * text)) :
  forall (self : AutoSplitUtil) (e : exporters X),
    nonneg (_example_counts self) ->
    Z.of_nat (List.length pairs) <= remaining (_example_counts self) ->
    exists uses self' e',
      autosplit_pairs self e pairs = Return uses (self', e')
      /\ List.length uses = List.length pairs
      /\ ~ In UNASSIGNED uses
      /\ nonneg (_example_counts self')
      /\ train_example_count (_example_counts self')
         = train_example_count (_example_counts self) - count_use TRAIN uses
      /\ validation_example_count (_example_counts self')
         = validation_example_count (_example_counts self) - count_use VALIDATION uses
      /\ test_example_count (_example_counts self')
         = test_example_count (_example_counts self) - count_use TEST uses
      /\ train_exporter e' = feed_list (train_exporter e) (assigned TRAIN uses pairs)
      /\ validation_exporter e'
         = feed_list (validation_exporter e) (assigned VALIDATION uses pairs)
      /\ test_exporter e' = feed_list (test_exporter e) (assigned TEST uses pairs).
Proof.
  induction pairs as [|[src dst] pairs IH]; intros self e Hc Hlen.
  - exists [], self, e. cbn. unfold count_use. cbn. repeat split; try tauto; try lia; apply Hc.
  - cbn [List.length] in Hlen. rewrite Nat2Z.inj_succ in Hlen.
    destruct (assign_step self Hc) as (i & u & n & _ & _ & _ & Ha & Hu & Hg & Hn); [lia|].
    destruct (decrement_nonneg _ u n Hc Hg Hn) as (Hc' & HR' & _ & _).
    cbn [autosplit_pairs]. rewrite Ha.
    set (self1 := mkAutoSplit (_example_counts self) _).
    rewrite (select_decrements self1 u Hu). cbn [_example_counts self1 rng].
    set (self2 := mkAutoSplit (decrement (_example_counts self) u) _).
    assert (Hfeed : exists e1, feed_exporter e u src dst = Some e1
              /\ train_exporter e1
                 = (if MLUse_eqb TRAIN u
                    then feed_parallel_phrase_pair (train_exporter e) src dst
                    else train_exporter e)
              /\ validation_exporter e1
                 = (if MLUse_eqb VALIDATION u
                    then feed_parallel_phrase_pair (validation_exporter e) src dst
                    else validation_exporter e)
              /\ test_exporter e1
                 = (if MLUse_eqb TEST u
                    then feed_parallel_phrase_pair (test_exporter e) src dst
                    else test_exporter e)).
    { destruct u; [contradiction| | |]; eexists; (split; [reflexivity|]); cbn; auto. }
    destruct Hfeed as (e1 & -> & He1 & He2 & He3).
    destruct (IH self2 e1) as (uses & self' & e' & Hrun & Hl & Hun & Hnn & Ht & Hv & Hs
                               & Hx1 & Hx2 & Hx3);
      [exact Hc'|cbn [_example_counts self2]; lia|].
    rewrite Hrun. exists (u :: uses), self', e'.
    split; [reflexivity|]. split; [cbn; now rewrite Hl|].
    split; [intros [E|E]; [now apply Hu|contradiction]|].
    split; [exact Hnn|].
    rewrite Ht, Hv, Hs, Hx1, Hx2, Hx3, He1, He2, He3.
    cbn [_example_counts self2]. unfold count_use. cbn [filter assigned].
    destruct u; [contradiction| | |]; cbn [MLUse_eqb MLUse_value Z.eqb Pos.eqb decrement
      train_example_count validation_example_count test_example_count List.length];
      rewrite ?Nat2Z.inj_succ; repeat split; try lia; reflexivity.
Qed.

(** The indices below the sum of the counts for which [_assign_ml_use]
    chooses the class [u]. *)
Definition selecting (c : example_counts) (u : MLUse) : list nat :=
  filter (fun k => match assign_walk c _ML_USES (Z.of_nat k) with
                   | Some w => MLUse_eqb w u
                   | None => false
                   end)
         (seq 0 (Z.to_nat (remaining c))).

Lemma interval_count (a b n : nat) :
  forall s, List.length (filter (fun k => (a <=? k) && (k <? b))%nat (seq s n))
            = (Nat.min b (s + n) - Nat.max a s)%nat.
Proof.
  induction n as [|n IH]; intros s; cbn [seq filter].
  - cbn. lia.
  - destruct (Nat.leb_spec a s); destruct (Nat.ltb_spec s b); cbn [andb List.length];
      rewrite IH; lia.
Qed.

(** Each class is chosen for as many of the equally likely indices as its
    count says. *)
Lemma selecting_count (c : example_counts) (u : MLUse) (n : Z) :
  nonneg c -> getitem c u = Some n -> Z.of_nat (List.length (selecting c u)) = n.
Proof.
  intros Hc Hg. pose proof Hc as (Ht & Hv & Hs). pose proof (remaining_eq c) as HR.
  unfold selecting.
  set (t := Z.to_nat (train_example_count c)).
  set (v := Z.to_nat (validation_example_count c)).
  assert (Hext : forall a b : nat,
            (forall k, (k < Z.to_nat (remaining c))%nat ->
                       match assign_walk c _ML_USES (Z.of_nat k) with
                       | Some w => MLUse_eqb w u
                       | None => false
                       end = ((a <=? k) && (k <? b))%nat) ->
            List.length (filter (fun k => match assign_walk c _ML_USES (Z.of_nat k) with
                                          | Some w => MLUse_eqb w u
                                          | None => false
                                          end) (seq 0 (Z.to_nat (remaining c))))
            = (Nat.min b (Z.to_nat (remaining c)) - Nat.max a 0)%nat).
  { intros a b Hk.
    rewrite (filter_ext_in _ (fun k => (a <=? k) && (k <? b))%nat).
    - now rewrite interval_count.
    - intros k Hin. apply in_seq in Hin. apply Hk. lia. }
  assert (Hwalk : forall k, (k < Z.to_nat (remaining c))%nat ->
            assign_walk c _ML_USES (Z.of_nat k)
            = Some (if (k <? t)%nat then TRAIN else if (k <? t + v)%nat then VALIDATION
                    else TEST)).
  { intros k Hk. rewrite assign_walk_spec; [|exact Hc|lia]. subst t v.
    destruct (Z.ltb_spec (Z.of_nat k) (train_example_count c));
      destruct (Nat.ltb_spec k (Z.to_nat (train_example_count c))); try lia; [reflexivity|].
    destruct (Z.ltb_spec (Z.of_nat k) (train_example_count c + validation_example_count c));
      destruct (Nat.ltb_spec k (Z.to_nat (train_example_count c)
                                + Z.to_nat (validation_example_count c))); try lia;
      reflexivity. }
  destruct u; cbn in Hg; try discriminate; injection Hg as <-.
  - rewrite (Hext 0%nat t); [subst t; lia|].
    intros k Hk. rewrite (Hwalk k Hk).
    destruct (Nat.ltb_spec k t); [reflexivity|].
    destruct (k <? t + v)%nat; reflexivity.
  - rewrite (Hext t (t + v)%nat); [subst t v; lia|].
    intros k Hk. rewrite (Hwalk k Hk).
    destruct (Nat.ltb_spec k t); destruct (Nat.leb_spec t k); try lia; cbn [andb];
      [destruct (k <? t + v)%nat; reflexivity|].
    destruct (k <? t + v)%nat; reflexivity.
  - rewrite (Hext (t + v)%nat (Z.to_nat (remaining c))); [subst t v; lia|].
    intros k Hk. rewrite (Hwalk k Hk).
    destruct (Nat.ltb_spec k t); destruct (Nat.ltb_spec k (t + v));
      destruct (Nat.leb_spec (t + v) k); destruct (Nat.ltb_spec k (Z.to_nat (remaining c)));
      try lia; reflexivity.
Qed.

(** C10.  From non-negative counts with a positive sum [R]: the index that
    [_assign_ml_use] draws lies in [0, R), every such index can be drawn,
    and each class is chosen for exactly as many of them as its count; the
    walk over the classes returns a class (the [return MLUse.TRAIN] after
    the loop is not reached) that is not [UNASSIGNED] and whose count is
    positive; [_select_ml_use] takes one from that count and leaves the
    others.  Hence a run over at most [R] pairs raises nothing, keeps every
    count non-negative and takes from each count the number of pairs it
    gave to the class. *)
Theorem C10_assignment_invariants (self : AutoSplitUtil) :
  nonneg (_example_counts self) -> 0 < remaining (_example_counts self) ->
  (exists i u n,
      randint (rng self) 0 (remaining (_example_counts self) - 1)
      = (Some i, mkRandom (raw (rng self)) (S (taken (rng self))))
      /\ 0 <= i < remaining (_example_counts self)
      /\ assign_walk (_example_counts self) _ML_USES i = Some u
      /\ _assign_ml_use self
         = Return u (mkAutoSplit (_example_counts self)
                                 (mkRandom (raw (rng self)) (S (S (taken (rng self))))))
      /\ u <> UNASSIGNED
      /\ getitem (_example_counts self) u = Some n /\ 0 < n
      /\ _select_ml_use self u
         = Return tt (mkAutoSplit (decrement (_example_counts self) u) (rng self))
      /\ getitem (decrement (_example_counts self) u) u = Some (n - 1)
      /\ (forall w, w <> u -> getitem (decrement (_example_counts self) u) w
                              = getitem (_example_counts self) w)
      /\ nonneg (decrement (_example_counts self) u))
  /\ (forall j k, 0 <= j < remaining (_example_counts self) ->
        fst (randint (mkRandom (fun _ => j) k) 0 (remaining (_example_counts self) - 1))
        = Some j)
  /\ (forall u n, getitem (_example_counts self) u = Some n ->
        Z.of_nat (List.length (selecting (_example_counts self) u)) = n)
  /\ (forall (pairs : list (text * text)) (e : exporters TsvExporter),
        Z.of_nat (List.length pairs) <= remaining (_example_counts self) ->
        exists uses self' e',
          autosplit_pairs self e pairs = Return uses (self', e')
          /\ ~ In UNASSIGNED uses
          /\ nonneg (_example_counts self')
          /\ train_example_count (_example_counts self')
             = train_example_count (_example_counts self) - count_use TRAIN uses
          /\ validation_example_count (_example_counts self')
             = validation_example_count (_example_counts self) - count_use VALIDATION uses
          /\ test_example_count (_example_counts self')
             = test_example_count (_example_counts self) - count_use TEST uses).
Proof.
  intros Hc HR. split; [|split; [|split]].
  - destruct (assign_step self Hc HR) as (i & u & n & Hr & Hi & Hw & Ha & Hu & Hg & Hn).
    destruct (decrement_nonneg _ u n Hc Hg Hn) as (Hc' & _ & Hg' & Hothers).
    exists i, u, n. repeat (split; [assumption|]).
    split; [now apply select_decrements|]. repeat (split; [assumption|]). assumption.
  - intros j k Hj. pose proof (randint_any 0 (remaining (_example_counts self) - 1) j k) as H.
    rewrite Z.sub_0_r in H. apply H. lia.
  - intros u n Hg. now apply selecting_count.
  - intros pairs e Hlen.
    destruct (autosplit_pairs_run pairs self e Hc Hlen)
      as (uses & self' & e' & Hrun & _ & Hun & Hnn & Ht & Hv & Hs & _).
    exists uses, self', e'. repeat (split; [assumption|]). assumption.
Qed.

(** C10 at the counts 2, 1, 0 with a generator that yields 2: the index 2
    selects [VALIDATION], whose count goes from 1 to 0. *)
Lemma C10_assignment_invariants_witness :
  exists i u n,
    randint (mkRandom (fun _ => 2) 0) 0 (remaining (mkCounts 2 1 0) - 1)
    = (Some i, mkRandom (fun _ => 2) 1)
    /\ 0 <= i < remaining (mkCounts 2 1 0)
    /\ assign_walk (mkCounts 2 1 0) _ML_USES i = Some u
    /\ _assign_ml_use (mkAutoSplit (mkCounts 2 1 0) (mkRandom (fun _ => 2) 0))
       = Return u (mkAutoSplit (mkCounts 2 1 0) (mkRandom (fun _ => 2) 2))
    /\ u <> UNASSIGNED
    /\ getitem (mkCounts 2 1 0) u = Some n /\ 0 < n
    /\ _select_ml_use (mkAutoSplit (mkCounts 2 1 0) (mkRandom (fun _ => 2) 0)) u
       = Return tt (mkAutoSplit (decrement (mkCounts 2 1 0) u) (mkRandom (fun _ => 2) 0))
    /\ getitem (decrement (mkCounts 2 1 0) u) u = Some (n - 1)
    /\ (forall w, w <> u -> getitem (decrement (mkCounts 2 1 0) u) w
                            = getitem (mkCounts 2 1 0) w)
    /\ nonneg (decrement (mkCounts 2 1 0) u).
Proof.
  refine (proj1 (C10_assignment_invariants
                   (mkAutoSplit (mkCounts 2 1 0) (mkRandom (fun _ => 2) 0)) _ _)).
  - unfold nonneg. cbn. lia.
  - vm_compute. reflexivity.
Defined.

(** ** Floats in integer arithmetic

    The floats of [_autosplit_example_count] are integer multiples of a
    power of two; the lemmas below express the operations of [SpecFloat]
    on them through integer rounding to 53 significant bits. *)

(** The number of binary digits of a positive integer. *)
Definition digits (m : Z) : Z := Z.log2 m + 1.

Lemma digits_bounds (m : Z) : 0 < m -> 2 ^ (digits m - 1) <= m < 2 ^ digits m.
Proof.
  intros Hm. unfold digits. replace (Z.log2 m + 1 - 1) with (Z.log2 m) by lia.
  replace (Z.log2 m + 1) with (Z.succ (Z.log2 m)) by lia. now apply Z.log2_spec.
Qed.

Lemma digits_unique (m d : Z) : 2 ^ (d - 1) <= m < 2 ^ d -> 0 < m -> digits m = d.
Proof.
  intros H Hm. unfold digits.
  assert (0 < d).
  { destruct (Z.ltb_spec 0 d); [assumption|]. exfalso.
    assert (Hd0 : 2 ^ d <= 2 ^ 0) by (apply Z.pow_le_mono_r; lia).
    change (2 ^ 0) with 1 in Hd0. lia. }
  rewrite (Z.log2_unique m (d - 1)); [lia|lia|].
  replace (Z.succ (d - 1)) with d by lia. exact H.
Qed.

Lemma digits_pos (m : Z) : 0 < m -> 0 < digits m.
Proof. intros H. unfold digits. pose proof (Z.log2_nonneg m). lia. Qed.

Lemma Zdigits2_digits (p : positive) : Zdigits2 (Zpos p) = digits (Zpos p).
Proof.
  symmetry. apply digits_unique; [|lia]. cbn [Zdigits2].
  induction p as [p IH|p IH|]; cbn [digits2_pos].
  - rewrite Pos2Z.inj_succ. replace (Z.succ (Z.pos (digits2_pos p)) - 1) with (Z.pos (digits2_pos p)) by lia.
    rewrite Z.pow_succ_r by lia.
    replace (Z.pos (digits2_pos p)) with (Z.succ (Z.pos (digits2_pos p) - 1)) at 1 by lia.
    rewrite Z.pow_succ_r by lia. lia.
  - rewrite Pos2Z.inj_succ. replace (Z.succ (Z.pos (digits2_pos p)) - 1) with (Z.pos (digits2_pos p)) by lia.
    rewrite Z.pow_succ_r by lia.
    replace (Z.pos (digits2_pos p)) with (Z.succ (Z.pos (digits2_pos p) - 1)) at 1 by lia.
    rewrite Z.pow_succ_r by lia. lia.
  - cbn. lia.
Qed.

Lemma iter_pos_nat {A} (f : A -> A) (p : positive) :
  forall x, iter_pos f p x = Nat.iter (Pos.to_nat p) f x.
Proof.
  induction p as [p IH|p IH|]; intros x; cbn [iter_pos].
  - rewrite !IH, Pos2Nat.inj_xI. cbn [Nat.mul]. rewrite Nat.add_0_r.
    rewrite Nat.iter_succ_r, Nat.iter_add. reflexivity.
  - rewrite !IH, Pos2Nat.inj_xO. cbn [Nat.mul]. rewrite Nat.add_0_r.
    now rewrite Nat.iter_add.
  - reflexivity.
Qed.

(** The shift record after [n >= 1] steps. *)
Definition shr_spec (m n : Z) : shr_record :=
  Build_shr_record (m / 2 ^ n) (2 ^ (n - 1) <=? m mod 2 ^ n)
                   (negb (m mod 2 ^ (n - 1) =? 0)).

Lemma shr_1_spec (q : Z) (r s : bool) :
  0 <= q ->
  shr_1 (Build_shr_record q r s) = Build_shr_record (q / 2) (Z.odd q) (r || s).
Proof.
  intros Hq. rewrite <- Z.div2_div.
  destruct q as [|[p|p|]|p]; try lia; reflexivity.
Qed.

Lemma mod_pow2_succ (m k : Z) :
  0 <= m -> 0 <= k -> m mod 2 ^ (k + 1) = m mod 2 ^ k + 2 ^ k * ((m / 2 ^ k) mod 2).
Proof.
  intros Hm Hk.
  assert (Hp : 0 < 2 ^ k) by (apply Z.pow_pos_nonneg; lia).
  symmetry. apply Z.mod_unique with (q := m / 2 ^ k / 2).
  - left. rewrite Z.pow_add_r by lia. change (2 ^ 1) with 2.
    pose proof (Z.mod_pos_bound m (2 ^ k) Hp).
    pose proof (Z.mod_pos_bound (m / 2 ^ k) 2 ltac:(lia)). nia.
  - rewrite Z.pow_add_r by lia. change (2 ^ 1) with 2.
    pose proof (Z.div_mod m (2 ^ k) ltac:(lia)).
    pose proof (Z.div_mod (m / 2 ^ k) 2 ltac:(lia)). nia.
Qed.

Lemma shr_nat (m : Z) (n : nat) :
  0 <= m ->
  Nat.iter (S n) shr_1 (Build_shr_record m false false) = shr_spec m (Z.of_nat (S n)).
Proof.
  intros Hm. induction n as [|n IH].
  - cbn [Nat.iter]. rewrite shr_1_spec by assumption. unfold shr_spec.
    change (Z.of_nat 1) with 1. change (2 ^ 1) with 2. change (2 ^ (1 - 1)) with 1.
    rewrite Z.mod_1_r. cbn [Z.eqb negb orb]. f_equal.
    rewrite Zodd_mod. pose proof (Z.mod_pos_bound m 2 ltac:(lia)).
    destruct (Z.leb_spec 1 (m mod 2)); destruct (Z.eqb_spec (m mod 2) 1); try lia; reflexivity.
  - change (Nat.iter (S (S n)) shr_1 ?x) with (shr_1 (Nat.iter (S n) shr_1 x)).
    rewrite IH. unfold shr_spec at 1.
    set (k := Z.of_nat (S n)). assert (Hk : 1 <= k) by lia.
    replace (Z.of_nat (S (S n))) with (k + 1) by lia.
    assert (Hp : 0 < 2 ^ k) by (apply Z.pow_pos_nonneg; lia).
    rewrite shr_1_spec by (apply Z.div_pos; lia).
    unfold shr_spec. replace (k + 1 - 1) with k by lia. f_equal.
    + rewrite Z.div_div by lia. rewrite Z.pow_add_r by lia. reflexivity.
    + rewrite (mod_pow2_succ m k) by lia. rewrite Zodd_mod.
      pose proof (Z.mod_pos_bound m (2 ^ k) Hp).
      pose proof (Z.mod_pos_bound (m / 2 ^ k) 2 ltac:(lia)).
      destruct (Z.eqb_spec ((m / 2 ^ k) mod 2) 1) as [E|E];
        destruct (Z.leb_spec (2 ^ k) (m mod 2 ^ k + 2 ^ k * ((m / 2 ^ k) mod 2))); try reflexivity; nia.
    + assert (Hp' : 0 < 2 ^ (k - 1)) by (apply Z.pow_pos_nonneg; lia).
      assert (E : m mod 2 ^ k = m mod 2 ^ (k - 1) + 2 ^ (k - 1) * ((m / 2 ^ (k - 1)) mod 2)).
      { replace k with ((k - 1) + 1) at 1 by lia. apply mod_pow2_succ; lia. }
      rewrite E.
      pose proof (Z.mod_pos_bound m (2 ^ (k - 1)) Hp') as Ha.
      pose proof (Z.mod_pos_bound (m / 2 ^ (k - 1)) 2 ltac:(lia)) as Hb.
      set (a := m mod 2 ^ (k - 1)) in *. set (b := (m / 2 ^ (k - 1)) mod 2) in *.
      assert (Hb' : b = 0 \/ b = 1) by lia.
      destruct Hb' as [-> | ->]; rewrite ?Z.mul_0_r, ?Z.mul_1_r, ?Z.add_0_r;
        destruct (Z.eqb_spec a 0) as [E0|E0];
        destruct (Z.leb_spec (2 ^ (k - 1)) a);
        try destruct (Z.leb_spec (2 ^ (k - 1)) (a + 2 ^ (k - 1)));
        try destruct (Z.eqb_spec (a + 2 ^ (k - 1)) 0);
        cbn [negb orb]; try reflexivity; lia.
Qed.

Lemma shr_pos (m : Z) (ps : positive) (e : Z) :
  0 <= m ->
  shr (Build_shr_record m false false) e (Zpos ps) = (shr_spec m (Zpos ps), e + Zpos ps).
Proof.
  intros Hm. cbn [shr]. rewrite iter_pos_nat.
  destruct (Pos2Nat.is_succ ps) as [n Hn]. rewrite Hn, shr_nat by assumption.
  rewrite <- Hn, positive_nat_Z. reflexivity.
Qed.

(** Whether the quotient [q] is rounded up when the remainder is [r] and
    half the divisor is [h]: to nearest, ties to even. *)
Definition round_up (q r h : Z) : bool :=
  if r <? h then false else if r =? h then Z.odd q else true.

(** An integer rounded to 53 significant bits. *)
Definition rnd (m : Z) : Z :=
  let s := digits m - 53 in
  if s <=? 0 then m
  else (m / 2 ^ s + (if round_up (m / 2 ^ s) (m mod 2 ^ s) (2 ^ (s - 1)) then 1 else 0))
       * 2 ^ s.

Lemma round_shr_spec (m s : Z) :
  0 <= m -> 0 < s ->
  round_nearest_even (shr_m (shr_spec m s)) (loc_of_shr_record (shr_spec m s))
  = m / 2 ^ s + (if round_up (m / 2 ^ s) (m mod 2 ^ s) (2 ^ (s - 1)) then 1 else 0).
Proof.
  intros Hm Hs. unfold shr_spec, round_up. cbn [shr_m loc_of_shr_record].
  assert (Hp' : 0 < 2 ^ (s - 1)) by (apply Z.pow_pos_nonneg; lia).
  assert (E : m mod 2 ^ s = m mod 2 ^ (s - 1) + 2 ^ (s - 1) * ((m / 2 ^ (s - 1)) mod 2)).
  { replace s with ((s - 1) + 1) at 1 by lia. apply mod_pow2_succ; lia. }
  rewrite E.
  pose proof (Z.mod_pos_bound m (2 ^ (s - 1)) Hp') as Ha.
  pose proof (Z.mod_pos_bound (m / 2 ^ (s - 1)) 2 ltac:(lia)) as Hb.
  set (a := m mod 2 ^ (s - 1)) in *. set (b := (m / 2 ^ (s - 1)) mod 2) in *.
  set (q := m / 2 ^ s).
  assert (Hb' : b = 0 \/ b = 1) by lia.
  rewrite <- Z.negb_even.
  destruct Hb' as [-> | ->]; rewrite ?Z.mul_0_r, ?Z.mul_1_r, ?Z.add_0_r;
    destruct (Z.eqb_spec a 0) as [E0|E0];
    destruct (Z.leb_spec (2 ^ (s - 1)) a);
    try destruct (Z.leb_spec (2 ^ (s - 1)) (a + 2 ^ (s - 1)));
    try destruct (Z.ltb_spec a (2 ^ (s - 1)));
    try destruct (Z.ltb_spec (a + 2 ^ (s - 1)) (2 ^ (s - 1)));
    try destruct (Z.eqb_spec (a + 2 ^ (s - 1)) (2 ^ (s - 1)));
    try destruct (Z.eqb_spec a (2 ^ (s - 1)));
    cbn [negb round_nearest_even]; try lia; try (destruct (Z.even q); cbn [negb]; lia).
Qed.

(** Bounds of the quotient by the power of two that leaves 53 digits. *)
Lemma quotient_bounds (m : Z) :
  0 < m -> 0 < digits m - 53 ->
  2 ^ 52 <= m / 2 ^ (digits m - 53) < 2 ^ 53.
Proof.
  intros Hm Hs. pose proof (digits_bounds m Hm) as [Hlo Hhi].
  set (s := digits m - 53) in *.
  assert (Hp : 0 < 2 ^ s) by (apply Z.pow_pos_nonneg; lia).
  replace (digits m - 1) with (52 + s) in Hlo by (unfold s; lia).
  replace (digits m) with (53 + s) in Hhi by (unfold s; lia).
  rewrite Z.pow_add_r in Hlo, Hhi by lia.
  split.
  - apply Z.div_le_lower_bound; lia.
  - apply Z.div_lt_upper_bound; lia.
Qed.

Definition round_me (m e : Z) : Z * Z :=
  let s := digits m - 53 in
  if s <=? 0 then (m, e)
  else let m1 := rnd m / 2 ^ s in
       if m1 =? 2 ^ 53 then (2 ^ 52, e + s + 1) else (m1, e + s).

Lemma fexp_normal (k : Z) : -1074 <= k - 53 -> fexp 53 1024 k = k - 53.
Proof. intros H. unfold fexp, emin. lia. Qed.

Lemma binary_round_aux_spec (p : positive) (e : Z) (sx : bool) :
  -1074 <= digits (Zpos p) + e - 53 ->
  binary_round_aux 53 1024 sx (Zpos p) e loc_Exact
  = (if snd (round_me (Zpos p) e) <=? 971
     then S754_finite sx (Z.to_pos (fst (round_me (Zpos p) e))) (snd (round_me (Zpos p) e))
     else S754_infinity sx).
Proof.
  intros Hn. unfold binary_round_aux, shr_fexp, round_me.
  rewrite Zdigits2_digits. rewrite fexp_normal by lia.
  cbn [shr_record_of_loc].
  set (d := digits (Zpos p)) in *.
  replace (d + e - 53 - e) with (d - 53) by lia.
  destruct (Z.leb_spec (d - 53) 0) as [Hs|Hs].
  - assert (Hshr : forall x, shr x e (d - 53) = (x, e)).
    { intros x. destruct (d - 53); try reflexivity; lia. }
    rewrite Hshr. cbn [shr_m loc_of_shr_record round_nearest_even].
    rewrite Zdigits2_digits. fold d.
    rewrite fexp_normal by lia. replace (d + e - 53 - e) with (d - 53) by lia.
    cbn [shr_record_of_loc]. rewrite Hshr. cbn [shr_m fst snd]. reflexivity.
  - destruct (d - 53) as [|ps|ps] eqn:Es; try lia.
    rewrite shr_pos by lia.
    rewrite round_shr_spec by lia.
    assert (Hm : 0 < Zpos p) by lia.
    pose proof (quotient_bounds (Zpos p) Hm ltac:(fold d; lia)) as Hq. fold d in Hq.
    rewrite Es in Hq.
    assert (Hp : 0 < 2 ^ Zpos ps) by (apply Z.pow_pos_nonneg; lia).
    assert (Hrnd : rnd (Zpos p) / 2 ^ Zpos ps
                   = Zpos p / 2 ^ Z.pos ps +
                     (if round_up (Zpos p / 2 ^ Z.pos ps) (Zpos p mod 2 ^ Z.pos ps)
                                  (2 ^ (Z.pos ps - 1))
                      then 1 else 0)).
    { unfold rnd. fold d. rewrite Es. destruct (Z.leb_spec (Zpos ps) 0); [lia|].
      rewrite Z.div_mul by lia. reflexivity. }
    rewrite Hrnd.
    set (m1 := Zpos p / 2 ^ Z.pos ps +
               (if round_up (Zpos p / 2 ^ Z.pos ps) (Zpos p mod 2 ^ Z.pos ps)
                            (2 ^ (Z.pos ps - 1))
                then 1 else 0)) in *.
    assert (Hm1 : 2 ^ 52 <= m1 <= 2 ^ 53).
    { unfold m1. destruct (round_up _ _ _); lia. }
    clearbody m1.
    destruct m1 as [|p1|p1]; try lia.
    rewrite Zdigits2_digits.
    destruct (Z.eqb_spec (Zpos p1) (2 ^ 53)) as [E53|E53].
    + rewrite E53. change (digits (2 ^ 53)) with 54.
      rewrite fexp_normal by lia.
      replace (54 + (e + Z.pos ps) - 53 - (e + Z.pos ps)) with 1 by lia.
      cbn [shr_record_of_loc shr iter_pos shr_1 shr_m fst snd].
      reflexivity.
    + assert (Hd1 : digits (Zpos p1) = 53).
      { apply digits_unique; [|lia]. change (53 - 1) with 52. lia. }
      rewrite Hd1, fexp_normal by lia.
      replace (53 + (e + Z.pos ps) - 53 - (e + Z.pos ps)) with 0 by lia.
      cbn [shr_record_of_loc shr shr_m fst snd]. reflexivity.
Qed.

(** ** Rounding to 53 bits *)

Lemma pow2_pos (k : Z) : 0 <= k -> 0 < 2 ^ k.
Proof. intros H. apply Z.pow_pos_nonneg; lia. Qed.

Lemma rnd_small (m : Z) : digits m <= 53 -> rnd m = m.
Proof. intros H. unfold rnd. destruct (Z.leb_spec (digits m - 53) 0); [reflexivity|lia]. Qed.

Lemma rnd_below (m : Z) : 0 < m -> m < 2 ^ 53 -> rnd m = m.
Proof.
  intros Hm Hlt. apply rnd_small. pose proof (digits_bounds m Hm) as [Hlo _].
  destruct (Z.leb_spec (digits m) 53); [assumption|].
  assert (2 ^ 53 <= 2 ^ (digits m - 1)) by (apply Z.pow_le_mono_r; lia). lia.
Qed.

(** The rounded value of an integer of more than 53 digits: a multiple
    [m1 * 2 ^ s] with [m1] of 53 digits (or [2 ^ 53]), at most half of
    [2 ^ s] away. *)
Lemma rnd_large (m : Z) :
  0 < m -> 0 < digits m - 53 ->
  exists m1, rnd m = m1 * 2 ^ (digits m - 53)
             /\ 2 ^ 52 <= m1 <= 2 ^ 53
             /\ 2 * Z.abs (rnd m - m) <= 2 ^ (digits m - 53)
             /\ (m mod 2 ^ (digits m - 53) = 0 -> rnd m = m).
Proof.
  intros Hm Hs. pose proof (quotient_bounds m Hm Hs) as Hq.
  unfold rnd. set (s := digits m - 53) in *.
  destruct (Z.leb_spec s 0); [lia|].
  assert (Hp : 0 < 2 ^ s) by (apply pow2_pos; lia).
  assert (Hh : 2 ^ s = 2 * 2 ^ (s - 1)).
  { rewrite <- Z.pow_succ_r by lia. f_equal. lia. }
  pose proof (Z.div_mod m (2 ^ s) ltac:(lia)) as Hdm.
  pose proof (Z.mod_pos_bound m (2 ^ s) Hp) as Hr.
  set (q := m / 2 ^ s) in *. set (r := m mod 2 ^ s) in *. set (h := 2 ^ (s - 1)) in *.
  eexists. split; [reflexivity|]. unfold round_up.
  destruct (Z.ltb_spec r h); [|destruct (Z.eqb_spec r h); [destruct (Z.odd q)|]];
    (split; [lia|]); (split; [nia|]); intros; nia.
Qed.

Lemma rnd_positive (m : Z) : 0 < m -> 0 < rnd m.
Proof.
  intros Hm. destruct (Z.leb_spec (digits m) 53).
  - now rewrite rnd_small.
  - destruct (rnd_large m Hm ltac:(lia)) as (m1 & -> & Hm1 & _).
    pose proof (pow2_pos (digits m - 53) ltac:(lia)). nia.
Qed.

(** The relative error of rounding is at most [2 ^ -53]. *)
Lemma rnd_relative (m : Z) : 0 < m -> Z.abs (rnd m - m) * 2 ^ 53 <= m.
Proof.
  intros Hm. destruct (Z.leb_spec (digits m) 53).
  - rewrite rnd_small by assumption. lia.
  - destruct (rnd_large m Hm ltac:(lia)) as (m1 & _ & _ & Herr & _).
    pose proof (digits_bounds m Hm) as [Hlo _].
    replace (digits m - 1) with (52 + (digits m - 53)) in Hlo by lia.
    rewrite Z.pow_add_r in Hlo by lia.
    pose proof (pow2_pos (digits m - 53) ltac:(lia)).
    change (2 ^ 53) with (2 * 2 ^ 52). nia.
Qed.

Lemma digits_scale (m k : Z) : 0 < m -> 0 <= k -> digits (m * 2 ^ k) = digits m + k.
Proof.
  intros Hm Hk. unfold digits. rewrite Z.log2_mul_pow2 by lia. lia.
Qed.

Lemma round_up_scale (q r h c : Z) : 0 < c -> round_up q (r * c) (h * c) = round_up q r h.
Proof.
  intros Hc. unfold round_up.
  destruct (Z.ltb_spec (r * c) (h * c)); destruct (Z.ltb_spec r h); try nia; try reflexivity.
  destruct (Z.eqb_spec (r * c) (h * c)); destruct (Z.eqb_spec r h); try nia; reflexivity.
Qed.

(** Rounding commutes with the multiplication by a power of two. *)
Lemma rnd_scale (m k : Z) : 0 < m -> 0 <= k -> rnd (m * 2 ^ k) = rnd m * 2 ^ k.
Proof.
  intros Hm Hk. pose proof (pow2_pos k Hk) as Hpk.
  unfold rnd. rewrite digits_scale by assumption.
  set (s := digits m - 53). replace (digits m + k - 53) with (s + k) by (unfold s; lia).
  destruct (Z.leb_spec s 0) as [Hs|Hs]; destruct (Z.leb_spec (s + k) 0) as [Hsk|Hsk];
    try reflexivity; try lia.
  - (* exact before, shifted after *)
    assert (Hp : 0 < 2 ^ (s + k)) by (apply pow2_pos; lia).
    assert (E : m * 2 ^ k = (m * 2 ^ (- s)) * 2 ^ (s + k)).
    { rewrite <- Z.mul_assoc, <- Z.pow_add_r by lia. do 2 f_equal. lia. }
    rewrite E at 1 2 3. rewrite Z.div_mul, Z.mod_mul by lia.
    unfold round_up. pose proof (pow2_pos (s + k - 1) ltac:(lia)).
    destruct (Z.ltb_spec 0 (2 ^ (s + k - 1))); [|lia]. rewrite Z.add_0_r. now rewrite <- E.
  - assert (Hp : 0 < 2 ^ s) by (apply pow2_pos; lia).
    rewrite (Z.pow_add_r 2 s k) by lia.
    rewrite Z.div_mul_cancel_r by lia.
    rewrite Zmult_mod_distr_r.
    replace (2 ^ (s + k - 1)) with (2 ^ (s - 1) * 2 ^ k)
      by (rewrite <- Z.pow_add_r by lia; f_equal; lia).
    rewrite round_up_scale by assumption. ring.
Qed.

(** A number of at most 53 significant bits is its own rounding. *)
Lemma rnd_exact (j t : Z) : 0 < j <= 2 ^ 53 -> 0 <= t -> rnd (j * 2 ^ t) = j * 2 ^ t.
Proof.
  intros Hj Ht. rewrite rnd_scale by lia. f_equal.
  destruct (Z.eq_dec j (2 ^ 53)) as [->|Hne].
  - change (2 ^ 53) with (1 * 2 ^ 53). rewrite rnd_scale by lia. reflexivity.
  - apply rnd_below; lia.
Qed.

(** The value of the pair that [round_me] returns. *)
Lemma round_me_value (m e : Z) :
  0 < m ->
  let (m2, e2) := round_me m e in
  e <= e2 /\ 0 < m2 /\ m2 * 2 ^ (e2 - e) = rnd m.
Proof.
  intros Hm. unfold round_me.
  destruct (Z.leb_spec (digits m - 53) 0) as [Hs|Hs].
  - rewrite rnd_small by lia. replace (e - e) with 0 by lia. cbn. lia.
  - destruct (rnd_large m Hm Hs) as (m1 & E & Hm1 & _).
    pose proof (pow2_pos (digits m - 53) ltac:(lia)) as Hp.
    rewrite E. rewrite Z.div_mul by lia.
    destruct (Z.eqb_spec m1 (2 ^ 53)) as [->|Hne].
    + split; [lia|]. split; [reflexivity|].
      replace (e + (digits m - 53) + 1 - e) with (1 + (digits m - 53)) by lia.
      rewrite Z.pow_add_r by lia. change (2 ^ 53) with (2 ^ 52 * 2 ^ 1). ring.
    + split; [lia|]. split; [lia|]. do 2 f_equal. lia.
Qed.

(** ** The operations of the model on positive numbers *)

Lemma round_me_units (m e k : Z) :
  0 < m -> 0 <= e + k ->
  0 <= snd (round_me m e) + k
  /\ 0 < fst (round_me m e)
  /\ e <= snd (round_me m e) <= e + digits m
  /\ fst (round_me m e) * 2 ^ (snd (round_me m e) + k) = rnd m * 2 ^ (e + k).
Proof.
  intros Hm Hk. pose proof (round_me_value m e Hm) as H.
  destruct (round_me m e) as [m2 e2]. destruct H as (He & Hm2 & Hv). cbn [fst snd].
  assert (Hup : e2 <= e + digits m).
  { destruct (Z.leb_spec e2 (e + digits m)); [assumption|exfalso].
    pose proof (digits_bounds m Hm) as [_ Hhi].
    assert (Hr : rnd m <= 2 ^ digits m).
    { destruct (Z.leb_spec (digits m) 53).
      - rewrite rnd_small by assumption. lia.
      - destruct (rnd_large m Hm ltac:(lia)) as (m1 & -> & Hm1 & _).
        replace (digits m) with (53 + (digits m - 53)) at 2 by lia.
        rewrite Z.pow_add_r by lia.
        pose proof (pow2_pos (digits m - 53) ltac:(lia)). nia. }
    assert (2 ^ (digits m + 1) <= 2 ^ (e2 - e)) by (apply Z.pow_le_mono_r; lia).
    rewrite Z.pow_add_r in * by (pose proof (digits_pos m Hm); lia).
    change (2 ^ 1) with 2 in *. pose proof (pow2_pos (digits m) ltac:(pose proof (digits_pos m Hm); lia)).
    nia. }
  repeat split; try lia.
  rewrite <- Hv. replace (e2 + k) with ((e2 - e) + (e + k)) by lia.
  rewrite Z.pow_add_r by lia. ring.
Qed.

Lemma pos_iter_xO (p k : positive) : Zpos (Pos.iter xO p k) = Zpos p * 2 ^ Zpos k.
Proof.
  induction k as [|k IH] using Pos.peano_ind.
  - cbn [Pos.iter]. change (2 ^ 1) with 2. lia.
  - rewrite Pos.iter_succ, Pos2Z.inj_xO, IH, Pos2Z.inj_succ, Z.pow_succ_r by lia. ring.
Qed.

Lemma shl_align_value (p : positive) (e ez : Z) :
  ez <= e -> Zpos (fst (shl_align p e ez)) = Zpos p * 2 ^ (e - ez).
Proof.
  intros H. unfold shl_align. destruct (ez - e) as [|d|d] eqn:E; try lia.
  - replace (e - ez) with 0 by lia. cbn [fst]. lia.
  - cbn [fst]. rewrite pos_iter_xO. do 2 f_equal. lia.
Qed.

(** The mantissa and exponent that [binary_round] gives an integer with an
    exponent: a short mantissa is shifted to 53 digits, a long one is
    rounded. *)
Definition norm_me (m e : Z) : Z * Z :=
  if digits m <? 53 then (m * 2 ^ (53 - digits m), e - (53 - digits m)) else round_me m e.

Lemma binary_round_spec (sx : bool) (p : positive) (e : Z) :
  -1074 <= digits (Zpos p) + e - 53 ->
  binary_round 53 1024 sx p e
  = (if snd (norm_me (Zpos p) e) <=? 971
     then S754_finite sx (Z.to_pos (fst (norm_me (Zpos p) e))) (snd (norm_me (Zpos p) e))
     else S754_infinity sx).
Proof.
  intros Hn. unfold binary_round, norm_me.
  change (Z.pos (digits2_pos p)) with (Zdigits2 (Zpos p)). rewrite Zdigits2_digits.
  rewrite fexp_normal by lia. set (d := digits (Zpos p)) in *.
  unfold shl_align. replace (d + e - 53 - e) with (d - 53) by lia.
  destruct (Z.ltb_spec d 53) as [Hd|Hd].
  - destruct (d - 53) as [|k|k] eqn:Ek; try lia.
    assert (Hz : Zpos (Pos.iter xO p k) = Zpos p * 2 ^ (53 - d)).
    { rewrite pos_iter_xO. do 2 f_equal. lia. }
    rewrite binary_round_aux_spec.
    + unfold round_me. rewrite Hz, digits_scale by lia. fold d.
      destruct (Z.leb_spec (d + (53 - d) - 53) 0); [|lia]. cbn [fst snd].
      replace (e - (53 - d)) with (d + e - 53) by lia. reflexivity.
    + rewrite Hz, digits_scale by lia. fold d. lia.
  - destruct (d - 53) as [|k|k] eqn:Ek; try lia; now rewrite binary_round_aux_spec by (fold d; lia).
Qed.

Lemma norm_me_units (m e k : Z) :
  0 < m -> 0 <= e + k ->
  0 < fst (norm_me m e)
  /\ e - 52 <= snd (norm_me m e) <= e + digits m
  /\ (0 <= snd (norm_me m e) + k ->
      fst (norm_me m e) * 2 ^ (snd (norm_me m e) + k) = rnd m * 2 ^ (e + k))
  /\ ((digits m < 53 /\ rnd m = m
       /\ fst (norm_me m e) = m * 2 ^ (53 - digits m)
       /\ snd (norm_me m e) = e - (53 - digits m))
      \/ (e <= snd (norm_me m e)
          /\ fst (norm_me m e) * 2 ^ (snd (norm_me m e) - e) = rnd m)).
Proof.
  intros Hm Hk. pose proof (digits_pos m Hm) as Hd. unfold norm_me.
  destruct (Z.ltb_spec (digits m) 53) as [Hlt|Hge]; cbn [fst snd].
  - pose proof (pow2_pos (53 - digits m) ltac:(lia)).
    split; [nia|]. split; [lia|]. split.
    + intros Hk'. rewrite rnd_small by lia. rewrite <- Z.mul_assoc, <- Z.pow_add_r by lia.
      do 2 f_equal. lia.
    + left. rewrite rnd_small by lia. auto.
  - destruct (round_me_units m e k Hm Hk) as (H1 & H2 & H3 & H4).
    split; [assumption|]. split; [lia|]. split; [intros _; assumption|].
    right. pose proof (round_me_value m e Hm) as Hv.
    destruct (round_me m e) as [m2 e2]. cbn [fst snd] in *. tauto.
Qed.

(** [int(math.ceil(x))] for the number [z * 2 ^ e]. *)
Definition ceil_me (z e : Z) : Z := if 0 <=? e then z * 2 ^ e else - ((- z) / 2 ^ (- e)).

(** The least integer not below [a / b]. *)
Definition cdiv (a b : Z) : Z := - ((- a) / b).

Lemma ceil_me_units (z e k : Z) :
  0 <= k -> 0 <= e + k -> ceil_me z e = cdiv (z * 2 ^ (e + k)) (2 ^ k).
Proof.
  intros Hk Hek. unfold ceil_me, cdiv.
  pose proof (pow2_pos k Hk).
  destruct (Z.leb_spec 0 e).
  - rewrite Z.pow_add_r by lia.
    replace (- (z * (2 ^ e * 2 ^ k))) with ((- (z * 2 ^ e)) * 2 ^ k) by ring.
    rewrite Z.div_mul by lia. lia.
  - assert (E : 2 ^ k = 2 ^ (- e) * 2 ^ (e + k))
      by (rewrite <- Z.pow_add_r by lia; f_equal; lia).
    rewrite E. replace (- (z * 2 ^ (e + k))) with ((- z) * 2 ^ (e + k)) by ring.
    pose proof (pow2_pos (e + k) Hek). pose proof (pow2_pos (- e) ltac:(lia)).
    rewrite Z.div_mul_cancel_r by lia. reflexivity.
Qed.

Lemma cdiv_scale (a b c : Z) : 0 < b -> 0 < c -> cdiv (a * c) (b * c) = cdiv a b.
Proof.
  intros Hb Hc. unfold cdiv. replace (- (a * c)) with ((- a) * c) by ring.
  now rewrite Z.div_mul_cancel_r by lia.
Qed.

Lemma cdiv_spec (a b : Z) : 0 < b -> (cdiv a b - 1) * b < a <= cdiv a b * b.
Proof.
  intros Hb. unfold cdiv. pose proof (Z.div_mod (- a) b ltac:(lia)).
  pose proof (Z.mod_pos_bound (- a) b Hb). nia.
Qed.

Lemma cdiv_unique (a b t : Z) : 0 < b -> (t - 1) * b < a <= t * b -> cdiv a b = t.
Proof. intros Hb H. pose proof (cdiv_spec a b Hb). nia. Qed.

Lemma ceil_finite (s : bool) (m : positive) (e : Z) :
  PyFloat.ceil (S754_finite s m e) = Some (ceil_me (cond_Zopp s (Zpos m)) e).
Proof. reflexivity. Qed.

Lemma of_int_spec (p : positive) :
  PyFloat.of_int (Zpos p)
  = (if snd (norm_me (Zpos p) 0) <=? 971
     then Some (S754_finite false (Z.to_pos (fst (norm_me (Zpos p) 0)))
                            (snd (norm_me (Zpos p) 0)))
     else None).
Proof.
  unfold PyFloat.of_int. cbn [binary_normalize].
  change PyFloat.prec with 53. change PyFloat.emax with 1024.
  rewrite binary_round_spec by (pose proof (digits_pos (Zpos p)); lia).
  destruct (snd (norm_me (Zpos p) 0) <=? 971); reflexivity.
Qed.

Lemma mul_spec (a b : positive) (ea eb : Z) :
  -1074 <= digits (Zpos a * Zpos b) + (ea + eb) - 53 ->
  PyFloat.mul (S754_finite false a ea) (S754_finite false b eb)
  = (if snd (round_me (Zpos a * Zpos b) (ea + eb)) <=? 971
     then S754_finite false (Z.to_pos (fst (round_me (Zpos a * Zpos b) (ea + eb))))
                      (snd (round_me (Zpos a * Zpos b) (ea + eb)))
     else S754_infinity false).
Proof.
  intros Hn. unfold PyFloat.mul, SFmul. cbn [xorb].
  change PyFloat.prec with 53. change PyFloat.emax with 1024.
  rewrite binary_round_aux_spec by (rewrite Pos2Z.inj_mul; exact Hn).
  rewrite Pos2Z.inj_mul. reflexivity.
Qed.

(** The difference of two positive numbers in units of the smaller
    exponent. *)
Definition aligned_difference (a ea b eb : Z) : Z :=
  a * 2 ^ (ea - Z.min ea eb) - b * 2 ^ (eb - Z.min ea eb).

Lemma sub_spec (a b : positive) (ea eb : Z) :
  PyFloat.sub (S754_finite false a ea) (S754_finite false b eb)
  = binary_normalize 53 1024 (aligned_difference (Zpos a) ea (Zpos b) eb) (Z.min ea eb) false.
Proof.
  unfold PyFloat.sub, SFsub. cbn [cond_Zopp].
  rewrite !shl_align_value by lia. reflexivity.
Qed.

Lemma binary_normalize_spec (D e : Z) :
  -1074 <= e - 52 ->
  binary_normalize 53 1024 D e false
  = match D with
    | 0 => S754_zero false
    | Zpos _ =>
        if snd (norm_me D e) <=? 971
        then S754_finite false (Z.to_pos (fst (norm_me D e))) (snd (norm_me D e))
        else S754_infinity false
    | Zneg _ =>
        if snd (norm_me (- D) e) <=? 971
        then S754_finite true (Z.to_pos (fst (norm_me (- D) e))) (snd (norm_me (- D) e))
        else S754_infinity true
    end.
Proof.
  intros He. destruct D as [|p|p]; cbn [binary_normalize Z.opp]; [reflexivity| |];
    apply binary_round_spec; pose proof (digits_pos (Zpos p)); lia.
Qed.

(** The rounding of a signed integer. *)
Definition srnd (z : Z) : Z :=
  match z with
  | 0 => 0
  | Zpos _ => rnd z
  | Zneg _ => - rnd (- z)
  end.

(** [int(math.ceil(x))] of what [binary_normalize] makes of [D * 2 ^ e]. *)
Lemma ceil_normalize (D e k : Z) :
  -1074 <= e - 52 -> 0 <= k -> 0 <= e + k ->
  PyFloat.ceil (binary_normalize 53 1024 D e false)
  = (if (D =? 0) || (snd (norm_me (Z.abs D) e) <=? 971)
     then Some (cdiv (srnd (D * 2 ^ (e + k))) (2 ^ k))
     else None).
Proof.
  intros He Hk Hek. rewrite binary_normalize_spec by assumption.
  pose proof (pow2_pos (e + k) Hek) as Hp. pose proof (pow2_pos k Hk) as Hpk.
  assert (Hgen : forall (s : bool) (m : Z), 0 < m ->
            ceil_me (cond_Zopp s (fst (norm_me m e))) (snd (norm_me m e))
            = cdiv (cond_Zopp s (rnd (m * 2 ^ (e + k)))) (2 ^ k)).
  { intros s m Hm. rewrite rnd_scale by lia.
    destruct (norm_me_units m e k Hm Hek) as (Hf & Hs & _ & [Hshift|Hround]).
    - destruct Hshift as (Hd & Hr & -> & ->). rewrite Hr.
      pose proof (digits_pos m Hm). pose proof (pow2_pos (53 - digits m) ltac:(lia)).
      rewrite (ceil_me_units _ _ (k + (53 - digits m))) by lia.
      replace (e - (53 - digits m) + (k + (53 - digits m))) with (e + k) by lia.
      rewrite (Z.pow_add_r 2 k (53 - digits m)) by lia.
      replace (cond_Zopp s (m * 2 ^ (53 - digits m)) * 2 ^ (e + k))
        with (cond_Zopp s (m * 2 ^ (e + k)) * 2 ^ (53 - digits m))
        by (destruct s; cbn [cond_Zopp]; ring).
      now rewrite cdiv_scale by lia.
    - destruct Hround as (Hle & Hv).
      rewrite (ceil_me_units _ _ k) by lia. f_equal. rewrite <- Hv.
      replace (snd (norm_me m e) + k) with ((snd (norm_me m e) - e) + (e + k)) by lia.
      rewrite (Z.pow_add_r 2 (snd (norm_me m e) - e) (e + k)) by lia.
      destruct s; cbn [cond_Zopp]; ring. }
  destruct D as [|p|p]; cbn [Z.eqb orb Z.abs].
  - reflexivity.
  - destruct (snd (norm_me (Zpos p) e) <=? 971); [|reflexivity].
    rewrite ceil_finite. pose proof (norm_me_units (Zpos p) e k ltac:(lia) Hek) as (Hf & _).
    rewrite Z2Pos.id by assumption. rewrite (Hgen false) by lia. cbn [cond_Zopp].
    destruct (Z.pos p * 2 ^ (e + k)) eqn:E; try lia. reflexivity.
  - change (- Z.neg p) with (Z.pos p).
    destruct (snd (norm_me (Zpos p) e) <=? 971); [|reflexivity].
    rewrite ceil_finite. pose proof (norm_me_units (Zpos p) e k ltac:(lia) Hek) as (Hf & _).
    rewrite Z2Pos.id by assumption. rewrite (Hgen true) by lia. cbn [cond_Zopp Z.opp].
    assert (Es : srnd (Z.neg p * 2 ^ (e + k)) = - rnd (Z.pos p * 2 ^ (e + k))).
    { destruct (Z.neg p * 2 ^ (e + k)) eqn:E; try lia. cbn [srnd].
      rewrite <- E. do 2 f_equal. lia. }
    now rewrite Es.
Qed.

(** The mantissas of the doubles nearest to 0.8 and 0.9; their exponent is
    -53. *)
Definition M8 : Z := 7205759403792794.
Definition M9 : Z := 8106479329266893.

Lemma literal_8 : PyFloat.literal_tenths 8 = S754_finite false (Z.to_pos M8) (-53).
Proof. vm_compute. reflexivity. Qed.

Lemma literal_9 : PyFloat.literal_tenths 9 = S754_finite false (Z.to_pos M9) (-53).
Proof. vm_compute. reflexivity. Qed.

(** [_autosplit_example_count] in integer arithmetic: every float is an
    integer multiple of [2 ^ -53], rounded to 53 significant bits. *)
Definition counts_in_integers (N : Z) : example_counts :=
  let x := rnd N in
  let T := cdiv (rnd (x * M8)) (2 ^ 53) in
  let V := cdiv (srnd (rnd (x * M9) - rnd T * 2 ^ 53)) (2 ^ 53) in
  mkCounts T V (N - V - T).

Lemma srnd_scale (z k : Z) : 0 <= k -> srnd (z * 2 ^ k) = srnd z * 2 ^ k.
Proof.
  intros Hk. pose proof (pow2_pos k Hk) as Hp.
  destruct z as [|p|p].
  - reflexivity.
  - cbn [srnd]. destruct (Z.pos p * 2 ^ k) eqn:E; try lia. cbn [srnd].
    rewrite <- E. apply rnd_scale; lia.
  - cbn [srnd]. destruct (Z.neg p * 2 ^ k) eqn:E; try lia. cbn [srnd].
    rewrite <- E. replace (- (Z.neg p * 2 ^ k)) with (Z.pos p * 2 ^ k) by lia.
    rewrite rnd_scale by lia. cbn [Z.opp]. ring.
Qed.

(** The product of a positive float with a literal, in units of
    [2 ^ -105]. *)
Lemma product_units (mN eN M : Z) (x : Z) :
  0 < mN -> 0 < M -> 0 < x -> -52 <= eN -> mN * 2 ^ (eN + 52) = x * 2 ^ 52 ->
  0 <= snd (round_me (mN * M) (eN + -53)) + 105
  /\ 0 < fst (round_me (mN * M) (eN + -53))
  /\ fst (round_me (mN * M) (eN + -53)) * 2 ^ (snd (round_me (mN * M) (eN + -53)) + 105)
     = rnd (x * M) * 2 ^ 52.
Proof.
  intros HmN HM Hx HeN Hval.
  destruct (round_me_units (mN * M) (eN + -53) 105 ltac:(nia) ltac:(lia)) as (H1 & H2 & _ & H4).
  split; [assumption|]. split; [assumption|]. rewrite H4.
  replace (eN + -53 + 105) with (eN + 52) by lia.
  rewrite <- rnd_scale by (try nia; lia). rewrite <- rnd_scale by (try nia; lia).
  f_equal. nia.
Qed.

Lemma digits_le (m k : Z) : 0 < m -> m < 2 ^ k -> digits m <= k.
Proof.
  intros Hm Hlt. pose proof (digits_bounds m Hm) as [Hlo _].
  destruct (Z.leb_spec (digits m) k); [assumption|exfalso].
  assert (0 <= k).
  { destruct (Z.leb_spec 0 k); [assumption|]. rewrite Z.pow_neg_r in Hlt; lia. }
  assert (2 ^ k <= 2 ^ (digits m - 1)) by (apply Z.pow_le_mono_r; lia). lia.
Qed.

Lemma rnd_le_pow (m : Z) : 0 < m -> rnd m <= 2 ^ digits m.
Proof.
  intros Hm. pose proof (digits_bounds m Hm) as [_ Hhi].
  destruct (Z.leb_spec (digits m) 53).
  - rewrite rnd_small by assumption. lia.
  - destruct (rnd_large m Hm ltac:(lia)) as (m1 & -> & Hm1 & _).
    replace (digits m) with (53 + (digits m - 53)) at 2 by lia.
    rewrite Z.pow_add_r by lia.
    pose proof (pow2_pos (digits m - 53) ltac:(lia)). nia.
Qed.

(** The value of [_autosplit_example_count] for a positive total: it is
    [counts_in_integers] unless a float overflows, and no float overflows
    for a total up to [2 ^ 50]. *)
Lemma example_count_value (p : positive) :
  (_autosplit_example_count (Zpos p) = None
   \/ _autosplit_example_count (Zpos p) = Some (counts_in_integers (Zpos p)))
  /\ (Zpos p <= 2 ^ 50 ->
      _autosplit_example_count (Zpos p) = Some (counts_in_integers (Zpos p))).
Proof.
  assert (Hwrap : forall o : option example_counts,
            (Zpos p <= 2 ^ 50 -> o <> None) ->
            (o = None \/ o = Some (counts_in_integers (Zpos p))) ->
            (o = None \/ o = Some (counts_in_integers (Zpos p)))
            /\ (Zpos p <= 2 ^ 50 -> o = Some (counts_in_integers (Zpos p)))).
  { intros o H1 H2. split; [assumption|]. intros Hb. destruct H2 as [->|H2]; [|assumption].
    now destruct (H1 Hb). }
  apply Hwrap; clear Hwrap.
  - (* no overflow up to 2 ^ 50 *)
    intros Hb. unfold _autosplit_example_count. rewrite of_int_spec.
    assert (HrN : rnd (Zpos p) = Zpos p) by (apply rnd_below; lia).
    destruct (norm_me_units (Zpos p) 0 52 ltac:(lia) ltac:(lia)) as (HmN & HeN & HvN & _).
    set (mN := fst (norm_me (Zpos p) 0)) in *. set (eN := snd (norm_me (Zpos p) 0)) in *.
    pose proof (digits_le (Zpos p) 51 ltac:(lia) ltac:(lia)) as HdN.
    destruct (Z.leb_spec eN 971); [|lia].
    specialize (HvN ltac:(lia)). change (0 + 52) with 52 in HvN. rewrite HrN in HvN.
    assert (HmNb : mN <= 2 ^ 102).
    { pose proof (pow2_pos (eN + 52) ltac:(lia)). change (2 ^ 102) with (2 ^ 50 * 2 ^ 52). nia. }
    rewrite literal_8, literal_9.
    assert (Hprod : forall M, 0 < M < 2 ^ 53 ->
              0 < mN * M /\ digits (mN * M) <= 155
              /\ 0 < rnd (Zpos p * M) <= 2 ^ 104).
    { intros M HM. split; [nia|]. split.
      - apply digits_le; [nia|]. change (2 ^ 155) with (2 ^ 102 * 2 ^ 53). nia.
      - split; [apply rnd_positive; nia|].
        pose proof (rnd_le_pow (Zpos p * M) ltac:(nia)) as Hr.
        pose proof (digits_le (Zpos p * M) 104 ltac:(nia)
                      ltac:(change (2 ^ 104) with (2 ^ 51 * 2 ^ 53); nia)) as Hd.
        assert (2 ^ digits (Zpos p * M) <= 2 ^ 104) by (apply Z.pow_le_mono_r; lia). lia. }
    destruct (Hprod M8 ltac:(unfold M8; lia)) as (Hp8 & Hd8 & Hr8).
    destruct (Hprod M9 ltac:(unfold M9; lia)) as (Hp9 & Hd9 & Hr9).
    rewrite mul_spec
      by (rewrite !Z2Pos.id by (try assumption; reflexivity);
          pose proof (digits_pos (mN * M8) Hp8); lia).
    rewrite (Z2Pos.id mN) by assumption. rewrite (Z2Pos.id M8) by reflexivity.
    destruct (product_units mN eN M8 (Zpos p) HmN ltac:(reflexivity) ltac:(lia) ltac:(lia) HvN)
      as (HeA & HmA & HvA).
    destruct (round_me_units (mN * M8) (eN + -53) 105 Hp8 ltac:(lia)) as (_ & _ & HbA & _).
    set (mA := fst (round_me (mN * M8) (eN + -53))) in *.
    set (eA := snd (round_me (mN * M8) (eN + -53))) in *.
    destruct (Z.leb_spec eA 971); [|lia].
    rewrite ceil_finite. cbn [cond_Zopp]. rewrite Z2Pos.id by assumption.
    assert (HT : ceil_me mA eA = cdiv (rnd (Zpos p * M8)) (2 ^ 53)).
    { rewrite (ceil_me_units mA eA 105) by lia. rewrite HvA.
      change (2 ^ 105) with (2 ^ 53 * 2 ^ 52). now rewrite cdiv_scale by lia. }
    rewrite HT. set (T := cdiv (rnd (Zpos p * M8)) (2 ^ 53)) in *.
    pose proof (cdiv_spec (rnd (Zpos p * M8)) (2 ^ 53) ltac:(lia)) as Hc. fold T in Hc.
    assert (HTb : 0 < T <= 2 ^ 51) by (change (2 ^ 104) with (2 ^ 51 * 2 ^ 53) in Hr8; nia).
    destruct T as [|pT|pT] eqn:ET; try lia.
    rewrite of_int_spec.
    assert (HrT : rnd (Zpos pT) = Zpos pT) by (apply rnd_below; lia).
    destruct (norm_me_units (Zpos pT) 0 52 ltac:(lia) ltac:(lia)) as (HmT & HeT & HvT & _).
    set (mT := fst (norm_me (Zpos pT) 0)) in *. set (eT := snd (norm_me (Zpos pT) 0)) in *.
    pose proof (digits_le (Zpos pT) 52 ltac:(lia) ltac:(lia)) as HdT.
    destruct (Z.leb_spec eT 971); [|lia].
    specialize (HvT ltac:(lia)). change (0 + 52) with 52 in HvT. rewrite HrT in HvT.
    rewrite mul_spec
      by (rewrite !Z2Pos.id by (try assumption; reflexivity);
          pose proof (digits_pos (mN * M9) Hp9); lia).
    rewrite (Z2Pos.id mN) by assumption. rewrite (Z2Pos.id M9) by reflexivity.
    destruct (product_units mN eN M9 (Zpos p) HmN ltac:(reflexivity) ltac:(lia) ltac:(lia) HvN)
      as (HeB & HmB & HvB).
    destruct (round_me_units (mN * M9) (eN + -53) 105 Hp9 ltac:(lia)) as (_ & _ & HbB & _).
    set (mB := fst (round_me (mN * M9) (eN + -53))) in *.
    set (eB := snd (round_me (mN * M9) (eN + -53))) in *.
    destruct (Z.leb_spec eB 971); [|lia].
    rewrite sub_spec. rewrite !Z2Pos.id by assumption.
    rewrite (ceil_normalize _ _ 105) by lia.
    set (D := aligned_difference mB eB mT eT).
    destruct (Z.eqb_spec D 0) as [E0|E0]; cbn [orb]; [discriminate|].
    assert (HD : D * 2 ^ (Z.min eB eT + 105)
                 = mB * 2 ^ (eB + 105) - (mT * 2 ^ (eT + 52)) * 2 ^ 53).
    { unfold D, aligned_difference. rewrite Z.mul_sub_distr_r.
      rewrite <- !Z.mul_assoc, <- !Z.pow_add_r by lia.
      replace (eB - Z.min eB eT + (Z.min eB eT + 105)) with (eB + 105) by lia.
      replace (eT - Z.min eB eT + (Z.min eB eT + 105)) with (eT + 52 + 53) by lia.
      reflexivity. }
    rewrite HvB, HvT in HD.
    assert (HDb : Z.abs D < 2 ^ 157).
    { pose proof (pow2_pos (Z.min eB eT + 105) ltac:(lia)) as Hpz.
      assert (Z.abs (D * 2 ^ (Z.min eB eT + 105)) < 2 ^ 157).
      { rewrite HD. change (2 ^ 157) with (2 ^ 105 * 2 ^ 52).
        change (2 ^ 104) with (2 ^ 52 * 2 ^ 52) in Hr9.
        change (2 ^ 105) with (2 ^ 53 * 2 ^ 52). lia. }
      rewrite Z.abs_mul in *. rewrite (Z.abs_eq (2 ^ _)) in * by lia. nia. }
    destruct (norm_me_units (Z.abs D) (Z.min eB eT) 105 ltac:(lia) ltac:(lia)) as (_ & HeC & _).
    pose proof (digits_le (Z.abs D) 157 ltac:(lia) HDb).
    destruct (Z.leb_spec (snd (norm_me (Z.abs D) (Z.min eB eT))) 971); [discriminate|lia].
  - (* the value *)
    unfold _autosplit_example_count. rewrite of_int_spec.
    destruct (norm_me_units (Zpos p) 0 52 ltac:(lia) ltac:(lia)) as (HmN & HeN & HvN & _).
    set (mN := fst (norm_me (Zpos p) 0)) in *. set (eN := snd (norm_me (Zpos p) 0)) in *.
    destruct (eN <=? 971); [|left; reflexivity].
    pose proof (rnd_positive (Zpos p) ltac:(lia)) as Hx.
    specialize (HvN ltac:(lia)). change (0 + 52) with 52 in HvN.
    rewrite literal_8, literal_9.
    rewrite mul_spec
      by (rewrite !Z2Pos.id by (try assumption; reflexivity);
          pose proof (digits_pos (mN * M8) ltac:(unfold M8; nia)); lia).
    rewrite (Z2Pos.id mN) by assumption. rewrite (Z2Pos.id M8) by reflexivity.
    destruct (product_units mN eN M8 (rnd (Zpos p)) HmN ltac:(reflexivity) Hx ltac:(lia) HvN)
      as (HeA & HmA & HvA).
    set (mA := fst (round_me (mN * M8) (eN + -53))) in *.
    set (eA := snd (round_me (mN * M8) (eN + -53))) in *.
    destruct (eA <=? 971); [|left; reflexivity].
    rewrite ceil_finite. cbn [cond_Zopp]. rewrite Z2Pos.id by assumption.
    assert (HT : ceil_me mA eA = cdiv (rnd (rnd (Zpos p) * M8)) (2 ^ 53)).
    { rewrite (ceil_me_units mA eA 105) by lia. rewrite HvA.
      change (2 ^ 105) with (2 ^ 53 * 2 ^ 52). now rewrite cdiv_scale by lia. }
    rewrite HT. set (T := cdiv (rnd (rnd (Zpos p) * M8)) (2 ^ 53)) in *.
    assert (HTpos : 0 < T).
    { pose proof (cdiv_spec (rnd (rnd (Zpos p) * M8)) (2 ^ 53) ltac:(lia)) as Hc. fold T in Hc.
      pose proof (rnd_positive (rnd (Zpos p) * M8) ltac:(unfold M8; nia)). nia. }
    destruct T as [|pT|pT] eqn:ET; try lia.
    rewrite of_int_spec.
    destruct (norm_me_units (Zpos pT) 0 52 ltac:(lia) ltac:(lia)) as (HmT & HeT & HvT & _).
    set (mT := fst (norm_me (Zpos pT) 0)) in *. set (eT := snd (norm_me (Zpos pT) 0)) in *.
    destruct (eT <=? 971); [|left; reflexivity].
    specialize (HvT ltac:(lia)). change (0 + 52) with 52 in HvT.
    rewrite mul_spec
      by (rewrite !Z2Pos.id by (try assumption; reflexivity);
          pose proof (digits_pos (mN * M9) ltac:(unfold M9; nia)); lia).
    rewrite (Z2Pos.id mN) by assumption. rewrite (Z2Pos.id M9) by reflexivity.
    destruct (product_units mN eN M9 (rnd (Zpos p)) HmN ltac:(reflexivity) Hx ltac:(lia) HvN)
      as (HeB & HmB & HvB).
    set (mB := fst (round_me (mN * M9) (eN + -53))) in *.
    set (eB := snd (round_me (mN * M9) (eN + -53))) in *.
    destruct (eB <=? 971); [|left; reflexivity].
    rewrite sub_spec. rewrite !Z2Pos.id by assumption.
    rewrite (ceil_normalize _ _ 105) by lia.
    destruct ((aligned_difference mB eB mT eT =? 0)
              || (snd (norm_me (Z.abs (aligned_difference mB eB mT eT)) (Z.min eB eT)) <=? 971));
      [right|left; reflexivity].
    unfold counts_in_integers. fold T. rewrite ET.
    assert (HD : aligned_difference mB eB mT eT * 2 ^ (Z.min eB eT + 105)
                 = (rnd (rnd (Zpos p) * M9) - rnd (Zpos pT) * 2 ^ 53) * 2 ^ 52).
    { unfold aligned_difference. rewrite Z.mul_sub_distr_r.
      rewrite <- !Z.mul_assoc, <- !Z.pow_add_r by lia.
      replace (eB - Z.min eB eT + (Z.min eB eT + 105)) with (eB + 105) by lia.
      replace (eT - Z.min eB eT + (Z.min eB eT + 105)) with ((eT + 52) + 53) by lia.
      rewrite HvB. rewrite (Z.pow_add_r 2 (eT + 52) 53) by lia.
      rewrite Z.mul_assoc, HvT. ring. }
    rewrite HD, srnd_scale by lia.
    change (2 ^ 105) with (2 ^ 53 * 2 ^ 52). rewrite cdiv_scale by lia. reflexivity.
Qed.

(** ** The counts are non-negative and add up *)

Lemma srnd_spec (z : Z) :
  (0 < z -> srnd z = rnd z) /\ (z < 0 -> srnd z = - rnd (- z)) /\ (z = 0 -> srnd z = 0).
Proof. destruct z; cbn [srnd]; repeat split; intros; try lia; reflexivity. Qed.

Lemma cdiv_le (a b t : Z) : 0 < b -> a <= t * b -> cdiv a b <= t.
Proof. intros Hb H. pose proof (cdiv_spec a b Hb). nia. Qed.

Lemma cdiv_ge (a b t : Z) : 0 < b -> (t - 1) * b < a -> t <= cdiv a b.
Proof. intros Hb H. pose proof (cdiv_spec a b Hb). nia. Qed.

Lemma rnd_upto (j : Z) : 0 < j <= 2 ^ 53 -> rnd j = j.
Proof.
  intros Hj. pose proof (rnd_exact j 0 Hj ltac:(lia)) as H.
  change (2 ^ 0) with 1 in H. now rewrite Z.mul_1_r in H.
Qed.

(** The train count is a double: rounding it changes nothing. *)
Lemma train_count_exact (m : Z) :
  0 < m -> rnd (cdiv (rnd m) (2 ^ 53)) = cdiv (rnd m) (2 ^ 53).
Proof.
  intros Hm. pose proof (rnd_positive m Hm) as Hr.
  pose proof (cdiv_spec (rnd m) (2 ^ 53) ltac:(lia)) as Hc.
  destruct (Z.leb_spec (digits m) 53) as [Hd|Hd].
  - apply rnd_upto. rewrite rnd_small in * by assumption.
    pose proof (digits_bounds m Hm) as [_ Hhi].
    assert (2 ^ digits m <= 2 ^ 53) by (apply Z.pow_le_mono_r; lia). nia.
  - destruct (rnd_large m Hm ltac:(lia)) as (m1 & Em & Hm1 & _).
    set (s := digits m - 53) in *.
    destruct (Z.leb_spec 53 s) as [Hs|Hs].
    + assert (Hsplit : 2 ^ s = 2 ^ (s - 53) * 2 ^ 53)
        by (rewrite <- Z.pow_add_r by lia; f_equal; lia).
      assert (Ec : cdiv (rnd m) (2 ^ 53) = m1 * 2 ^ (s - 53)).
      { apply cdiv_unique; [lia|]. rewrite Em, Hsplit.
        pose proof (pow2_pos (s - 53) ltac:(lia)). nia. }
      rewrite Ec. apply rnd_exact; lia.
    + apply rnd_upto. split; [nia|].
      assert (Hsplit : 2 ^ 53 = 2 ^ (53 - s) * 2 ^ s)
        by (rewrite <- Z.pow_add_r by lia; f_equal; lia).
      pose proof (pow2_pos s ltac:(lia)). pose proof (pow2_pos (53 - s) ltac:(lia)).
      rewrite Em, Hsplit, cdiv_scale by lia.
      apply cdiv_le; [lia|]. nia.
Qed.

(** For every positive total the three counts are non-negative and add up
    to the total. *)
Lemma counts_in_integers_nonneg (N : Z) :
  0 < N ->
  nonneg (counts_in_integers N)
  /\ remaining (counts_in_integers N) = N.
Proof.
  intros HN. rewrite remaining_eq. unfold nonneg, counts_in_integers.
  cbn [train_example_count validation_example_count test_example_count].
  pose proof (rnd_positive N HN) as Hx. pose proof (rnd_relative N HN) as Hxr.
  set (x := rnd N) in *.
  assert (Hm8 : 0 < x * M8) by (unfold M8; lia).
  assert (Hm9 : 0 < x * M9) by (unfold M9; lia).
  pose proof (rnd_positive _ Hm8) as HA. pose proof (rnd_relative _ Hm8) as HAr.
  pose proof (rnd_positive _ Hm9) as HB. pose proof (rnd_relative _ Hm9) as HBr.
  rewrite (train_count_exact _ Hm8).
  set (A := rnd (x * M8)) in *. set (B := rnd (x * M9)) in *.
  pose proof (cdiv_spec A (2 ^ 53) ltac:(lia)) as HT.
  set (T := cdiv A (2 ^ 53)) in *.
  set (D := B - T * 2 ^ 53).
  destruct (srnd_spec D) as (Hpos & Hneg & Hzero).
  assert (HAB : A <= B).
  { unfold M8, M9 in *. change (2 ^ 53) with 9007199254740992 in *. lia. }
  assert (HTN : T <= N).
  { apply cdiv_le; [lia|]. unfold M8 in *. change (2 ^ 53) with 9007199254740992 in *. lia. }
  assert (HT0 : 0 < T) by nia.
  assert (HC : - 2 ^ 53 < srnd D <= (N - T) * 2 ^ 53).
  { destruct (Z.lt_trichotomy D 0) as [Hd|[Hd|Hd]].
    - rewrite (Hneg Hd). rewrite rnd_below by (unfold D in *; lia).
      unfold D in *. change (2 ^ 53) with 9007199254740992 in *. lia.
    - rewrite (Hzero Hd). change (2 ^ 53) with 9007199254740992 in *. lia.
    - rewrite (Hpos Hd). pose proof (rnd_positive D Hd). pose proof (rnd_relative D Hd) as HDr.
      unfold D in *. unfold M9 in *. change (2 ^ 53) with 9007199254740992 in *. lia. }
  pose proof (cdiv_ge (srnd D) (2 ^ 53) 0 ltac:(lia) ltac:(lia)).
  pose proof (cdiv_le (srnd D) (2 ^ 53) (N - T) ltac:(lia) ltac:(lia)).
  lia.
Qed.

(** ** Up to 2 ^ 50 the counts are those of exact arithmetic *)

(** The rounding policy in exact arithmetic: [train = ceil(0.8 N)],
    [validation = ceil(0.9 N - train)], [test = N - train - validation]. *)
Definition exact_counts (N : Z) : example_counts :=
  let train := cdiv (8 * N) 10 in
  let validation := cdiv (9 * N - 10 * train) 10 in
  mkCounts train validation (N - train - validation).

(** An integer just above a double is rounded down to it. *)
Lemma rnd_down (m c r : Z) :
  0 < m -> 0 < digits m - 53 ->
  m = c * 2 ^ (digits m - 53) + r -> 0 <= r < 2 ^ (digits m - 53 - 1) ->
  rnd m = c * 2 ^ (digits m - 53).
Proof.
  intros Hm Hs Em Hr. unfold rnd. set (s := digits m - 53) in *.
  destruct (Z.leb_spec s 0); [lia|].
  pose proof (pow2_pos s ltac:(lia)) as Hp.
  assert (Hh : 2 ^ s = 2 * 2 ^ (s - 1)).
  { rewrite <- Z.pow_succ_r by lia. f_equal. lia. }
  assert (Hq : m / 2 ^ s = c) by (symmetry; apply (Z.div_unique m (2 ^ s) c r); lia).
  assert (Hmod : m mod 2 ^ s = r) by (symmetry; apply (Z.mod_unique m (2 ^ s) c r); lia).
  rewrite Hq, Hmod. unfold round_up. destruct (Z.ltb_spec r (2 ^ (s - 1))); lia.
Qed.

Lemma rnd_abs_error (m k : Z) :
  0 < m -> 0 <= k -> m < 2 ^ (53 + k) -> 2 * Z.abs (rnd m - m) <= 2 ^ k.
Proof.
  intros Hm Hk Hlt. pose proof (pow2_pos k Hk).
  destruct (Z.leb_spec (digits m) 53).
  - rewrite rnd_small by assumption. lia.
  - destruct (rnd_large m Hm ltac:(lia)) as (_ & _ & _ & Herr & _).
    pose proof (digits_le m (53 + k) Hm Hlt).
    assert (2 ^ (digits m - 53) <= 2 ^ k) by (apply Z.pow_le_mono_r; lia). lia.
Qed.


(** The ceiling of a rounded product [m] with [10 m = aN 2^53 + eN]: the
    rounding does not cross an integer when [eN] is small. *)
Lemma rounded_product_ceiling (m aN eN : Z) :
  0 < m < 2 ^ 103 ->
  10 * m = aN * 2 ^ 53 + eN ->
  0 < eN -> 2 * eN <= aN ->
  eN + 5 * 2 ^ 50 < (10 - aN mod 10) * 2 ^ 53 ->
  (cdiv aN 10 - 1) * 2 ^ 53 < rnd m <= cdiv aN 10 * 2 ^ 53.
Proof.
  intros Hm E He Hea Hdist.
  pose proof (cdiv_spec aN 10 ltac:(lia)) as Hk. set (k := cdiv aN 10) in *.
  pose proof (rnd_abs_error m 50 ltac:(lia) ltac:(lia) ltac:(apply Hm)) as Herr.
  destruct (Z.eq_dec aN (k * 10)) as [Heq|Hne].
  - assert (Hk1 : 1 <= k) by lia.
    pose proof (digits_bounds m ltac:(lia)) as [_ Hhi].
    pose proof (digits_le m 103 ltac:(lia) ltac:(lia)) as Hd'.
    assert (Hd : 53 < digits m).
    { destruct (Z.ltb_spec 53 (digits m)); [assumption|exfalso].
      assert (2 ^ digits m <= 2 ^ 53) by (apply Z.pow_le_mono_r; lia).
      change (2 ^ 53) with 9007199254740992 in *. lia. }
    remember (digits m - 53) as s eqn:Es.
    assert (Hs : 0 < s <= 50) by lia.
    pose proof (pow2_pos s ltac:(lia)) as Hps.
    assert (Hsplit : 2 ^ 53 = 2 ^ (53 - s) * 2 ^ s)
      by (rewrite <- Z.pow_add_r by lia; f_equal; lia).
    assert (Hh : 2 ^ s = 2 * 2 ^ (s - 1)).
    { rewrite <- Z.pow_succ_r by lia. f_equal. lia. }
    replace (digits m) with (s + 53) in Hhi by lia.
    rewrite Z.pow_add_r in Hhi by lia.
    assert (Hrd : rnd m = k * 2 ^ 53).
    { rewrite Hsplit, Z.mul_assoc.
      replace s with (digits m - 53) at 2 by lia.
      apply (rnd_down m (k * 2 ^ (53 - s)) (m - k * 2 ^ 53)).
      - lia.
      - lia.
      - rewrite <- Es, <- Z.mul_assoc, <- Hsplit. lia.
      - rewrite <- Es. change (2 ^ 53) with 9007199254740992 in *. lia. }
    rewrite Hrd. change (2 ^ 53) with 9007199254740992. lia.
  - assert (Hd : aN = 10 * (k - 1) + aN mod 10 /\ 1 <= aN mod 10 <= 9).
    { clear - Hk Hne. clearbody k.
      pose proof (Z.mod_pos_bound aN 10 ltac:(lia)).
      pose proof (Z.div_mod aN 10 ltac:(lia)). lia. }
    destruct Hd as [Ed Hd]. set (d := aN mod 10) in *. clearbody d.
    assert (Hup : 10 * rnd m <= 10 * m + 5 * 2 ^ 50) by lia.
    assert (Hdn : 10 * m - 5 * 2 ^ 50 <= 10 * rnd m) by lia.
    change (2 ^ 50) with 1125899906842624 in *.
    change (2 ^ 53) with 9007199254740992 in *. lia.
Qed.

(** The subtraction of the train count from the rounded product is exact. *)
Lemma rounded_difference_exact (m t : Z) :
  0 < m < 2 ^ 103 -> 0 <= t -> - 2 ^ 53 < rnd m - t * 2 ^ 53 ->
  srnd (rnd m - t * 2 ^ 53) = rnd m - t * 2 ^ 53.
Proof.
  intros Hm Ht Hlo. set (D := rnd m - t * 2 ^ 53) in *.
  destruct (srnd_spec D) as (Hpos & Hneg & Hzero).
  destruct (Z.lt_trichotomy D 0) as [Hd|[Hd|Hd]].
  - rewrite (Hneg Hd), rnd_below by lia. lia.
  - rewrite (Hzero Hd). lia.
  - rewrite (Hpos Hd).
    destruct (Z.leb_spec (digits m) 53) as [Hs|Hs].
    + apply rnd_below; [assumption|]. unfold D in *. rewrite rnd_small in * by assumption.
      pose proof (digits_bounds m ltac:(lia)) as [_ Hhi].
      assert (2 ^ digits m <= 2 ^ 53) by (apply Z.pow_le_mono_r; lia).
      pose proof (pow2_pos 53 ltac:(lia)). nia.
    + destruct (rnd_large m ltac:(lia) ltac:(lia)) as (m1 & Em & Hm1 & _).
      pose proof (digits_le m 103 ltac:(lia) ltac:(lia)) as Hd'.
      remember (digits m - 53) as s eqn:Es.
      assert (Hsplit : 2 ^ 53 = 2 ^ (53 - s) * 2 ^ s)
        by (rewrite <- Z.pow_add_r by lia; f_equal; lia).
      pose proof (pow2_pos s ltac:(lia)) as Hps.
      pose proof (pow2_pos (53 - s) ltac:(lia)) as Hps'.
      assert (ED : D = (m1 - t * 2 ^ (53 - s)) * 2 ^ s).
      { unfold D. rewrite Em, Hsplit at 1. ring. }
      rewrite ED. apply rnd_exact; [|lia].
      split.
      * rewrite ED in Hd. apply Z.mul_pos_cancel_r in Hd; assumption.
      * assert (0 <= t * 2 ^ (53 - s)) by (apply Z.mul_nonneg_nonneg; lia). lia.
Qed.

Lemma counts_in_integers_exact (N : Z) :
  0 < N <= 2 ^ 50 -> counts_in_integers N = exact_counts N.
Proof.
  intros HN. unfold counts_in_integers, exact_counts.
  assert (HN' : 0 < N <= 1125899906842624) by exact HN.
  rewrite (rnd_below N) by (change (2 ^ 53) with 9007199254740992; lia).
  pose proof (cdiv_spec (8 * N) 10 ltac:(lia)) as Hk8.
  pose proof (cdiv_spec (9 * N) 10 ltac:(lia)) as Hk9.
  set (k8 := cdiv (8 * N) 10) in *. set (k9 := cdiv (9 * N) 10) in *.
  assert (Hm8 : 0 < N * M8 < 2 ^ 103).
  { unfold M8. change (2 ^ 103) with 10141204801825835211973625643008. lia. }
  assert (Hm9 : 0 < N * M9 < 2 ^ 103).
  { unfold M9. change (2 ^ 103) with 10141204801825835211973625643008. lia. }
  assert (Hmod8 : (8 * N) mod 10 <= 8).
  { pose proof (Z.mod_pos_bound (8 * N) 10 ltac:(lia)).
    pose proof (Z.div_mod (8 * N) 10 ltac:(lia)). lia. }
  assert (Hmod9 : (9 * N) mod 10 <= 9).
  { pose proof (Z.mod_pos_bound (9 * N) 10 ltac:(lia)). lia. }
  assert (HA : (k8 - 1) * 2 ^ 53 < rnd (N * M8) <= k8 * 2 ^ 53).
  { apply (rounded_product_ceiling (N * M8) (8 * N) (4 * N)); try lia;
      unfold M8; change (2 ^ 50) with 1125899906842624;
      change (2 ^ 53) with 9007199254740992;
      set (d := (8 * N) mod 10) in *; clearbody d; lia. }
  assert (HB : (k9 - 1) * 2 ^ 53 < rnd (N * M9) <= k9 * 2 ^ 53).
  { apply (rounded_product_ceiling (N * M9) (9 * N) (2 * N)); try lia;
      unfold M9; change (2 ^ 50) with 1125899906842624;
      change (2 ^ 53) with 9007199254740992;
      set (d := (9 * N) mod 10) in *; clearbody d; lia. }
  assert (ET : cdiv (rnd (N * M8)) (2 ^ 53) = k8) by (apply cdiv_unique; [lia|exact HA]).
  rewrite ET.
  assert (Hk : 1 <= k8 <= N /\ k8 <= k9 <= N) by lia.
  rewrite (rnd_below k8) by (change (2 ^ 53) with 9007199254740992; lia).
  rewrite rounded_difference_exact;
    [|assumption|lia|change (2 ^ 53) with 9007199254740992 in *; lia].
  assert (EV : cdiv (rnd (N * M9) - k8 * 2 ^ 53) (2 ^ 53) = k9 - k8).
  { apply cdiv_unique; [lia|]. change (2 ^ 53) with 9007199254740992 in *. lia. }
  assert (EV' : cdiv (9 * N - 10 * k8) 10 = k9 - k8) by (apply cdiv_unique; lia).
  rewrite EV, EV'. f_equal. lia.
Qed.

(** ** The example counts *)

(** Whatever [_autosplit_example_count] returns for a total that is not
    negative is a triple of non-negative counts with the total as sum. *)
Lemma example_count_sound (N : Z) (counts : example_counts) :
  0 <= N -> _autosplit_example_count N = Some counts ->
  nonneg counts /\ remaining counts = N.
Proof.
  intros HN Hc. destruct N as [|p|p]; [| |lia].
  - vm_compute in Hc. injection Hc as <-. unfold nonneg. rewrite remaining_eq. cbn. lia.
  - destruct (example_count_value p) as [[Hv|Hv] _]; rewrite Hv in Hc; [discriminate|].
    injection Hc as <-. apply counts_in_integers_nonneg. lia.
Qed.

(** Up to [2 ^ 50] the floats lose nothing. *)
Lemma example_count_exact (N : Z) :
  0 <= N <= 2 ^ 50 -> _autosplit_example_count N = Some (exact_counts N).
Proof.
  intros HN. destruct N as [|p|p]; [reflexivity| |lia].
  destruct (example_count_value p) as [_ Hv]. rewrite Hv by lia.
  f_equal. apply counts_in_integers_exact. lia.
Qed.

(** C2.  For every total [N] from 0 to [2 ^ 50] the function returns the
    counts of the rounding policy in exact arithmetic, computed in
    sequence: train is the ceiling of [8 N / 10], validation the ceiling of
    [(9 N - 10 train) / 10], test is [N - train - validation]; none is
    negative, they add up to [N], and for [N = 1] they are 1, 0 and 0. *)
Theorem C2_counts_up_to_2_50 (N : Z) :
  0 <= N <= 2 ^ 50 ->
  _autosplit_example_count N = Some (exact_counts N)
  /\ nonneg (exact_counts N)
  /\ remaining (exact_counts N) = N
  /\ _autosplit_example_count 1 = Some (mkCounts 1 0 0).
Proof.
  intros HN. pose proof (example_count_exact N HN) as He.
  destruct (example_count_sound N _ ltac:(lia) He) as [Hn Hr].
  split; [exact He|]. split; [exact Hn|]. split; [exact Hr|]. reflexivity.
Qed.

(** C2 at [N = 10]: 8, 1 and 1. *)
Lemma C2_counts_up_to_2_50_witness :
  _autosplit_example_count 10 = Some (exact_counts 10)
  /\ nonneg (exact_counts 10)
  /\ remaining (exact_counts 10) = 10
  /\ _autosplit_example_count 1 = Some (mkCounts 1 0 0).
Proof.
  apply (C2_counts_up_to_2_50 10). split; [lia|]. vm_compute. discriminate.
Defined.

(** C2 does not hold for every total.  At 2502701574162349 the product with
    0.9 is rounded down to an integer, so that validation is 234 where the
    policy in exact arithmetic gives 235; and at [2 ^ 1024] the conversion
    of the total to a float raises [OverflowError]. *)
Lemma C2_floats_round_large_totals :
  _autosplit_example_count 2502701574162349
  = Some (mkCounts 2002161259329880 250270157416234 250270157416235)
  /\ exact_counts 2502701574162349
     = mkCounts 2002161259329880 250270157416235 250270157416234
  /\ _autosplit_example_count (2 ^ 1024) = None.
Proof. repeat split; vm_compute; reflexivity. Qed.

(** ** The split as a whole *)

Lemma count_use_total (uses : list MLUse) :
  ~ In UNASSIGNED uses ->
  count_use TRAIN uses + count_use VALIDATION uses + count_use TEST uses
  = Z.of_nat (List.length uses).
Proof.
  unfold count_use. induction uses as [|u uses IH]; intros Hun; [reflexivity|].
  assert (Hu : u <> UNASSIGNED) by (intros ->; apply Hun; now left).
  assert (Hrest : ~ In UNASSIGNED uses) by (intros Hin; apply Hun; now right).
  specialize (IH Hrest). cbn [filter List.length].
  destruct u; [contradiction| | |];
    cbn [MLUse_eqb MLUse_value Z.eqb Pos.eqb List.length]; rewrite !Nat2Z.inj_succ; lia.
Qed.

(** C1.  Whenever [_autosplit_example_count(N)] returns counts for a total
    [N >= 0], [autosplit] over exactly [N] pairs returns, whatever the
    generator yields, and each of the three exporters is initialised, fed
    the pairs assigned to its class in order, and finalised; the number of
    pairs of each class is the computed count, and every count is used up.
    For [N = 100] the computed counts are 80, 10 and 10. *)
Theorem C1_split_counts_are_exact {X} `{ParallelPhraseExporter X}
    (N : Z) (counts : example_counts) (r : random_state) (e : exporters X)
    (pairs : list (text * text)) :
  0 <= N -> _autosplit_example_count N = Some counts ->
  Z.of_nat (List.length pairs) = N ->
  (exists uses self' e',
      autosplit N r e pairs = Some (Return uses (self', e'))
      /\ List.length uses = List.length pairs
      /\ train_exporter e'
         = finalize (feed_list (initialize (train_exporter e)) (assigned TRAIN uses pairs))
      /\ validation_exporter e'
         = finalize (feed_list (initialize (validation_exporter e))
                               (assigned VALIDATION uses pairs))
      /\ test_exporter e'
         = finalize (feed_list (initialize (test_exporter e)) (assigned TEST uses pairs))
      /\ Z.of_nat (List.length (assigned TRAIN uses pairs)) = train_example_count counts
      /\ Z.of_nat (List.length (assigned VALIDATION uses pairs))
         = validation_example_count counts
      /\ Z.of_nat (List.length (assigned TEST uses pairs)) = test_example_count counts
      /\ _example_counts self' = mkCounts 0 0 0)
  /\ _autosplit_example_count 100 = Some (mkCounts 80 10 10).
Proof.
  intros HN Hc Hlen. split; [|reflexivity].
  destruct (example_count_sound N counts HN Hc) as [Hn Hr].
  destruct (autosplit_pairs_run pairs (mkAutoSplit counts r) (exporters_map initialize e))
    as (uses & self' & e' & Hrun & Hl & Hun & Hnn & Ht & Hv & Hs & Hx1 & Hx2 & Hx3).
  { exact Hn. }
  { cbn [_example_counts]. lia. }
  cbn [_example_counts] in Ht, Hv, Hs.
  pose proof (count_use_total uses Hun) as Htot. rewrite remaining_eq in Hr.
  destruct Hnn as (Hn1 & Hn2 & Hn3).
  assert (Hz : count_use TRAIN uses = train_example_count counts
               /\ count_use VALIDATION uses = validation_example_count counts
               /\ count_use TEST uses = test_example_count counts) by lia.
  destruct Hz as (Hz1 & Hz2 & Hz3).
  exists uses, self', (exporters_map finalize e').
  unfold autosplit. rewrite Hc, Hrun.
  split; [reflexivity|]. split; [exact Hl|].
  cbn [exporters_map train_exporter validation_exporter test_exporter] in *.
  rewrite Hx1, Hx2, Hx3. repeat (split; [reflexivity|]).
  rewrite !assigned_length by (symmetry; exact Hl).
  repeat (split; [assumption|]).
  destruct (_example_counts self') as [a b c]. cbn in *. f_equal; lia.
Qed.

(** C1 over a hundred copies of one pair, TSV exporters and a generator
    that always yields 7. *)
Lemma C1_split_counts_are_exact_witness :
  (exists uses self' e',
      autosplit 100 (mkRandom (fun _ => 7) 0)
                (mkExporters (TsvExporter_init (txt "en") (txt "zh") [])
                             (TsvExporter_init (txt "en") (txt "zh") [])
                             (TsvExporter_init (txt "en") (txt "zh") []))
                (repeat (txt "a", txt "b") 100)
      = Some (Return uses (self', e'))
      /\ List.length uses = List.length (repeat (txt "a", txt "b") 100)
      /\ train_exporter e'
         = finalize (feed_list (initialize (TsvExporter_init (txt "en") (txt "zh") []))
                               (assigned TRAIN uses (repeat (txt "a", txt "b") 100)))
      /\ validation_exporter e'
         = finalize (feed_list (initialize (TsvExporter_init (txt "en") (txt "zh") []))
                               (assigned VALIDATION uses (repeat (txt "a", txt "b") 100)))
      /\ test_exporter e'
         = finalize (feed_list (initialize (TsvExporter_init (txt "en") (txt "zh") []))
                               (assigned TEST uses (repeat (txt "a", txt "b") 100)))
      /\ Z.of_nat (List.length (assigned TRAIN uses (repeat (txt "a", txt "b") 100))) = 80
      /\ Z.of_nat (List.length (assigned VALIDATION uses (repeat (txt "a", txt "b") 100))) = 10
      /\ Z.of_nat (List.length (assigned TEST uses (repeat (txt "a", txt "b") 100))) = 10
      /\ _example_counts self' = mkCounts 0 0 0)
  /\ _autosplit_example_count 100 = Some (mkCounts 80 10 10).
Proof.
  apply (C1_split_counts_are_exact 100 (mkCounts 80 10 10)).
  - lia.
  - vm_compute. reflexivity.
  - reflexivity.
Defined.

(** ** Round trips: phrases that survive them *)

(** A character that both formats carry unchanged: printable ASCII other
    than the five characters that XML reserves. *)
Definition plain_char (c : ascii) : bool :=
  let n := nat_of_ascii c in
  (Nat.leb 32 n && Nat.leb n 126
   && negb (Ascii.eqb c "<" || Ascii.eqb c ">" || Ascii.eqb c "&"
            || Ascii.eqb c dquote || Ascii.eqb c "'"))%bool.

(** A phrase that both formats carry unchanged: not empty, of plain
    characters, with no space at either end. *)
Definition phrase_ok (s : text) : bool :=
  match s with
  | [] => false
  | c :: _ => (forallb plain_char s && negb (is_space c) && negb (is_space (last s c)))%bool
  end.

(** Language codes that a TMX file can carry: plain characters, and two
    locales that are not empty and differ. *)
Definition codes_ok (src_code dst_code : text) : bool :=
  (forallb plain_char src_code && forallb plain_char dst_code
   && negb (falsy (_parse_locale src_code)) && negb (falsy (_parse_locale dst_code))
   && negb (_is_same_language (_parse_locale dst_code) (_parse_locale src_code)))%bool.

Lemma plain_char_not (c : ascii) :
  plain_char c = true ->
  c <> tab /\ c <> nl /\ c <> cr /\ c <> "<"%char /\ c <> ">"%char /\ c <> "&"%char
  /\ c <> dquote.
Proof.
  intros H. repeat split; intros ->; vm_compute in H; discriminate.
Qed.

Lemma plain_text_without (s : text) (c : ascii) :
  forallb plain_char s = true -> plain_char c = false -> ~ In c s.
Proof.
  intros Hs Hc Hin. rewrite forallb_forall in Hs. apply Hs in Hin. congruence.
Qed.

Lemma rev_last (s : text) (d : ascii) :
  s <> [] -> rev s = last s d :: rev (removelast s).
Proof.
  intros Hs. rewrite (app_removelast_last d Hs) at 1.
  now rewrite rev_app_distr.
Qed.

(** [strip] leaves a text with no white space at its ends as it is. *)
Lemma strip_id (c : ascii) (s : text) :
  is_space c = false -> is_space (last (c :: s) c) = false -> strip (c :: s) = c :: s.
Proof.
  intros Hc Hl. unfold strip, lstrip_ws, rstrip_ws. cbn [drop_while]. rewrite Hc.
  rewrite (rev_last (c :: s) c) by discriminate. cbn [drop_while]. rewrite Hl.
  rewrite <- (rev_last (c :: s) c) by discriminate. apply rev_involutive.
Qed.

Lemma phrase_ok_facts (s : text) :
  phrase_ok s = true ->
  s <> [] /\ forallb plain_char s = true /\ strip s = s
  /\ ~ In tab s /\ ~ In nl s /\ ~ In "<"%char s /\ ~ In "&"%char s
  /\ ~ ends_with_char cr s /\ ~ ends_with_char nl s.
Proof.
  destruct s as [|c s]; [discriminate|]. cbn [phrase_ok].
  rewrite !andb_true_iff, !negb_true_iff. intros [[Hp Hc] Hl].
  assert (Hno : forall d, plain_char d = false -> ~ In d (c :: s))
    by (intros d; now apply plain_text_without).
  assert (Hend : forall d, plain_char d = false -> ~ ends_with_char d (c :: s)).
  { intros d Hd [b Hb]. apply (Hno d Hd). rewrite Hb. apply in_or_app. right. now left. }
  split; [discriminate|]. split; [exact Hp|]. split; [now apply strip_id|].
  repeat split; (apply Hno || apply Hend); reflexivity.
Qed.

(** ** Round trips: a parser and the pairs it yields *)

(** [yields p prs p']: iterating the parser [p] gives the pairs [prs] and
    ends normally, leaving the parser as [p']. *)
Inductive yields {P} `{PhraseParser P} : P -> list (text * text) -> P -> Prop :=
| yields_end (p p' : P) :
    next_parallel_phrase_pair p = Some (Raises ParseFinished p') -> yields p [] p'
| yields_pair (p p1 p' : P) (pr : text * text) (prs : list (text * text)) :
    next_parallel_phrase_pair p = Some (Return pr p1) ->
    yields p1 prs p' -> yields p (pr :: prs) p'.

Lemma yields_pairs_of {P} `{PhraseParser P} (p p' : P) (prs : list (text * text)) :
  yields p prs p' ->
  forall fuel, (List.length prs < fuel)%nat -> pairs_of fuel p = Some (Return prs p').
Proof.
  induction 1 as [p p' Hn|p p1 p' pr prs Hn _ IH]; intros fuel Hf;
    (destruct fuel as [|fuel]; [cbn in Hf; lia|]); cbn [pairs_of]; rewrite Hn.
  - reflexivity.
  - rewrite IH by (cbn in Hf; lia). reflexivity.
Qed.

Lemma yields_feed_all {P X} `{PhraseParser P} `{ParallelPhraseExporter X}
    (p p' : P) (prs : list (text * text)) :
  yields p prs p' ->
  forall fuel (x : X) n, (List.length prs < fuel)%nat ->
    feed_all fuel p x n
    = Some (Return (n + Z.of_nat (List.length prs)) (p', feed_list x prs)).
Proof.
  induction 1 as [p p' Hn|p p1 p' [src dst] prs Hn _ IH]; intros fuel x n Hf;
    (destruct fuel as [|fuel]; [cbn in Hf; lia|]); cbn [feed_all]; rewrite Hn.
  - cbn. now rewrite Z.add_0_r.
  - rewrite IH by (cbn in Hf; lia). cbn [List.length feed_list fold_left fst snd].
    rewrite Nat2Z.inj_succ. do 2 f_equal. lia.
Qed.

(** [convert] over a parser that yields [prs], when the text still to be
    read is at least as long as the number of pairs. *)
Lemma yields_convert {P X} `{PhraseParser P} `{ParallelPhraseExporter X}
    (p p' : P) (x : X) (prs : list (text * text)) :
  yields p prs p' -> (List.length prs <= unread p)%nat ->
  convert p x = Some (Return (Z.of_nat (List.length prs)) (p', export_pairs x prs)).
Proof.
  intros Hy Hlen. unfold convert.
  rewrite (yields_feed_all p p' prs Hy) by lia. reflexivity.
Qed.

(** ** Round trips: TSV *)

Definition tsv_line (pr : text * text) : text := fst pr ++ tab :: snd pr ++ [nl].

Lemma tsv_feed_list (prs : list (text * text)) :
  forall x : TsvExporter,
    getvalue (feed_list x prs) = getvalue x ++ List.concat (map tsv_line prs).
Proof.
  induction prs as [|[src dst] prs IH]; intros x.
  - cbn. now rewrite app_nil_r.
  - change (feed_list x ((src, dst) :: prs))
      with (feed_list (TsvExporter_feed_parallel_phrase_pair x src dst) prs).
    rewrite IH. cbn [getvalue TsvExporter_exporter map List.concat].
    unfold TsvExporter_feed_parallel_phrase_pair, write, tsv_line.
    cbn [_tsvx_stream join fst snd app]. now rewrite <- !app_assoc.
Qed.

(** One line of a TSV text read back. *)
Lemma tsv_next_line (base : ParallelPhraseParser) (src_lang dst_lang s d rest : text) :
  ~ In tab s -> ~ In tab d -> ~ In nl s -> ~ In nl d ->
  ~ ends_with_char cr (s ++ tab :: d) ->
  len s + len d + 2 < _SENTENCE_BUFFER_SIZE ->
  TsvParser_next_parallel_phrase_pair
    (mkTsvParser base src_lang dst_lang (tsv_line (s, d) ++ rest))
  = Return (s, d)
           (mkTsvParser (mkBase (FILE_FORMAT base) (_next_read_line_index base)
                                (_next_read_line_index base + 1) (_skipped_phrases base))
                        src_lang dst_lang rest).
Proof.
  intros Hts Htd Hns Hnd Hcr Hlen.
  assert (Hnl : ~ In nl (s ++ tab :: d)).
  { intros Hin. apply in_app_or in Hin. destruct Hin as [Hin|[Hin|Hin]]; try tauto.
    discriminate Hin. }
  assert (Hl : len (s ++ tab :: d) < _SENTENCE_BUFFER_SIZE).
  { unfold len in *. rewrite length_app. cbn [List.length]. lia. }
  assert (Hn : ~ ends_with_char nl (s ++ tab :: d)).
  { intros [b Hb]. apply Hnl. rewrite Hb. apply in_or_app. right. now left. }
  unfold TsvParser_next_parallel_phrase_pair, readline, tsv_line.
  cbn [tsv_base _tsv_stream fst snd].
  replace ((s ++ tab :: d ++ [nl]) ++ rest) with ((s ++ tab :: d) ++ nl :: rest)
    by (rewrite <- !app_assoc; cbn; now rewrite <- app_assoc).
  rewrite (stream_readline_line _ rest _ Hl Hnl).
  rewrite endswith_app. cbn [orb andb].
  destruct (rstrip_line (s ++ tab :: d) Hn Hcr) as (_ & -> & _).
  replace (falsy ((s ++ tab :: d) ++ [nl])) with false by (now destruct s).
  replace (len ((s ++ tab :: d) ++ [nl]) =? _SENTENCE_BUFFER_SIZE) with false.
  2:{ symmetry. apply Z.eqb_neq. unfold len in *. rewrite !length_app. cbn [List.length]. lia. }
  rewrite (split_two tab s d Hts Htd). reflexivity.
Qed.

Lemma tsv_end (base : ParallelPhraseParser) (src_lang dst_lang : text) :
  TsvParser_next_parallel_phrase_pair (mkTsvParser base src_lang dst_lang [])
  = Raises ParseFinished
           (mkTsvParser (mkBase (FILE_FORMAT base) (_next_read_line_index base)
                                (_next_read_line_index base) (_skipped_phrases base))
                        src_lang dst_lang []).
Proof. reflexivity. Qed.

(** A pair that a TSV file carries unchanged. *)
Definition tsv_pair_ok (pr : text * text) : Prop :=
  phrase_ok (fst pr) = true /\ phrase_ok (snd pr) = true
  /\ len (fst pr) + len (snd pr) + 2 < _SENTENCE_BUFFER_SIZE.

(** The parser over the lines of the pairs yields the pairs. *)
Lemma tsv_yields (src_lang dst_lang : text) (prs : list (text * text)) :
  Forall tsv_pair_ok prs ->
  forall base, exists final,
    yields (mkTsvParser base src_lang dst_lang (List.concat (map tsv_line prs))) prs final.
Proof.
  induction 1 as [|[s d] prs (Hs & Hd & Hlen) _ IH]; intros base.
  - eexists. apply yields_end. cbn. reflexivity.
  - cbn [fst snd] in *.
    destruct (phrase_ok_facts s Hs) as (_ & _ & _ & Hts & Hns & _).
    destruct (phrase_ok_facts d Hd) as (Hd0 & _ & _ & Htd & Hnd & _ & _ & Hcr & _).
    destruct (IH (mkBase (FILE_FORMAT base) (_next_read_line_index base)
                         (_next_read_line_index base + 1) (_skipped_phrases base)))
      as [final Hy].
    exists final. eapply yields_pair; [|exact Hy].
    cbn [next_parallel_phrase_pair TsvParser_parser map List.concat]. f_equal.
    apply tsv_next_line; try assumption.
    intros [b Hb]. apply Hcr.
    destruct (exists_last Hd0) as (d' & e & ->).
    change (s ++ tab :: d' ++ [e]) with (s ++ (tab :: d') ++ [e]) in Hb.
    rewrite app_assoc in Hb. apply app_inj_tail in Hb. destruct Hb as [_ ->]. now exists d'.
Qed.

(** ** Round trips: the tokens of the pull parser *)

Lemma break_app (c : ascii) (a b : text) :
  ~ In c a -> Lxml.break c (a ++ c :: b) = Some (a, b).
Proof.
  intros Ha. induction a as [|d a IH]; cbn [app Lxml.break].
  - now rewrite Ascii.eqb_refl.
  - destruct (Ascii.eqb_spec d c) as [->|Hne]; [exfalso; apply Ha; now left|].
    rewrite IH; [reflexivity|]. intros H; apply Ha; now right.
Qed.

Lemma break_none (c : ascii) (a : text) : ~ In c a -> Lxml.break c a = None.
Proof.
  intros Ha. induction a as [|d a IH]; cbn [Lxml.break]; [reflexivity|].
  destruct (Ascii.eqb_spec d c) as [->|Hne]; [exfalso; apply Ha; now left|].
  rewrite IH; [reflexivity|]. intros H; apply Ha; now right.
Qed.

Lemma break_some (c : ascii) (s a b : text) :
  Lxml.break c s = Some (a, b) -> s = a ++ c :: b.
Proof.
  revert a b. induction s as [|d s IH]; intros a b; cbn [Lxml.break]; [discriminate|].
  destruct (Ascii.eqb_spec d c) as [->|Hne]; [now intros [= <- <-]|].
  destruct (Lxml.break c s) as [[a' b']|]; [|discriminate].
  intros [= <- <-]. cbn. f_equal. now apply IH.
Qed.

Lemma span_until_app (c : ascii) (a b : text) :
  ~ In c a -> Lxml.span_until c (a ++ c :: b) = (a, c :: b).
Proof.
  intros Ha. induction a as [|d a IH]; cbn [app Lxml.span_until].
  - now rewrite Ascii.eqb_refl.
  - destruct (Ascii.eqb_spec d c) as [->|Hne]; [exfalso; apply Ha; now left|].
    rewrite IH; [reflexivity|]. intros H; apply Ha; now right.
Qed.

Lemma span_until_some (c : ascii) (s a b : text) :
  Lxml.span_until c s = (a, b) -> s = a ++ b.
Proof.
  revert a b. induction s as [|d s IH]; intros a b; cbn [Lxml.span_until].
  - now intros [= <- <-].
  - destruct (Ascii.eqb d c); [now intros [= <- <-]|].
    destruct (Lxml.span_until c s) as [a' b']. intros [= <- <-]. cbn. f_equal. now apply IH.
Qed.

Lemma split_app (sep : ascii) (a b : text) :
  ~ In sep a -> split sep (a ++ sep :: b) = a :: split sep b.
Proof.
  intros Ha. induction a as [|c a IH]; cbn [app split].
  - now rewrite Ascii.eqb_refl.
  - destruct (Ascii.eqb_spec c sep) as [->|Hne]; [exfalso; apply Ha; now left|].
    rewrite IH; [reflexivity|]. intros H; apply Ha; now right.
Qed.

Lemma existsb_absent (c : ascii) (t : text) : ~ In c t -> existsb (Ascii.eqb c) t = false.
Proof.
  intros Hc. induction t as [|d t IH]; [reflexivity|]. cbn [existsb].
  destruct (Ascii.eqb_spec c d) as [->|_]; [exfalso; apply Hc; now left|].
  apply IH. intros H; apply Hc; now right.
Qed.

(** Every token takes at least one character. *)
Lemma lex1_shrinks (s rest : text) (t : Lxml.token) :
  Lxml.lex1 s = Lxml.Lexed t rest -> (List.length rest < List.length s)%nat.
Proof.
  destruct s as [|c s]; [discriminate|]. cbn [Lxml.lex1].
  destruct (Ascii.eqb_spec c "<") as [->|Hc].
  - destruct (Lxml.break ">" s) as [[inner r]|] eqn:Eb; [|discriminate].
    apply break_some in Eb. subst s.
    assert (Hlen : (List.length r < List.length ("<"%char :: inner ++ ">"%char :: r))%nat)
      by (cbn [List.length]; rewrite length_app; cbn [List.length]; lia).
    destruct inner as [|d inner']; [discriminate|].
    destruct (Ascii.eqb d "?").
    { destruct (endswith inner' (txt "?")); [|discriminate]. now intros [= _ <-]. }
    destruct (Ascii.eqb d "!"); [discriminate|].
    destruct (Ascii.eqb d "/"); [now intros [= _ <-]|].
    unfold Lxml.lex_start_tag.
    destruct (split dquote (d :: inner')) as [|f0 fields]; [discriminate|].
    destruct (falsy (Lxml.take_while Lxml.name_char f0)); [discriminate|].
    destruct (Lxml.attrs_of _ fields) as [[attrs trailer]|]; [|discriminate].
    destruct (strip trailer) as [|e [|e' tr]]; try discriminate.
    + now intros [= _ <-].
    + destruct (Ascii.eqb e "/"); [|discriminate]. now intros [= _ <-].
  - cbn [Lxml.span_until]. destruct (Ascii.eqb_spec c "<") as [->|_]; [contradiction|].
    destruct (Lxml.span_until "<" s) as [a b] eqn:Es. apply span_until_some in Es. subst s.
    destruct (existsb _ _); [discriminate|]. intros [= _ <-].
    cbn [List.length]. rewrite length_app. lia.
Qed.

(** [run] with more fuel than the text has characters does not depend on
    the fuel. *)
Lemma run_enough (fuel1 : nat) :
  forall fuel2 p s events,
    (List.length s < fuel1)%nat -> (List.length s < fuel2)%nat ->
    Lxml.run fuel1 p s events = Lxml.run fuel2 p s events.
Proof.
  induction fuel1 as [|fuel1 IH]; intros fuel2 p s events H1 H2; [lia|].
  destruct fuel2 as [|fuel2]; [lia|]. cbn [Lxml.run].
  destruct (Lxml.lex1 s) as [| |t rest] eqn:El; try reflexivity.
  destruct (Lxml.apply_token p t) as [[p' evs]|]; [|reflexivity].
  apply lex1_shrinks in El. apply IH; lia.
Qed.

(** Tokenising a text as far as it goes, from the open elements [os]. *)
Definition lex_all (os : list Lxml.open_element) (closed : bool) (s : text)
    (events : list Lxml.event) : Lxml.XMLPullParser * list Lxml.event + text :=
  Lxml.run (S (List.length s)) (Lxml.mkParser [] os closed) s events.

Lemma feed_lex_all (p : Lxml.XMLPullParser) (data : text) :
  Lxml.feed p data = lex_all (Lxml.opened p) (Lxml.root_closed p) (Lxml.pending p ++ data) [].
Proof. reflexivity. Qed.

Lemma lex_all_token (os os' : list Lxml.open_element) (closed closed' : bool)
    (s rest : text) (t : Lxml.token) (events evs : list Lxml.event) :
  Lxml.lex1 s = Lxml.Lexed t rest ->
  Lxml.apply_token (Lxml.mkParser [] os closed) t = inl (Lxml.mkParser [] os' closed', evs) ->
  lex_all os closed s events = lex_all os' closed' rest (events ++ evs).
Proof.
  intros El Ha. unfold lex_all.
  change (Lxml.run (S (List.length s)) (Lxml.mkParser [] os closed) s events)
    with (match Lxml.lex1 s with
          | Lxml.NeedMore => inl (Lxml.mkParser s os closed, events)
          | Lxml.LexError m => inr m
          | Lxml.Lexed t rest =>
              match Lxml.apply_token (Lxml.mkParser [] os closed) t with
              | inl (p', evs) => Lxml.run (List.length s) p' rest (events ++ evs)
              | inr m => inr m
              end
          end).
  rewrite El, Ha. apply lex1_shrinks in El. apply run_enough; lia.
Qed.

Lemma lex_all_nil (os : list Lxml.open_element) (closed : bool) (events : list Lxml.event) :
  lex_all os closed [] events = inl (Lxml.mkParser [] os closed, events).
Proof. reflexivity. Qed.

(** A tag that is not complete stays in the parser. *)
Lemma lex_all_incomplete (os : list Lxml.open_element) (closed : bool) (s : text)
    (events : list Lxml.event) :
  ~ In ">"%char s ->
  lex_all os closed ("<"%char :: s) events
  = inl (Lxml.mkParser ("<"%char :: s) os closed, events).
Proof.
  intros Hs. unfold lex_all. cbn [Lxml.run Lxml.lex1 List.length].
  change (Ascii.eqb "<" "<") with true. cbn iota. now rewrite (break_none _ _ Hs).
Qed.

(** Character data up to the next tag. *)
Lemma lex1_text (c : ascii) (t rest : text) :
  ~ In "<"%char (c :: t) -> ~ In "&"%char (c :: t) ->
  Lxml.lex1 ((c :: t) ++ "<"%char :: rest) = Lxml.Lexed (Lxml.TText (c :: t)) ("<"%char :: rest).
Proof.
  intros Hlt Hamp. cbn [app Lxml.lex1].
  destruct (Ascii.eqb_spec c "<") as [->|_]; [exfalso; apply Hlt; now left|].
  change (c :: t ++ "<"%char :: rest) with ((c :: t) ++ "<"%char :: rest).
  rewrite (span_until_app _ _ _ Hlt).
  change (Ascii.eqb "&") with (Ascii.eqb "&"%char).
  now rewrite (existsb_absent _ _ Hamp).
Qed.

(** A start tag whose first attribute has the value [value]. *)
Lemma lex1_start_tag (d : ascii) (pre value post rest : text) :
  ~ In ">"%char (d :: pre) -> ~ In ">"%char value -> ~ In ">"%char post ->
  Ascii.eqb d "?" = false -> Ascii.eqb d "!" = false -> Ascii.eqb d "/" = false ->
  Lxml.lex1 ("<"%char :: (d :: pre) ++ dquote :: value ++ dquote :: post ++ ">"%char :: rest)
  = Lxml.lex_start_tag ((d :: pre) ++ dquote :: value ++ dquote :: post) rest.
Proof.
  intros Hg1 Hg2 Hg3 H1 H2 H3.
  cbn [Lxml.lex1]. change (Ascii.eqb "<" "<") with true. cbn iota.
  replace ((d :: pre) ++ dquote :: value ++ dquote :: post ++ ">"%char :: rest)
    with (((d :: pre) ++ dquote :: value ++ dquote :: post) ++ ">"%char :: rest)
    by (rewrite <- !app_assoc; cbn [app]; rewrite <- !app_assoc; reflexivity).
  rewrite break_app.
  2:{ intros Hin. apply in_app_or in Hin. destruct Hin as [Hin|[Hin|Hin]]; [tauto|discriminate Hin|].
      apply in_app_or in Hin. destruct Hin as [Hin|[Hin|Hin]]; [tauto|discriminate Hin|tauto]. }
  cbn [app]. now rewrite H1, H2, H3.
Qed.

Lemma split_attribute (pre value post : text) :
  ~ In dquote pre -> ~ In dquote value ->
  split dquote (pre ++ dquote :: value ++ dquote :: post) = pre :: value :: split dquote post.
Proof. intros H1 H2. now rewrite (split_app _ _ _ H1), (split_app _ _ _ H2). Qed.

(** ** Round trips: the lines of a TMX file in the pull parser *)

Definition lang_key : text := Lxml.xml_namespace ++ txt "lang".

Definition exported_seg (s : text) : Lxml.Element := Lxml.Elem (txt "seg") [] s [] [].

Definition exported_tuv (code s tail : text) : Lxml.Element :=
  Lxml.Elem (txt "tuv") [(lang_key, code)] [] [exported_seg s] tail.

(** The line of a [<tuv>]. *)
Definition tuv_line (code s : text) : text :=
  txt "      <tuv xml:lang=" ++ [dquote] ++ code ++ [dquote]
  ++ txt "><seg>" ++ s ++ txt "</seg></tuv>".

Definition with_child (o : Lxml.open_element) (el : Lxml.Element) : Lxml.open_element :=
  Lxml.mkOpen (Lxml.o_tag o) (Lxml.o_attrib o) (Lxml.o_text o) (Lxml.o_children o ++ [el]).

Lemma not_in_text (c : ascii) (t : text) :
  existsb (Ascii.eqb c) t = false -> ~ In c t.
Proof.
  intros H Hin. assert (Ht : existsb (Ascii.eqb c) t = true).
  { apply existsb_exists. exists c. split; [exact Hin|apply Ascii.eqb_refl]. }
  congruence.
Qed.

Lemma lex1_tuv_tag (code rest : text) :
  ~ In dquote code -> ~ In ">"%char code ->
  Lxml.lex1 (txt "<tuv xml:lang=" ++ dquote :: code ++ dquote :: ">"%char :: rest)
  = Lxml.Lexed (Lxml.TStart (txt "tuv") [(lang_key, code)] false) rest.
Proof.
  intros Hq Hg.
  change (txt "<tuv xml:lang=" ++ dquote :: code ++ dquote :: ">"%char :: rest)
    with ("<"%char :: ("t"%char :: txt "uv xml:lang=") ++ dquote :: code
          ++ dquote :: [] ++ ">"%char :: rest).
  rewrite lex1_start_tag; try reflexivity; try assumption.
  - unfold Lxml.lex_start_tag. rewrite split_attribute; [reflexivity| |assumption].
    now apply not_in_text.
  - now apply not_in_text.
  - intros [].
Qed.

Lemma feed_tuv_line (o : Lxml.open_element) (os : list Lxml.open_element) (code s : text) :
  forallb plain_char code = true -> phrase_ok s = true ->
  Lxml.feed (Lxml.mkParser [] (o :: os) false) (tuv_line code s ++ [nl])
  = inl (Lxml.mkParser []
           (Lxml.add_text (with_child (Lxml.add_text o (txt "      "))
                                      (exported_tuv code s [])) [nl] :: os) false,
         [(Lxml.start, Lxml.Elem (txt "tuv") [(lang_key, code)] [] [] []);
          (Lxml.start, Lxml.Elem (txt "seg") [] [] [] []);
          (Lxml.end_, exported_seg s);
          (Lxml.end_, exported_tuv code s [])]).
Proof.
  intros Hcode Hs.
  destruct (phrase_ok_facts s Hs) as (Hs0 & _ & _ & _ & _ & Hlt & Hamp & _).
  assert (Hq : ~ In dquote code) by (now apply plain_text_without).
  assert (Hg : ~ In ">"%char code) by (now apply plain_text_without).
  destruct s as [|c s]; [contradiction|].
  rewrite feed_lex_all. cbn [Lxml.opened Lxml.root_closed Lxml.pending app].
  unfold tuv_line. rewrite <- !app_assoc.
  (* the indentation *)
  erewrite lex_all_token; [|reflexivity|reflexivity].
  (* <tuv xml:lang="code"> *)
  erewrite lex_all_token; [|apply lex1_tuv_tag; assumption|reflexivity].
  (* <seg> *)
  erewrite lex_all_token; [|reflexivity|reflexivity].
  (* the phrase *)
  erewrite lex_all_token; [|apply (lex1_text c s); assumption|reflexivity].
  (* </seg> and </tuv> *)
  erewrite lex_all_token; [|reflexivity|reflexivity].
  erewrite lex_all_token; [|reflexivity|reflexivity].
  (* the newline *)
  erewrite lex_all_token; [|reflexivity|reflexivity].
  rewrite lex_all_nil. reflexivity.
Qed.

(** ** Round trips: the lines of a TMX file in [_read_next] *)

(** The base of a parser after [readline] took one line. *)
Definition next_line (base : ParallelPhraseParser) : ParallelPhraseParser :=
  mkBase (FILE_FORMAT base) (_next_read_line_index base) (_next_read_line_index base + 1)
         (_skipped_phrases base).

Lemma readline_whole_line (base : ParallelPhraseParser) (l rest : text) :
  ~ In nl l -> len l < _SENTENCE_BUFFER_SIZE ->
  readline base (l ++ nl :: rest) false false = Return (l ++ [nl]) (next_line base, rest).
Proof.
  intros Hnl Hlen. unfold readline.
  rewrite (stream_readline_line l rest _ Hlen Hnl), endswith_app.
  replace (falsy (l ++ [nl])) with false by (now destruct l). reflexivity.
Qed.

Lemma read_next_loop_fuel (fuel : nat) :
  forall self total r,
    _read_next_loop fuel self total = Some r ->
    forall fuel', (fuel <= fuel')%nat -> _read_next_loop fuel' self total = Some r.
Proof.
  induction fuel as [|fuel IH]; intros self total r Hr fuel' Hf; [discriminate|].
  destruct fuel' as [|fuel']; [lia|]. cbn [_read_next_loop] in *.
  destruct (readline _ _ _ _) as [buff [b s]|e [b s]]; [|exact Hr].
  destruct (Lxml.feed _ _) as [[p events]|m]; [|exact Hr].
  destruct (_handle_events _ _) as [u self'|e self']; [|exact Hr].
  destruct (negb _); [exact Hr|].
  destruct (_ >? _); [exact Hr|]. apply (IH _ _ _ Hr). lia.
Qed.

(** One round of the loop of [_read_next] over a line that completes no
    [<tu>]. *)
Lemma read_next_line (fuel : nat) (self self' : TmxParser) (l rest : text) (total : Z)
    (p' : Lxml.XMLPullParser) (events : list Lxml.event) :
  _tmx_stream self = l ++ nl :: rest -> ~ In nl l ->
  0 <= total -> total + (len l + 1) <= _SENTENCE_BUFFER_SIZE ->
  Lxml.feed (_parser self) (l ++ [nl]) = inl (p', events) ->
  _handle_events (set_parser (set_stream (set_base self (next_line (tmx_base self))) rest) p')
                 events = Return tt self' ->
  _buffered_parsed_pairs self' = [] ->
  _read_next_loop (S fuel) self total = _read_next_loop fuel self' (total + (len l + 1)).
Proof.
  intros Hs Hnl Ht Hsize Hfeed Hev Hbuf. cbn [_read_next_loop].
  rewrite Hs, readline_whole_line by (assumption || (unfold len in *; lia)).
  cbn [_parser set_stream set_base]. rewrite Hfeed.
  cbn [_parser set_stream set_base] in Hev. unfold set_parser at 1.
  cbn [tmx_base tmx_src_lang tmx_dst_lang _tmx_stream _parser _buffered_parsed_pairs
       _buffered_pairs_index _tag_name_stack _header_inited _body_inited].
  unfold set_parser in Hev.
  cbn [tmx_base tmx_src_lang tmx_dst_lang _tmx_stream _parser _buffered_parsed_pairs
       _buffered_pairs_index _tag_name_stack _header_inited _body_inited] in Hev.
  rewrite Hev, Hbuf. cbn [negb].
  replace (len (l ++ [nl])) with (len l + 1)
    by (unfold len; rewrite length_app; cbn [List.length]; lia).
  destruct (Z.gtb_spec (total + (len l + 1)) _SENTENCE_BUFFER_SIZE); [lia|reflexivity].
Qed.

(** The round that completes a [<tu>]. *)
Lemma read_next_last_line (fuel : nat) (self self' : TmxParser) (l rest : text) (total : Z)
    (p' : Lxml.XMLPullParser) (events : list Lxml.event) :
  _tmx_stream self = l ++ nl :: rest -> ~ In nl l -> len l < _SENTENCE_BUFFER_SIZE ->
  Lxml.feed (_parser self) (l ++ [nl]) = inl (p', events) ->
  _handle_events (set_parser (set_stream (set_base self (next_line (tmx_base self))) rest) p')
                 events = Return tt self' ->
  _buffered_parsed_pairs self' <> [] ->
  _read_next_loop (S fuel) self total = Some (Return tt self').
Proof.
  intros Hs Hnl Hlen Hfeed Hev Hbuf. cbn [_read_next_loop].
  rewrite Hs, readline_whole_line by assumption.
  cbn [_parser set_stream set_base]. rewrite Hfeed.
  cbn [_parser set_stream set_base] in Hev. unfold set_parser at 1.
  cbn [tmx_base tmx_src_lang tmx_dst_lang _tmx_stream _parser _buffered_parsed_pairs
       _buffered_pairs_index _tag_name_stack _header_inited _body_inited].
  unfold set_parser in Hev.
  cbn [tmx_base tmx_src_lang tmx_dst_lang _tmx_stream _parser _buffered_parsed_pairs
       _buffered_pairs_index _tag_name_stack _header_inited _body_inited] in Hev.
  rewrite Hev. destruct (_buffered_parsed_pairs self'); [contradiction|reflexivity].
Qed.

(** A parser in the middle of [_read_next]: no pair is buffered. *)
Definition reading (b : ParallelPhraseParser) (src_lang dst_lang : text) (s : stream)
    (p : Lxml.XMLPullParser) (stack : list text) (header_inited : bool) : TmxParser :=
  mkTmxParser b src_lang dst_lang s p [] 0 stack header_inited false.

Lemma reading_line (fuel : nat) (b : ParallelPhraseParser) (src_lang dst_lang l rest : text)
    (p p' : Lxml.XMLPullParser) (events : list Lxml.event) (stack stack' : list text)
    (hinit hinit' : bool) (total : Z) :
  ~ In nl l -> 0 <= total -> total + (len l + 1) <= _SENTENCE_BUFFER_SIZE ->
  Lxml.feed p (l ++ [nl]) = inl (p', events) ->
  _handle_events (reading (next_line b) src_lang dst_lang rest p' stack hinit) events
  = Return tt (reading (next_line b) src_lang dst_lang rest p' stack' hinit') ->
  _read_next_loop (S fuel) (reading b src_lang dst_lang (l ++ nl :: rest) p stack hinit) total
  = _read_next_loop fuel (reading (next_line b) src_lang dst_lang rest p' stack' hinit')
                    (total + (len l + 1)).
Proof.
  intros Hnl Ht Hsize Hfeed Hev.
  apply (read_next_line fuel _ _ l rest total p' events); try assumption; reflexivity.
Qed.

(** A line inside a tag: the pull parser keeps it and reports nothing. *)
Lemma reading_incomplete (fuel : nat) (b : ParallelPhraseParser)
    (src_lang dst_lang l rest pend t : text) (os : list Lxml.open_element)
    (stack : list text) (hinit : bool) (total : Z) :
  ~ In nl l -> 0 <= total -> total + (len l + 1) <= _SENTENCE_BUFFER_SIZE ->
  pend ++ l ++ [nl] = "<"%char :: t -> ~ In ">"%char t ->
  _read_next_loop (S fuel)
    (reading b src_lang dst_lang (l ++ nl :: rest) (Lxml.mkParser pend os false) stack hinit)
    total
  = _read_next_loop fuel
      (reading (next_line b) src_lang dst_lang rest
               (Lxml.mkParser (pend ++ l ++ [nl]) os false) stack hinit)
      (total + (len l + 1)).
Proof.
  intros Hnl Ht Hsize Hp Hg.
  apply (reading_line fuel b src_lang dst_lang l rest _ _ []); try assumption.
  - rewrite feed_lex_all. cbn [Lxml.pending Lxml.opened Lxml.root_closed].
    rewrite Hp. now apply lex_all_incomplete.
  - reflexivity.
Qed.

(** *** The opening *)

Definition xml_declaration : text :=
  txt "<?xml version=" ++ quoted "1.0" ++ txt " encoding=" ++ quoted "UTF-8" ++ txt " ?>".

Definition tmx_start : text := txt "<tmx version=" ++ quoted "1.4" ++ txt ">".

Definition header_start (code : text) : text :=
  txt "<header srclang=" ++ [dquote] ++ code ++ [dquote].

(** The attributes of [<header>] after [srclang], as the template has
    them, up to the slash that closes the tag. *)
Definition header_attributes : text :=
  header_indent ++ txt "adminlang=" ++ quoted "en-us"
  ++ header_indent ++ txt "o-tmf=" ++ quoted "unknown"
  ++ header_indent ++ txt "segtype=" ++ quoted "sentence"
  ++ header_indent ++ txt "creationtool=" ++ quoted "Uplug"
  ++ header_indent ++ txt "creationtoolversion=" ++ quoted "unknown"
  ++ header_indent ++ txt "datatype=" ++ quoted "PlainText" ++ txt " /".

Definition header_attrib (code : text) : list (text * text) :=
  [ (txt "srclang", code); (txt "adminlang", txt "en-us"); (txt "o-tmf", txt "unknown");
    (txt "segtype", txt "sentence"); (txt "creationtool", txt "Uplug");
    (txt "creationtoolversion", txt "unknown"); (txt "datatype", txt "PlainText") ].

Lemma opening_lines (code : text) :
  tmx_opening header_indent code
  = xml_declaration ++ nl :: tmx_start ++ nl
    :: header_start code ++ header_attributes ++ txt ">" ++ nl :: txt "  <body>" ++ [nl].
Proof.
  unfold tmx_opening, header_start, header_attributes, xml_declaration, tmx_start.
  rewrite <- !app_assoc. reflexivity.
Qed.

Lemma lex1_header_tag (code rest : text) :
  ~ In dquote code -> ~ In ">"%char code ->
  Lxml.lex1 (header_start code ++ header_attributes ++ ">"%char :: rest)
  = Lxml.Lexed (Lxml.TStart (txt "header") (header_attrib code) true) rest.
Proof.
  intros Hq Hg.
  replace (header_start code ++ header_attributes ++ ">"%char :: rest)
    with ("<"%char :: ("h"%char :: txt "eader srclang=") ++ dquote :: code
          ++ dquote :: header_attributes ++ ">"%char :: rest)
    by (unfold header_start; rewrite <- !app_assoc; reflexivity).
  rewrite lex1_start_tag; try reflexivity; try assumption.
  - unfold Lxml.lex_start_tag. rewrite split_attribute; [reflexivity| |assumption].
    now apply not_in_text.
  - now apply not_in_text.
  - now apply not_in_text.
Qed.

Lemma not_in_app (c : ascii) (a b : text) : ~ In c a -> ~ In c b -> ~ In c (a ++ b).
Proof. intros Ha Hb Hin. apply in_app_or in Hin. tauto. Qed.

Lemma not_in_cons (c d : ascii) (l : text) : d <> c -> ~ In c l -> ~ In c (d :: l).
Proof. intros Hd Hl [Hin|Hin]; tauto. Qed.

(** A character is absent from a text built from texts it is absent from. *)
Ltac absent :=
  repeat first [ assumption
               | apply not_in_app
               | apply not_in_cons; [discriminate|]
               | apply not_in_text; reflexivity
               | (intros []) ].

(** The text of a tag that is not complete: [<] and no [>] after it. *)
Definition inside_tag (s : text) : Prop :=
  match s with
  | c :: t => c = "<"%char /\ ~ In ">"%char t
  | [] => False
  end.

Lemma inside_tag_app (s l : text) : inside_tag s -> ~ In ">"%char l -> inside_tag (s ++ l).
Proof.
  destruct s as [|c t]; [contradiction|]. cbn [inside_tag app]. intros [-> Ht] Hl.
  split; [reflexivity|]. intros Hin. apply in_app_or in Hin. tauto.
Qed.

Lemma reading_inside_tag (fuel : nat) (b : ParallelPhraseParser)
    (src_lang dst_lang l rest pend : text) (os : list Lxml.open_element)
    (stack : list text) (hinit : bool) (total : Z) :
  ~ In nl l -> 0 <= total -> total + (len l + 1) <= _SENTENCE_BUFFER_SIZE ->
  inside_tag (pend ++ l ++ [nl]) ->
  _read_next_loop (S fuel)
    (reading b src_lang dst_lang (l ++ nl :: rest) (Lxml.mkParser pend os false) stack hinit)
    total
  = _read_next_loop fuel
      (reading (next_line b) src_lang dst_lang rest
               (Lxml.mkParser (pend ++ l ++ [nl]) os false) stack hinit)
      (total + (len l + 1)).
Proof.
  intros Hnl Ht Hsize Hin.
  destruct (pend ++ l ++ [nl]) as [|c t] eqn:E; [contradiction|].
  destruct Hin as [-> Hg]. rewrite <- E.
  now apply (reading_incomplete fuel b src_lang dst_lang l rest pend t).
Qed.

(** The lines of the header after the first. *)
Definition header_line (name value : string) : text :=
  txt "        " ++ txt name ++ txt "=" ++ quoted value.

Definition header_last_line : text := header_line "datatype" "PlainText" ++ txt " />".

Lemma header_attributes_lines (rest : text) :
  header_attributes ++ txt ">" ++ rest
  = nl :: header_line "adminlang" "en-us"
    ++ nl :: header_line "o-tmf" "unknown"
    ++ nl :: header_line "segtype" "sentence"
    ++ nl :: header_line "creationtool" "Uplug"
    ++ nl :: header_line "creationtoolversion" "unknown"
    ++ nl :: header_last_line ++ rest.
Proof. reflexivity. Qed.

Definition tmx_open0 : Lxml.open_element :=
  Lxml.mkOpen (txt "tmx") [(txt "version", txt "1.4")] [nl] [].

(** The open [<tmx>] once the header is read and [<body>] is open. *)
Definition tmx_open (code : text) : Lxml.open_element :=
  Lxml.mkOpen (txt "tmx") [(txt "version", txt "1.4")] [nl]
    [Lxml.Elem (txt "header") (header_attrib code) [] [] (nl :: txt "  ")].

Definition body_open0 : Lxml.open_element := Lxml.mkOpen (txt "body") [] [nl] [].

Definition body_stack : list text := [[]; txt "tmx"; txt "body"].

Ltac text_length :=
  unfold len, header_start, header_last_line, header_line, xml_declaration, tmx_start,
    quoted in *;
  repeat rewrite length_app in *; cbn [List.length txt list_ascii_of_string] in *; lia.

Lemma opening_length (code : text) :
  len (tmx_opening header_indent code) = 264 + len code.
Proof.
  unfold tmx_opening, len. repeat rewrite length_app.
  cbn [List.length txt list_ascii_of_string quoted header_indent app]. lia.
Qed.

(** The feeds of the concrete lines. *)
Lemma feed_declaration :
  Lxml.feed Lxml.XMLPullParser_init (xml_declaration ++ [nl])
  = inl (Lxml.mkParser [] [] false, []).
Proof. reflexivity. Qed.

Lemma feed_tmx_start :
  Lxml.feed (Lxml.mkParser [] [] false) (tmx_start ++ [nl])
  = inl (Lxml.mkParser [] [tmx_open0] false,
         [(Lxml.start, Lxml.Elem (txt "tmx") [(txt "version", txt "1.4")] [] [] [])]).
Proof. reflexivity. Qed.

Lemma feed_header_end (code pend : text) :
  forallb plain_char code = true ->
  pend ++ header_last_line ++ [nl] = header_start code ++ header_attributes ++ txt ">" ++ [nl] ->
  Lxml.feed (Lxml.mkParser pend [tmx_open0] false) (header_last_line ++ [nl])
  = inl (Lxml.mkParser []
           [Lxml.mkOpen (txt "tmx") [(txt "version", txt "1.4")] [nl]
              [Lxml.Elem (txt "header") (header_attrib code) [] [] [nl]]] false,
         [(Lxml.start, Lxml.Elem (txt "header") (header_attrib code) [] [] []);
          (Lxml.end_, Lxml.Elem (txt "header") (header_attrib code) [] [] [])]).
Proof.
  intros Hcode Hp.
  assert (Hq : ~ In dquote code) by (now apply plain_text_without).
  assert (Hg : ~ In ">"%char code) by (now apply plain_text_without).
  rewrite feed_lex_all. cbn [Lxml.pending Lxml.opened Lxml.root_closed]. rewrite Hp.
  erewrite lex_all_token; [|apply lex1_header_tag; assumption|reflexivity].
  erewrite lex_all_token; [|reflexivity|reflexivity].
  rewrite lex_all_nil. reflexivity.
Qed.

Lemma feed_body_start (code : text) :
  Lxml.feed (Lxml.mkParser []
               [Lxml.mkOpen (txt "tmx") [(txt "version", txt "1.4")] [nl]
                  [Lxml.Elem (txt "header") (header_attrib code) [] [] [nl]]] false)
            (txt "  <body>" ++ [nl])
  = inl (Lxml.mkParser [] [body_open0; tmx_open code] false,
         [(Lxml.start, Lxml.Elem (txt "body") [] [] [] [])]).
Proof. reflexivity. Qed.

(** The events of the header. *)
Lemma handle_header (b : ParallelPhraseParser) (code dst_lang : text) (s : stream)
    (p : Lxml.XMLPullParser) :
  _handle_events (reading b (_parse_locale code) dst_lang s p [[]; txt "tmx"] false)
    [(Lxml.start, Lxml.Elem (txt "header") (header_attrib code) [] [] []);
     (Lxml.end_, Lxml.Elem (txt "header") (header_attrib code) [] [] [])]
  = Return tt (reading b (_parse_locale code) dst_lang s p [[]; txt "tmx"] true).
Proof.
  cbn [_handle_events].
  change (_handle_event (reading b (_parse_locale code) dst_lang s p [[]; txt "tmx"] false)
            (Lxml.start, Lxml.Elem (txt "header") (header_attrib code) [] [] []))
    with (@Return TmxParser unit tt
            (reading b (_parse_locale code) dst_lang s p
                     [[]; txt "tmx"; txt "header"] true)).
  cbv beta iota. unfold _handle_event.
  change (_verify_element
            (reading b (_parse_locale code) dst_lang s p [[]; txt "tmx"; txt "header"] true)
            Lxml.end_ (Lxml.tag (Lxml.Elem (txt "header") (header_attrib code) [] [] [])))
    with (@Return TmxParser unit tt
            (reading b (_parse_locale code) dst_lang s p [[]; txt "tmx"] true)).
  cbv beta iota. cbn [Lxml.tag].
  change (text_eqb (txt "header") (txt "header")) with true.
  change (text_eqb (txt "header") (txt "tu")) with false. cbv iota.
  unfold _parse_header_element.
  change (Lxml.get (Lxml.Elem (txt "header") (header_attrib code) [] [] []) (txt "srclang"))
    with (Some code).
  cbv iota. destruct (falsy code); [reflexivity|].
  unfold _is_same_language, reading. cbn [tmx_src_lang]. rewrite text_eqb_refl. reflexivity.
Qed.

Lemma opening_stream (code rest : text) :
  tmx_opening header_indent code ++ rest
  = xml_declaration ++ nl :: tmx_start ++ nl :: header_start code
    ++ nl :: header_line "adminlang" "en-us"
    ++ nl :: header_line "o-tmf" "unknown"
    ++ nl :: header_line "segtype" "sentence"
    ++ nl :: header_line "creationtool" "Uplug"
    ++ nl :: header_line "creationtoolversion" "unknown"
    ++ nl :: header_last_line ++ nl :: txt "  <body>" ++ nl :: rest.
Proof.
  unfold tmx_opening, header_start. rewrite <- !app_assoc. reflexivity.
Qed.

(** The ten lines of the opening: [_read_next] goes through them without
    returning and is left inside [<body>]. *)
Lemma read_opening (b : ParallelPhraseParser) (code dst_lang rest : text) :
  forallb plain_char code = true ->
  len (tmx_opening header_indent code) <= _SENTENCE_BUFFER_SIZE ->
  exists b',
    forall fuel,
      _read_next_loop (10 + fuel)
        (reading b (_parse_locale code) dst_lang (tmx_opening header_indent code ++ rest)
                 Lxml.XMLPullParser_init [[]] false) 0
      = _read_next_loop fuel
          (reading b' (_parse_locale code) dst_lang rest
                   (Lxml.mkParser [] [body_open0; tmx_open code] false) body_stack true)
          (len (tmx_opening header_indent code)).
Proof.
  intros Hcode Hsize. rewrite opening_length in Hsize.
  assert (Hg : ~ In ">"%char code) by (now apply plain_text_without).
  assert (Hn : ~ In nl code) by (now apply plain_text_without).
  assert (Hnl : forall s : text, existsb (Ascii.eqb nl) s = false -> ~ In nl s)
    by (intros s; apply not_in_text).
  assert (Hgt : forall s : text, existsb (Ascii.eqb ">") s = false -> ~ In ">"%char s)
    by (intros s; apply not_in_text).
  assert (Hstart : ~ In nl (header_start code)) by (unfold header_start; absent).
  assert (Hstart' : inside_tag ([] ++ header_start code ++ [nl])).
  { split; [reflexivity|]. cbn [app]. absent. }
  eexists. intros fuel. rewrite opening_length, opening_stream.
  change (10 + fuel)%nat with (S (S (S (S (S (S (S (S (S (S fuel)))))))))).
  (* the declaration and <tmx> *)
  rewrite (reading_line _ b _ _ xml_declaration _ _ (Lxml.mkParser [] [] false) []
             [[]] [[]] false false);
    [|now apply Hnl|lia|text_length|exact feed_declaration|reflexivity].
  rewrite (reading_line _ _ _ _ tmx_start _ _ (Lxml.mkParser [] [tmx_open0] false)
             [(Lxml.start, Lxml.Elem (txt "tmx") [(txt "version", txt "1.4")] [] [] [])]
             [[]] [[]; txt "tmx"] false false);
    [|now apply Hnl|text_length|text_length|exact feed_tmx_start|reflexivity].
  (* <header ... over seven lines *)
  rewrite (reading_inside_tag _ _ _ _ (header_start code));
    [|exact Hstart|text_length|text_length|exact Hstart'].
  rewrite (reading_inside_tag _ _ _ _ (header_line "adminlang" "en-us"));
    [|now apply Hnl|text_length|text_length|].
  2:{ repeat (apply inside_tag_app; [|now apply Hgt]). exact Hstart'. }
  rewrite (reading_inside_tag _ _ _ _ (header_line "o-tmf" "unknown"));
    [|now apply Hnl|text_length|text_length|].
  2:{ repeat (apply inside_tag_app; [|now apply Hgt]). exact Hstart'. }
  rewrite (reading_inside_tag _ _ _ _ (header_line "segtype" "sentence"));
    [|now apply Hnl|text_length|text_length|].
  2:{ repeat (apply inside_tag_app; [|now apply Hgt]). exact Hstart'. }
  rewrite (reading_inside_tag _ _ _ _ (header_line "creationtool" "Uplug"));
    [|now apply Hnl|text_length|text_length|].
  2:{ repeat (apply inside_tag_app; [|now apply Hgt]). exact Hstart'. }
  rewrite (reading_inside_tag _ _ _ _ (header_line "creationtoolversion" "unknown"));
    [|now apply Hnl|text_length|text_length|].
  2:{ repeat (apply inside_tag_app; [|now apply Hgt]). exact Hstart'. }
  erewrite (reading_line _ _ _ _ header_last_line _ _ _ _ _ [[]; txt "tmx"] false true);
    [|now apply Hnl|text_length|text_length| |apply handle_header].
  2:{ apply feed_header_end; [exact Hcode|].
      rewrite <- !app_assoc. cbn [app].
      rewrite (header_attributes_lines [nl]). reflexivity. }
  (* <body> *)
  rewrite (reading_line _ _ _ _ (txt "  <body>") rest _
             (Lxml.mkParser [] [body_open0; tmx_open code] false)
             [(Lxml.start, Lxml.Elem (txt "body") [] [] [] [])]
             [[]; txt "tmx"] body_stack true true);
    [|now apply Hnl|text_length|text_length|apply feed_body_start|reflexivity].
  f_equal. text_length.
Qed.

(** *** A [<tu>] *)

Lemma parse_locale_nil : _parse_locale [] = [].
Proof. reflexivity. Qed.

(** The text and the locale of a [<tuv>] as the exporter writes it. *)
Lemma parse_tuv_element (code s tail : text) :
  falsy (_parse_locale code) = false -> phrase_ok s = true ->
  _parse_tuv_element (exported_tuv code s tail) = (s, Some (_parse_locale code)).
Proof.
  intros Hcode Hs. destruct (phrase_ok_facts s Hs) as (Hs0 & _ & Hstrip & _).
  assert (Hc : falsy code = false).
  { destruct code; [|reflexivity]. rewrite parse_locale_nil in Hcode. discriminate. }
  unfold _parse_tuv_element, exported_tuv, Lxml.get. cbn [Lxml.attrib Lxml.lookup].
  unfold lang_key. rewrite text_eqb_refl, Hc.
  cbn [Lxml.itertext exported_seg flat_map Lxml.tail app filter].
  change (strip []) with (@nil ascii). cbn [falsy negb].
  rewrite Hstrip. destruct s as [|c s]; [contradiction|]. cbn [falsy negb map join].
  now rewrite !Hstrip.
Qed.

(** The [<tu>] that the pull parser builds from the four lines of a unit. *)
Definition exported_tu (src_code dst_code : text) (pr : text * text) : Lxml.Element :=
  Lxml.Elem (txt "tu") [] (nl :: txt "      ")
    [exported_tuv src_code (fst pr) (nl :: txt "      ");
     exported_tuv dst_code (snd pr) (nl :: txt "    ")] [].

Lemma parse_tu_element (self : TmxParser) (src_code dst_code : text) (pr : text * text) :
  codes_ok src_code dst_code = true ->
  tmx_src_lang self = _parse_locale src_code -> tmx_dst_lang self = _parse_locale dst_code ->
  phrase_ok (fst pr) = true -> phrase_ok (snd pr) = true ->
  _parse_tu_element self (exported_tu src_code dst_code pr)
  = (Some (fst pr), Some (snd pr), None).
Proof.
  unfold codes_ok. rewrite !andb_true_iff, !negb_true_iff.
  intros [[[[_ _] Hsrc] Hdst] Hdiff] Es Ed Hs Hd.
  destruct pr as [s d]. cbn [fst snd] in *.
  unfold _parse_tu_element, exported_tu. cbn [Lxml.getchildren fold_left].
  unfold tu_child at 2. unfold exported_tuv at 1. cbn [Lxml.tag].
  change (text_eqb (txt "tuv") (txt "tuv")) with true. cbn [negb].
  fold (exported_tuv src_code s (nl :: txt "      ")).
  rewrite (parse_tuv_element _ _ _ Hsrc Hs), Hsrc.
  destruct (phrase_ok_facts s Hs) as (Hs0 & _). destruct (phrase_ok_facts d Hd) as (Hd0 & _).
  replace (falsy s) with false by (now destruct s).
  cbn [negb andb]. unfold _is_same_language at 1. rewrite Es, text_eqb_refl.
  unfold tu_child. unfold exported_tuv at 1. cbn [Lxml.tag].
  change (text_eqb (txt "tuv") (txt "tuv")) with true. cbn [negb].
  fold (exported_tuv dst_code d (nl :: txt "    ")).
  rewrite (parse_tuv_element _ _ _ Hdst Hd), Hdst.
  replace (falsy d) with false by (now destruct d).
  cbn [negb andb]. rewrite Es, Ed, Hdiff. unfold _is_same_language. rewrite text_eqb_refl.
  cbn [none_or_empty].
  replace (falsy s) with false by (now destruct s).
  replace (falsy d) with false by (now destruct d). reflexivity.
Qed.

Definition tu_open0 : Lxml.open_element := Lxml.mkOpen (txt "tu") [] [nl] [].

Definition tu_open1 (code s : text) : Lxml.open_element :=
  Lxml.mkOpen (txt "tu") [] (nl :: txt "      ") [exported_tuv code s [nl]].

Definition tu_open2 (src_code dst_code : text) (pr : text * text) : Lxml.open_element :=
  Lxml.mkOpen (txt "tu") [] (nl :: txt "      ")
    [exported_tuv src_code (fst pr) (nl :: txt "      "); exported_tuv dst_code (snd pr) [nl]].

Definition tuv_events (code s : text) : list Lxml.event :=
  [(Lxml.start, Lxml.Elem (txt "tuv") [(lang_key, code)] [] [] []);
   (Lxml.start, Lxml.Elem (txt "seg") [] [] [] []);
   (Lxml.end_, exported_seg s);
   (Lxml.end_, exported_tuv code s [])].

Lemma feed_tu_start (o : Lxml.open_element) (os : list Lxml.open_element) :
  Lxml.feed (Lxml.mkParser [] (o :: os) false) (txt "    <tu>" ++ [nl])
  = inl (Lxml.mkParser [] (tu_open0 :: Lxml.add_text o (txt "    ") :: os) false,
         [(Lxml.start, Lxml.Elem (txt "tu") [] [] [] [])]).
Proof. reflexivity. Qed.

Lemma feed_tuv_first (os : list Lxml.open_element) (code s : text) :
  forallb plain_char code = true -> phrase_ok s = true ->
  Lxml.feed (Lxml.mkParser [] (tu_open0 :: os) false) (tuv_line code s ++ [nl])
  = inl (Lxml.mkParser [] (tu_open1 code s :: os) false, tuv_events code s).
Proof. intros Hc Hs. now rewrite feed_tuv_line. Qed.

Lemma feed_tuv_second (os : list Lxml.open_element) (src_code dst_code : text)
    (pr : text * text) :
  forallb plain_char dst_code = true -> phrase_ok (snd pr) = true ->
  Lxml.feed (Lxml.mkParser [] (tu_open1 src_code (fst pr) :: os) false)
            (tuv_line dst_code (snd pr) ++ [nl])
  = inl (Lxml.mkParser [] (tu_open2 src_code dst_code pr :: os) false,
         tuv_events dst_code (snd pr)).
Proof. intros Hc Hs. now rewrite feed_tuv_line. Qed.

Lemma feed_tu_end (o : Lxml.open_element) (os : list Lxml.open_element)
    (src_code dst_code : text) (pr : text * text) :
  Lxml.feed (Lxml.mkParser [] (tu_open2 src_code dst_code pr :: o :: os) false)
            (txt "    </tu>" ++ [nl])
  = inl (Lxml.mkParser []
           (Lxml.add_text (with_child o (exported_tu src_code dst_code pr)) [nl] :: os) false,
         [(Lxml.end_, exported_tu src_code dst_code pr)]).
Proof. reflexivity. Qed.

Lemma add_text_tag (o : Lxml.open_element) (t : text) :
  Lxml.o_tag (Lxml.add_text o t) = Lxml.o_tag o.
Proof.
  unfold Lxml.add_text. destruct (rev (Lxml.o_children o)) as [|[g a x cs tl] before];
    reflexivity.
Qed.

(** The lines of a unit. *)
Lemma unit_stream (src_code dst_code rest : text) (pr : text * text) :
  tmx_unit src_code dst_code pr ++ rest
  = txt "    <tu>" ++ nl :: tuv_line src_code (fst pr) ++ nl
    :: tuv_line dst_code (snd pr) ++ nl :: txt "    </tu>" ++ nl :: rest.
Proof. unfold tmx_unit, tuv_line. rewrite <- !app_assoc. reflexivity. Qed.

Lemma unit_length (src_code dst_code : text) (pr : text * text) :
  len (tmx_unit src_code dst_code pr)
  = 101 + len src_code + len dst_code + len (fst pr) + len (snd pr).
Proof.
  unfold tmx_unit, len. repeat rewrite length_app.
  cbn [List.length txt list_ascii_of_string app]. lia.
Qed.

Lemma tuv_line_length (code s : text) : len (tuv_line code s) = 40 + len code + len s.
Proof.
  unfold tuv_line, len. repeat rewrite length_app.
  cbn [List.length txt list_ascii_of_string app]. lia.
Qed.

Lemma tuv_line_no_newline (code s : text) :
  forallb plain_char code = true -> phrase_ok s = true -> ~ In nl (tuv_line code s).
Proof.
  intros Hc Hs. destruct (phrase_ok_facts s Hs) as (_ & Hp & _).
  assert (~ In nl code) by (now apply plain_text_without).
  assert (~ In nl s) by (now apply plain_text_without).
  unfold tuv_line. absent.
Qed.

(** [_read_next] over the four lines of a unit, inside [<body>]: it
    returns with the pair of the unit buffered. *)
Lemma read_unit (b : ParallelPhraseParser) (src_code dst_code rest : text)
    (pr : text * text) (o : Lxml.open_element) (os : list Lxml.open_element) (total : Z) :
  codes_ok src_code dst_code = true ->
  phrase_ok (fst pr) = true -> phrase_ok (snd pr) = true ->
  0 <= total -> total + len (tmx_unit src_code dst_code pr) <= _SENTENCE_BUFFER_SIZE ->
  exists b' o',
    Lxml.o_tag o' = Lxml.o_tag o
    /\ _read_next_loop 4
         (reading b (_parse_locale src_code) (_parse_locale dst_code)
                  (tmx_unit src_code dst_code pr ++ rest)
                  (Lxml.mkParser [] (o :: os) false) body_stack true) total
       = Some (Return tt
                 (mkTmxParser b' (_parse_locale src_code) (_parse_locale dst_code) rest
                              (Lxml.mkParser [] (o' :: os) false) [pr] 0 body_stack true
                              false)).
Proof.
  intros Hcodes Hs Hd Ht Hsize. rewrite unit_length in Hsize.
  pose proof Hcodes as Hc. unfold codes_ok in Hc. rewrite !andb_true_iff in Hc.
  destruct Hc as [[[[Hc1 Hc2] _] _] _].
  pose proof (tuv_line_length src_code (fst pr)) as Hl1.
  pose proof (tuv_line_length dst_code (snd pr)) as Hl2.
  assert (Hlen0 : forall t : text, 0 <= len t) by (intros t; unfold len; lia).
  pose proof (Hlen0 src_code). pose proof (Hlen0 dst_code).
  pose proof (Hlen0 (fst pr)). pose proof (Hlen0 (snd pr)).
  exists (next_line (next_line (next_line (next_line b)))),
         (Lxml.add_text (with_child (Lxml.add_text o (txt "    "))
                                    (exported_tu src_code dst_code pr)) [nl]).
  split; [rewrite add_text_tag; unfold with_child; cbn [Lxml.o_tag]; apply add_text_tag|].
  rewrite unit_stream.
  erewrite (reading_line _ b _ _ (txt "    <tu>") _ _ _ _ body_stack
             (body_stack ++ [txt "tu"]) true true);
    [|absent|exact Ht|change (len (txt "    <tu>")) with 8; lia|apply feed_tu_start
     |reflexivity].
  change (len (txt "    <tu>")) with 8.
  erewrite (reading_line _ _ _ _ (tuv_line src_code (fst pr)) _ _ _ _
             (body_stack ++ [txt "tu"]) (body_stack ++ [txt "tu"]) true true);
    [|now apply tuv_line_no_newline|lia|lia|now apply feed_tuv_first|reflexivity].
  erewrite (reading_line _ _ _ _ (tuv_line dst_code (snd pr)) _ _ _ _
             (body_stack ++ [txt "tu"]) (body_stack ++ [txt "tu"]) true true);
    [|now apply tuv_line_no_newline|lia|lia|now apply feed_tuv_second|reflexivity].
  eapply (read_next_last_line _ _ _ (txt "    </tu>") rest _ _
           [(Lxml.end_, exported_tu src_code dst_code pr)]).
  - reflexivity.
  - absent.
  - reflexivity.
  - apply feed_tu_end.
  - cbn [_handle_events]. unfold _handle_event.
    change (Lxml.tag (exported_tu src_code dst_code pr)) with (txt "tu").
    match goal with
    | |- context [_verify_element ?self Lxml.end_ (txt "tu")] =>
        change (_verify_element self Lxml.end_ (txt "tu"))
          with (@Return TmxParser unit tt (set_stack self body_stack))
    end.
    cbv beta iota.
    change (text_eqb (txt "tu") (txt "header")) with false.
    change (text_eqb (txt "tu") (txt "tu")) with true. cbv iota.
    rewrite (parse_tu_element _ src_code dst_code pr Hcodes);
      [destruct pr as [s d]; reflexivity|reflexivity|reflexivity|exact Hs|exact Hd].
  - discriminate.
Qed.

(** *** The closing *)

(** The element that an open element becomes at its end tag. *)
Definition closed_element (o : Lxml.open_element) : Lxml.Element :=
  Lxml.Elem (Lxml.o_tag o) (Lxml.o_attrib o) (Lxml.o_text o) (Lxml.o_children o) [].

Lemma close_inner (o parent : Lxml.open_element) (os : list Lxml.open_element) :
  Lxml.close_element (Lxml.mkParser [] (o :: parent :: os) false) (Lxml.o_tag o)
  = inl (Lxml.mkParser [] (with_child parent (closed_element o) :: os) false,
         [(Lxml.end_, closed_element o)]).
Proof. unfold Lxml.close_element. cbn [Lxml.opened]. now rewrite text_eqb_refl. Qed.

Lemma close_root (o : Lxml.open_element) :
  Lxml.close_element (Lxml.mkParser [] [o] false) (Lxml.o_tag o)
  = inl (Lxml.mkParser [] [] true, [(Lxml.end_, closed_element o)]).
Proof. unfold Lxml.close_element. cbn [Lxml.opened]. now rewrite text_eqb_refl. Qed.

Lemma feed_body_end (o ot : Lxml.open_element) :
  Lxml.o_tag o = txt "body" ->
  Lxml.feed (Lxml.mkParser [] [o; ot] false) (txt "  </body>" ++ [nl])
  = inl (Lxml.mkParser []
           [Lxml.add_text (with_child ot (closed_element (Lxml.add_text o (txt "  ")))) [nl]]
           false,
         [(Lxml.end_, closed_element (Lxml.add_text o (txt "  ")))]).
Proof.
  intros Ho. rewrite feed_lex_all. cbn [Lxml.pending Lxml.opened Lxml.root_closed app].
  erewrite lex_all_token; [|reflexivity|reflexivity].
  erewrite (lex_all_token _ _ _ _ _ _ (Lxml.TEnd (txt "body"))); [|reflexivity|].
  2:{ cbn [Lxml.apply_token].
      rewrite <- Ho, <- (add_text_tag o (txt "  ")). apply close_inner. }
  erewrite lex_all_token; [|reflexivity|reflexivity].
  rewrite lex_all_nil. reflexivity.
Qed.

Lemma feed_tmx_end (ot : Lxml.open_element) :
  Lxml.o_tag ot = txt "tmx" ->
  Lxml.feed (Lxml.mkParser [] [ot] false) (txt "</tmx>")
  = inl (Lxml.mkParser [] [] true, [(Lxml.end_, closed_element ot)]).
Proof.
  intros Ho. rewrite feed_lex_all. cbn [Lxml.pending Lxml.opened Lxml.root_closed app].
  erewrite (lex_all_token _ _ _ _ _ _ (Lxml.TEnd (txt "tmx"))); [|reflexivity|].
  2:{ cbn [Lxml.apply_token]. rewrite <- Ho. apply close_root. }
  rewrite lex_all_nil. reflexivity.
Qed.

(** The events of an end tag that is neither [</header>] nor [</tu>]. *)
Lemma handle_end (b : ParallelPhraseParser) (src_lang dst_lang : text) (s : stream)
    (p : Lxml.XMLPullParser) (stack : list text) (o : Lxml.open_element) (name : string) :
  Lxml.o_tag o = txt name ->
  Lxml.lookup (txt name) _PARENT_TAG_NAME <> None ->
  text_eqb (txt name) (txt "header") = false -> text_eqb (txt name) (txt "tu") = false ->
  _handle_events (reading b src_lang dst_lang s p (stack ++ [txt name]) true)
                 [(Lxml.end_, closed_element o)]
  = Return tt (reading b src_lang dst_lang s p stack true).
Proof.
  intros Ho Hp Hh Ht. cbn [_handle_events]. unfold _handle_event, closed_element.
  cbn [Lxml.tag]. rewrite Ho, Hh, Ht. unfold _verify_element.
  destruct (Lxml.lookup (txt name) _PARENT_TAG_NAME) as [parent|]; [|contradiction].
  unfold stack_top, reading. cbn [_tag_name_stack]. rewrite last_last, text_eqb_refl.
  cbn [negb]. unfold set_stack. cbn. now rewrite removelast_last.
Qed.

Definition same_line (base : ParallelPhraseParser) : ParallelPhraseParser :=
  mkBase (FILE_FORMAT base) (_next_read_line_index base) (_next_read_line_index base)
         (_skipped_phrases base).

(** [_read_next] over the closing tags and the end of the stream: it
    raises [ParseFinished]. *)
Lemma read_closing (b : ParallelPhraseParser) (src_lang dst_lang : text)
    (o ot : Lxml.open_element) (total : Z) :
  Lxml.o_tag o = txt "body" -> Lxml.o_tag ot = txt "tmx" ->
  0 <= total -> total + len tmx_closing <= _SENTENCE_BUFFER_SIZE ->
  exists final,
    _read_next_loop 3
      (reading b src_lang dst_lang tmx_closing (Lxml.mkParser [] [o; ot] false)
               body_stack true) total
    = Some (Raises ParseFinished final).
Proof.
  intros Ho Hot Ht Hsize. change (len tmx_closing) with 16 in Hsize.
  eexists. unfold tmx_closing. cbn [app].
  change (txt "  </body>" ++ nl :: txt "</tmx>")
    with (txt "  </body>" ++ nl :: txt "</tmx>").
  erewrite (reading_line _ b _ _ (txt "  </body>") (txt "</tmx>") _ _ _
              ([[]; txt "tmx"] ++ [txt "body"]) [[]; txt "tmx"] true true);
    [|absent|exact Ht|change (len (txt "  </body>")) with 9; lia
     |now apply feed_body_end|].
  2:{ apply (handle_end _ _ _ _ _ _ _ "body"); try reflexivity;
        [now rewrite add_text_tag|discriminate]. }
  change (len (txt "  </body>")) with 9.
  cbn [_read_next_loop].
  change (readline (tmx_base (reading (next_line b) src_lang dst_lang (txt "</tmx>")
                       (Lxml.mkParser []
                          [Lxml.add_text
                             (with_child ot (closed_element (Lxml.add_text o (txt "  "))))
                             [nl]] false) [[]; txt "tmx"] true))
                   (_tmx_stream (reading (next_line b) src_lang dst_lang (txt "</tmx>")
                       (Lxml.mkParser []
                          [Lxml.add_text
                             (with_child ot (closed_element (Lxml.add_text o (txt "  "))))
                             [nl]] false) [[]; txt "tmx"] true)) false false)
    with (@Return (ParallelPhraseParser * stream) text (txt "</tmx>")
            (same_line (next_line b), [])).
  cbv beta iota. cbn [_parser set_stream set_base reading].
  rewrite feed_tmx_end
    by (rewrite add_text_tag; unfold with_child; cbn [Lxml.o_tag]; exact Hot).
  unfold set_parser.
  cbn [tmx_base tmx_src_lang tmx_dst_lang _tmx_stream _parser _buffered_parsed_pairs
       _buffered_pairs_index _tag_name_stack _header_inited _body_inited].
  rewrite (handle_end (same_line (next_line b)) src_lang dst_lang [] (Lxml.mkParser [] [] true)
             [[]] _ "tmx");
    [|rewrite add_text_tag; unfold with_child; cbn [Lxml.o_tag]; exact Hot|discriminate
     |reflexivity|reflexivity].
  cbn [reading _buffered_parsed_pairs negb].
  change (len (txt "</tmx>")) with 6.
  destruct (Z.gtb_spec (total + (9 + 1) + 6) _SENTENCE_BUFFER_SIZE); [lia|].
  reflexivity.
Qed.

(** *** The parser over an exported file *)

(** A pair that a TMX file carries unchanged: two phrases, in a unit that
    fits the buffer together with the opening of the file. *)
Definition tmx_pair_ok (src_code dst_code : text) (pr : text * text) : Prop :=
  phrase_ok (fst pr) = true /\ phrase_ok (snd pr) = true
  /\ len (tmx_opening header_indent src_code) + len (tmx_unit src_code dst_code pr)
     <= _SENTENCE_BUFFER_SIZE.

Definition tmx_units (src_code dst_code : text) (prs : list (text * text)) : text :=
  List.concat (map (tmx_unit src_code dst_code) prs).

(** A call of [next] on a parser that has used up its buffer. *)
Lemma next_of_read_next (b : ParallelPhraseParser) (src_lang dst_lang : text) (s : stream)
    (p : Lxml.XMLPullParser) (buffered : list (text * text)) (index : Z)
    (stack : list text) (hinit : bool) (fuel : nat) (r : outcome TmxParser unit) :
  Z.of_nat (List.length buffered) <= index ->
  _read_next_loop fuel (reading b src_lang dst_lang s p stack hinit) 0 = Some r ->
  (fuel <= S (List.length s))%nat ->
  TmxParser_next_parallel_phrase_pair
    (mkTmxParser b src_lang dst_lang s p buffered index stack hinit false)
  = match r with
    | Raises e self => Some (Raises e self)
    | Return _ self =>
        match nth_error (_buffered_parsed_pairs self)
                        (Z.to_nat (_buffered_pairs_index self)) with
        | Some pr =>
            Some (Return pr (set_buffered self (_buffered_parsed_pairs self)
                                          (_buffered_pairs_index self + 1)))
        | None => Some (Raises (PyError (txt "IndexError")) self)
        end
    end.
Proof.
  intros Hidx Hr Hfuel. unfold TmxParser_next_parallel_phrase_pair.
  cbn [_buffered_parsed_pairs _buffered_pairs_index].
  destruct (Z.leb_spec (Z.of_nat (List.length buffered)) index); [|lia].
  unfold _read_next. cbn [_tmx_stream].
  change (set_buffered (mkTmxParser b src_lang dst_lang s p buffered index stack hinit false)
                       [] 0)
    with (reading b src_lang dst_lang s p stack hinit).
  rewrite (read_next_loop_fuel fuel _ _ _ Hr _ Hfuel). destruct r; reflexivity.
Qed.

Lemma len_nonneg (t : text) : 0 <= len t.
Proof. unfold len. lia. Qed.

(** Inside [<body>]: the parser yields the pairs of the units that
    follow. *)
Lemma tmx_body_yields (src_code dst_code : text) (prs : list (text * text)) :
  codes_ok src_code dst_code = true ->
  Forall (tmx_pair_ok src_code dst_code) prs ->
  forall (b : ParallelPhraseParser) (o ot : Lxml.open_element)
         (buffered : list (text * text)) (index : Z),
    Lxml.o_tag o = txt "body" -> Lxml.o_tag ot = txt "tmx" ->
    Z.of_nat (List.length buffered) <= index ->
    exists final,
      yields (mkTmxParser b (_parse_locale src_code) (_parse_locale dst_code)
                (tmx_units src_code dst_code prs ++ tmx_closing)
                (Lxml.mkParser [] [o; ot] false) buffered index body_stack true false)
             prs final.
Proof.
  intros Hcodes. induction 1 as [|pr prs (Hs & Hd & Hsize) _ IH];
    intros b o ot buffered index Ho Hot Hidx.
  - destruct (read_closing b (_parse_locale src_code) (_parse_locale dst_code) o ot 0 Ho Hot)
      as [final Hr]; [lia|vm_compute; discriminate|].
    exists final. apply yields_end.
    cbn [next_parallel_phrase_pair TmxParser_parser tmx_units map List.concat app].
    rewrite (next_of_read_next _ _ _ _ _ _ _ _ _ 3 _ Hidx Hr); [reflexivity|].
    cbn. lia.
  - pose proof (len_nonneg (tmx_opening header_indent src_code)).
    destruct (read_unit b src_code dst_code (tmx_units src_code dst_code prs ++ tmx_closing)
                pr o [ot] 0 Hcodes Hs Hd) as (b' & o' & Ho' & Hr); [lia|lia|].
    destruct (IH b' o' ot [pr] 1) as [final Hy]; [congruence|exact Hot|cbn; lia|].
    exists final. eapply yields_pair; [|exact Hy].
    cbn [next_parallel_phrase_pair TmxParser_parser].
    change (tmx_units src_code dst_code (pr :: prs))
      with (tmx_unit src_code dst_code pr ++ tmx_units src_code dst_code prs).
    rewrite <- app_assoc.
    rewrite (next_of_read_next _ _ _ _ _ _ _ _ _ 4 _ Hidx Hr); [reflexivity|].
    pose proof (unit_length src_code dst_code pr) as Hl. unfold len in Hl.
    rewrite length_app. lia.
Qed.

(** From the start of an exported file. *)
Lemma tmx_yields (src_code dst_code : text) (prs : list (text * text)) :
  codes_ok src_code dst_code = true ->
  Forall (tmx_pair_ok src_code dst_code) prs ->
  len (tmx_opening header_indent src_code) + len tmx_closing <= _SENTENCE_BUFFER_SIZE ->
  exists final,
    yields (TmxParser_init src_code dst_code
              (tmx_opening header_indent src_code
               ++ tmx_units src_code dst_code prs ++ tmx_closing))
           prs final.
Proof.
  intros Hcodes Hprs Hclose.
  pose proof Hcodes as Hc. unfold codes_ok in Hc. rewrite !andb_true_iff in Hc.
  destruct Hc as [[[[Hc1 _] _] _] _].
  pose proof (len_nonneg (tmx_opening header_indent src_code)) as H0.
  pose proof (len_nonneg src_code) as H1.
  assert (Hopen : len (tmx_opening header_indent src_code) <= _SENTENCE_BUFFER_SIZE).
  { change (len tmx_closing) with 16 in Hclose. lia. }
  assert (Hfuel : forall rest : text,
            (14 <= S (List.length (tmx_opening header_indent src_code ++ rest)))%nat).
  { intros rest. pose proof (opening_length src_code) as Hl. unfold len in Hl.
    rewrite length_app. lia. }
  unfold TmxParser_init.
  destruct Hprs as [|pr prs (Hs & Hd & Hsize) Hprs].
  - destruct (read_opening (ParallelPhraseParser_init (txt "TMX")) src_code
                (_parse_locale dst_code) tmx_closing Hc1 Hopen) as [b' Hopening].
    destruct (read_closing b' (_parse_locale src_code) (_parse_locale dst_code)
                body_open0 (tmx_open src_code)
                (len (tmx_opening header_indent src_code)) eq_refl eq_refl H0 Hclose)
      as [final Hr].
    exists final. apply yields_end.
    cbn [next_parallel_phrase_pair TmxParser_parser tmx_units map List.concat app].
    rewrite (next_of_read_next _ _ _ _ _ [] 0 _ _ (10 + 3) (Raises ParseFinished final));
      [reflexivity|cbn; lia| |].
    + rewrite Hopening. exact Hr.
    + specialize (Hfuel tmx_closing). cbn [Nat.add]. lia.
  - destruct (read_opening (ParallelPhraseParser_init (txt "TMX")) src_code
                (_parse_locale dst_code)
                (tmx_unit src_code dst_code pr
                 ++ tmx_units src_code dst_code prs ++ tmx_closing) Hc1 Hopen)
      as [b' Hopening].
    destruct (read_unit b' src_code dst_code (tmx_units src_code dst_code prs ++ tmx_closing)
                pr body_open0 [tmx_open src_code]
                (len (tmx_opening header_indent src_code)) Hcodes Hs Hd H0 Hsize)
      as (b'' & o' & Ho' & Hr).
    destruct (tmx_body_yields src_code dst_code prs Hcodes Hprs b'' o' (tmx_open src_code)
                [pr] 1) as [final Hy]; [now rewrite Ho'|reflexivity|cbn; lia|].
    exists final. eapply yields_pair; [|exact Hy].
    cbn [next_parallel_phrase_pair TmxParser_parser].
    change (tmx_units src_code dst_code (pr :: prs))
      with (tmx_unit src_code dst_code pr ++ tmx_units src_code dst_code prs).
    rewrite <- app_assoc.
    erewrite (next_of_read_next _ _ _ _ _ [] 0 _ _ (10 + 4));
      [|cbn; lia|rewrite Hopening; exact Hr|].
    + reflexivity.
    + match goal with |- (_ <= S (List.length (_ ++ ?rest)))%nat =>
        specialize (Hfuel rest) end.
      cbn [Nat.add]. lia.
Qed.

(** *** The two round trips *)

(** The TSV and the TMX file of a list of pairs, as the exporters write
    them. *)
Definition tsv_file (src_code dst_code : text) (prs : list (text * text)) : text :=
  getvalue (export_pairs (TsvExporter_init src_code dst_code []) prs).

Definition tmx_file (src_code dst_code : text) (prs : list (text * text)) : text :=
  getvalue (export_pairs (TmxExporter_init src_code dst_code []) prs).

Lemma tsv_file_lines (src_code dst_code : text) (prs : list (text * text)) :
  tsv_file src_code dst_code prs = List.concat (map tsv_line prs).
Proof.
  unfold tsv_file, export_pairs. cbn [finalize initialize TsvExporter_exporter].
  exact (tsv_feed_list prs (TsvExporter_init src_code dst_code [])).
Qed.

Lemma tmx_file_units (src_code dst_code : text) (prs : list (text * text)) :
  tmx_file src_code dst_code prs
  = tmx_opening header_indent src_code ++ tmx_units src_code dst_code prs ++ tmx_closing.
Proof.
  unfold tmx_file, export_pairs, tmx_units.
  cbn [getvalue finalize initialize feed_parallel_phrase_pair TmxExporter_exporter].
  unfold TmxExporter_finalize, TmxExporter_write, write. cbn [_tmxx_stream].
  destruct (tmx_feed_pairs prs (TmxExporter_initialize (TmxExporter_init src_code dst_code [])))
    as (H & _ & _).
  unfold tmx_feed_list in H. rewrite H.
  unfold TmxExporter_initialize, TmxExporter_write, write, TmxExporter_init.
  cbn [_tmxx_stream _src_lang_code _dst_lang_code app]. rewrite format_init.
  now rewrite <- !app_assoc.
Qed.

Lemma concat_map_length {A} (f : A -> text) (l : list A) :
  (forall a, (1 <= List.length (f a))%nat) ->
  (List.length l <= List.length (List.concat (map f l)))%nat.
Proof.
  intros Hf. induction l as [|a l IH]; [cbn; lia|].
  cbn [map List.concat List.length]. rewrite length_app. specialize (Hf a). lia.
Qed.

Lemma tmx_pair_ok_tsv (src_code dst_code : text) (pr : text * text) :
  tmx_pair_ok src_code dst_code pr -> tsv_pair_ok pr.
Proof.
  intros (Hs & Hd & Hsize). split; [exact Hs|]. split; [exact Hd|].
  rewrite unit_length, opening_length in Hsize.
  pose proof (len_nonneg src_code). pose proof (len_nonneg dst_code). lia.
Qed.




(** * Further properties of the code *)

(** ** Errors *)

(** X1.  The text of an [InvalidFileFormatError] that a parser raises: the file
    format and the message are inserted as they are (a message that holds
    braces is not formatted again), and the line is the 1-based number of
    the line being read. *)
Theorem invalid_format_error_text (base : ParallelPhraseParser) (message : text) :
  exn_str (invalid_format_error base message true)
  = txt "Invalid " ++ FILE_FORMAT base ++ txt " file at line "
    ++ str_of_int (_line_index base + 1) ++ txt ": " ++ message
  /\ exn_str (invalid_format_error base message false)
     = txt "Invalid " ++ FILE_FORMAT base ++ txt " file: " ++ message.
Proof.
  unfold invalid_format_error, current_line_number, exn_str.
  split; cbn [format txt list_ascii_of_string app Ascii.eqb Bool.eqb andb];
    now rewrite app_nil_r.
Qed.

(** ** [readline] *)

Lemma drop_while_head (p : ascii -> bool) (s : text) (c : ascii) (t : text) :
  drop_while p s = c :: t -> p c = false.
Proof.
  induction s as [|d s IH]; cbn [drop_while]; [discriminate|].
  destruct (p d) eqn:E; [exact IH|]. now intros [= <- _].
Qed.

Lemma rstrip_no_trailing (c : ascii) (s : text) : ~ ends_with_char c (rstrip c s).
Proof.
  intros [b Hb]. unfold rstrip in Hb.
  apply (f_equal (@rev ascii)) in Hb. rewrite rev_involutive, rev_app_distr in Hb.
  cbn in Hb. apply drop_while_head in Hb. now rewrite Ascii.eqb_refl in Hb.
Qed.

Lemma rstrip_incl (c d : ascii) (s : text) : In d (rstrip c s) -> In d s.
Proof.
  unfold rstrip. intros H. apply in_rev in H. apply in_rev.
  induction (rev s) as [|e t IH]; [exact H|]. cbn [drop_while] in H.
  destruct (Ascii.eqb c e); [right; now apply IH|exact H].
Qed.

(** What [stream.readline] returns holds a newline at its end at most. *)
Lemma stream_readline_body (s : stream) (size : Z) (raw : text) (rest : stream) :
  stream_readline size s = (raw, rest) ->
  ~ In nl (rstrip nl raw).
Proof.
  intros Hraw. pose proof (stream_readline_newlines _ _ _ _ Hraw) as Hc.
  destruct (endswith raw [nl]) eqn:E.
  - apply endswith_true in E. destruct E as [b ->].
    rewrite count_occ_app in Hc. cbn in Hc.
    assert (Hb : ~ In nl b) by (apply (count_occ_not_In ascii_dec); lia).
    rewrite rstrip_snoc. intros Hin. apply rstrip_incl in Hin. contradiction.
  - intros Hin. apply rstrip_incl in Hin.
    apply (count_occ_not_In ascii_dec) in Hc; contradiction.
Qed.

(** X2.  A chunk that [readline] returns unstripped is a prefix of the stream
    that is not empty and not longer than the buffer, and what is left in
    the stream is the rest: no character is lost. *)
Theorem readline_returns_a_prefix (base : ParallelPhraseParser) (s : stream) (check : bool)
    (line : text) (bs : ParallelPhraseParser * stream) :
  readline base s check false = Return line bs ->
  line <> [] /\ len line <= _SENTENCE_BUFFER_SIZE /\ s = line ++ snd bs.
Proof.
  intros Hr. destruct (stream_readline _SENTENCE_BUFFER_SIZE s) as [raw rest] eqn:Hraw.
  destruct (readline_return _ _ _ _ _ _ _ _ Hraw Hr) as (Hne & -> & ->). cbn [snd].
  split; [exact Hne|]. split.
  - apply (stream_readline_length s _ raw rest); [unfold _SENTENCE_BUFFER_SIZE; lia|exact Hraw].
  - now apply stream_readline_app with (size := _SENTENCE_BUFFER_SIZE).
Qed.

Lemma readline_returns_a_prefix_witness :
  txt "ab" ++ [nl] <> [] /\ len (txt "ab" ++ [nl]) <= _SENTENCE_BUFFER_SIZE
  /\ txt "ab" ++ [nl] ++ txt "cd" = (txt "ab" ++ [nl]) ++ snd (mkBase (txt "TMX") 0 1 [], txt "cd").
Proof.
  apply (readline_returns_a_prefix (ParallelPhraseParser_init (txt "TMX"))
           (txt "ab" ++ [nl] ++ txt "cd") false).
  reflexivity.
Defined.

Lemma readline_stripped (base : ParallelPhraseParser) (s : stream) (check : bool)
    (line : text) (bs : ParallelPhraseParser * stream) :
  readline base s check true = Return line bs ->
  ~ In nl line /\ ~ ends_with_char cr line /\ ~ ends_with_char nl line.
Proof.
  intros Hr. destruct (stream_readline _SENTENCE_BUFFER_SIZE s) as [raw rest] eqn:Hraw.
  destruct (readline_return _ _ _ _ _ _ _ _ Hraw Hr) as (_ & -> & _).
  pose proof (stream_readline_body _ _ _ _ Hraw) as Hb.
  assert (Hb' : ~ In nl (rstrip cr (rstrip nl raw)))
    by (intros Hin; apply rstrip_incl in Hin; contradiction).
  assert (Hn : ~ ends_with_char nl (rstrip cr (rstrip nl raw))).
  { intros [b Hx]. apply Hb'. rewrite Hx. apply in_or_app. right. now left. }
  rewrite (rstrip_id nl _ Hn). split; [exact Hb'|]. split; [apply rstrip_no_trailing|exact Hn].
Qed.

(** X3.  A line that [readline] returns stripped holds no newline and does
    not end with a carriage return. *)
Theorem readline_line_is_stripped (base : ParallelPhraseParser) (s : stream) (check : bool)
    (line : text) (bs : ParallelPhraseParser * stream) :
  readline base s check true = Return line bs ->
  ~ In nl line /\ ~ ends_with_char cr line /\ ~ ends_with_char nl line.
Proof. apply readline_stripped. Qed.

Lemma readline_line_is_stripped_witness :
  ~ In nl (txt "ab") /\ ~ ends_with_char cr (txt "ab") /\ ~ ends_with_char nl (txt "ab").
Proof.
  apply (readline_line_is_stripped (ParallelPhraseParser_init (txt "TSV"))
           (txt "ab" ++ [cr; nl] ++ txt "cd") true (txt "ab")
           (mkBase (txt "TSV") 0 1 [], txt "cd")).
  reflexivity.
Defined.

(** ** The TSV parser *)

(** What [next_parallel_phrase_pair] does with the line it has read. *)
Lemma tsv_next_of_line (self : TsvParser) (line : text) (bs : ParallelPhraseParser * stream) :
  readline (tsv_base self) (_tsv_stream self) true true = Return line bs ->
  TsvParser_next_parallel_phrase_pair self
  = match split tab line with
    | [src; dst] => Return (src, dst) (tsv_with self bs)
    | _ => Raises (invalid_format_error (fst bs) msg_two_phrases true) (tsv_with self bs)
    end.
Proof.
  intros Hr. unfold TsvParser_next_parallel_phrase_pair. rewrite Hr.
  destruct (split tab line) as [|a [|b [|c l]]]; try reflexivity.
  destruct (negb _); reflexivity.
Qed.

(** X4.  The two texts of a pair that the TSV parser returns hold neither a tab
    nor a newline, and the target text does not end with a carriage
    return. *)
Theorem tsv_pair_has_no_separator (self final : TsvParser) (pr : text * text) :
  TsvParser_next_parallel_phrase_pair self = Return pr final ->
  ~ In tab (fst pr) /\ ~ In tab (snd pr) /\ ~ In nl (fst pr) /\ ~ In nl (snd pr)
  /\ ~ ends_with_char cr (snd pr).
Proof.
  intros Hn.
  destruct (readline (tsv_base self) (_tsv_stream self) true true) as [line bs|e bs] eqn:Hr.
  2:{ unfold TsvParser_next_parallel_phrase_pair in Hn. rewrite Hr in Hn. discriminate. }
  rewrite (tsv_next_of_line self line bs Hr) in Hn.
  destruct (readline_stripped _ _ _ _ _ Hr) as (Hnl & Hcr & _).
  pose proof (join_split tab line) as Hjoin.
  pose proof (split_fields_no_sep tab line) as Hsep.
  destruct (split tab line) as [|a [|b [|c l]]]; try discriminate.
  injection Hn as <- _. cbn [fst snd].
  inversion Hsep as [|? ? Ha Hsep']; subst. inversion Hsep' as [|? ? Hb _]; subst.
  cbn [join] in Hnl, Hcr.
  split; [exact Ha|]. split; [exact Hb|].
  split; [intros Hin; apply Hnl; apply in_or_app; now left|].
  split; [intros Hin; apply Hnl; apply in_or_app; right; now right|].
  intros [d Hd]. apply Hcr. exists (a ++ tab :: d). rewrite Hd.
  rewrite <- app_assoc. reflexivity.
Qed.

Lemma tsv_pair_has_no_separator_witness :
  ~ In tab (fst (txt "x", txt "y")) /\ ~ In tab (snd (txt "x", txt "y"))
  /\ ~ In nl (fst (txt "x", txt "y")) /\ ~ In nl (snd (txt "x", txt "y"))
  /\ ~ ends_with_char cr (snd (txt "x", txt "y")).
Proof.
  apply (tsv_pair_has_no_separator tsv_at_second_line
           (mkTsvParser (mkBase (txt "TSV") 1 2 []) (txt "en") (txt "zh") [])).
  reflexivity.
Defined.

(** X5.  Once the stream is at its end the parser raises [ParseFinished], and
    raises it again at every later call: the iterator stays exhausted. *)
Theorem tsv_parser_stays_finished (self final : TsvParser) :
  TsvParser_next_parallel_phrase_pair self = Raises ParseFinished final ->
  _tsv_stream self = [] /\ _tsv_stream final = []
  /\ TsvParser_next_parallel_phrase_pair final = Raises ParseFinished final.
Proof.
  intros Hn.
  destruct (readline (tsv_base self) (_tsv_stream self) true true) as [line bs|e bs] eqn:Hr.
  { rewrite (tsv_next_of_line self line bs Hr) in Hn.
    destruct (split tab line) as [|a [|b [|c l]]]; unfold invalid_format_error in Hn;
      discriminate. }
  unfold TsvParser_next_parallel_phrase_pair in Hn. rewrite Hr in Hn.
  injection Hn as -> <-. unfold readline in Hr.
  destruct (stream_readline _SENTENCE_BUFFER_SIZE (_tsv_stream self)) as [raw rest] eqn:Hraw.
  destruct (falsy raw) eqn:Hf.
  2:{ destruct (endswith raw [nl] || endswith raw [nl; cr])%bool; cbn [andb] in Hr;
        [destruct (len raw =? _SENTENCE_BUFFER_SIZE)|]; discriminate. }
  apply falsy_nil in Hf. subst raw. injection Hr as <-.
  assert (Hs : _tsv_stream self = []).
  { destruct (_tsv_stream self) as [|c s] eqn:Es; [reflexivity|].
    exfalso. apply (stream_readline_nonempty (c :: s) _SENTENCE_BUFFER_SIZE);
      [unfold _SENTENCE_BUFFER_SIZE; lia|discriminate|now rewrite Hraw]. }
  rewrite Hs in Hraw. injection Hraw as <-.
  split; [exact Hs|]. split; reflexivity.
Qed.

Lemma tsv_parser_stays_finished_witness :
  _tsv_stream (TsvParser_init (txt "en") (txt "zh") []) = []
  /\ _tsv_stream (TsvParser_init (txt "en") (txt "zh") []) = []
  /\ TsvParser_next_parallel_phrase_pair (TsvParser_init (txt "en") (txt "zh") [])
     = Raises ParseFinished (TsvParser_init (txt "en") (txt "zh") []).
Proof.
  apply (tsv_parser_stays_finished (TsvParser_init (txt "en") (txt "zh") [])).
  reflexivity.
Defined.

(** ** TSV files written and read back *)

(** A pair that [TsvExporter] writes as one line which [TsvParser] reads
    back: no tab and no newline in the texts, no carriage return at the end
    of the target text, and a line shorter than the buffer.  (By
    [tsv_pair_has_no_separator] the parser returns no other pairs.) *)
Definition tsv_text_ok (pr : text * text) : Prop :=
  ~ In tab (fst pr) /\ ~ In tab (snd pr) /\ ~ In nl (fst pr) /\ ~ In nl (snd pr)
  /\ ~ ends_with_char cr (snd pr)
  /\ len (fst pr) + len (snd pr) + 2 < _SENTENCE_BUFFER_SIZE.

(** The base of a parser after [k] lines. *)
Definition lines_read (k : nat) (base : ParallelPhraseParser) : ParallelPhraseParser :=
  Nat.iter k next_line base.

Lemma lines_read_index (k : nat) (base : ParallelPhraseParser) :
  _next_read_line_index (lines_read k base) = _next_read_line_index base + Z.of_nat k
  /\ FILE_FORMAT (lines_read k base) = FILE_FORMAT base.
Proof.
  unfold lines_read. induction k as [|k [IH1 IH2]]; [cbn; split; [lia|reflexivity]|].
  rewrite Nat2Z.inj_succ.
  change (Nat.iter (S k) next_line base) with (next_line (Nat.iter k next_line base)).
  unfold next_line at 1 3. cbn [_next_read_line_index FILE_FORMAT].
  rewrite IH1. split; [lia|exact IH2].
Qed.

Lemma lines_read_succ (k : nat) (base : ParallelPhraseParser) :
  lines_read k (next_line base) = lines_read (S k) base.
Proof.
  unfold lines_read. induction k as [|k IH]; [reflexivity|].
  change (Nat.iter (S k) next_line (next_line base))
    with (next_line (Nat.iter k next_line (next_line base))).
  now rewrite IH.
Qed.

Lemma tsv_text_ok_line (s d : text) :
  ~ ends_with_char cr d -> ~ ends_with_char cr (s ++ tab :: d).
Proof.
  intros Hcr [b Hb].
  destruct d as [|c d]; [|].
  - change (s ++ [tab]) with (s ++ [tab]) in Hb. apply app_inj_tail in Hb.
    destruct Hb as [_ Hb]. discriminate.
  - assert (Hne : c :: d <> []) by discriminate.
    destruct (exists_last Hne) as (d' & e & Hd). rewrite Hd in Hb, Hcr.
    change (s ++ tab :: d' ++ [e]) with (s ++ (tab :: d') ++ [e]) in Hb.
    rewrite app_assoc in Hb. apply app_inj_tail in Hb. destruct Hb as [_ ->].
    apply Hcr. now exists d'.
Qed.

(** The pairs of the first lines are fed to the exporter one by one. *)
Lemma tsv_feed_prefix {X} `{ParallelPhraseExporter X} (src_lang dst_lang tail : text)
    (prs : list (text * text)) :
  Forall tsv_text_ok prs ->
  forall (base : ParallelPhraseParser) (x : X) (n : Z) (fuel : nat),
    feed_all (List.length prs + fuel)
             (mkTsvParser base src_lang dst_lang (List.concat (map tsv_line prs) ++ tail)) x n
    = feed_all fuel (mkTsvParser (lines_read (List.length prs) base) src_lang dst_lang tail)
               (feed_list x prs) (n + Z.of_nat (List.length prs)).
Proof.
  induction 1 as [|[s d] prs (Hts & Htd & Hns & Hnd & Hcr & Hlen) _ IH];
    intros base x n fuel.
  - cbn. now rewrite Z.add_0_r.
  - cbn [fst snd] in *. cbn [List.length Nat.add map List.concat].
    rewrite <- app_assoc. cbn [feed_all next_parallel_phrase_pair TsvParser_parser].
    rewrite tsv_next_line by (try assumption; now apply tsv_text_ok_line).
    fold (next_line base). rewrite IH, lines_read_succ, Nat2Z.inj_succ.
    cbn [feed_list fold_left fst snd]. f_equal. lia.
Qed.

(** The parser over the lines of pairs that meet [tsv_text_ok]. *)
Lemma tsv_yields_written (src_lang dst_lang : text) (prs : list (text * text)) :
  Forall tsv_text_ok prs ->
  forall base, exists final,
    yields (mkTsvParser base src_lang dst_lang (List.concat (map tsv_line prs))) prs final.
Proof.
  induction 1 as [|[s d] prs (Hts & Htd & Hns & Hnd & Hcr & Hlen) _ IH]; intros base.
  - eexists. apply yields_end. cbn. reflexivity.
  - cbn [fst snd] in *. destruct (IH (next_line base)) as [final Hy].
    exists final. eapply yields_pair; [|exact Hy].
    cbn [next_parallel_phrase_pair TsvParser_parser map List.concat]. f_equal.
    apply tsv_next_line; try assumption. now apply tsv_text_ok_line.
Qed.

(** X6.  [TsvParser] over what [TsvExporter] wrote yields the pairs that were
    written, in order. *)
Theorem tsv_export_then_parse (src_code dst_code : text) (prs : list (text * text)) :
  Forall tsv_text_ok prs ->
  exists final,
    pairs_of (S (List.length (tsv_file src_code dst_code prs)))
             (TsvParser_init src_code dst_code (tsv_file src_code dst_code prs))
    = Some (Return prs final).
Proof.
  intros Hprs. rewrite tsv_file_lines.
  destruct (tsv_yields_written (_parse_locale src_code) (_parse_locale dst_code) prs Hprs
              (ParallelPhraseParser_init (txt "TSV"))) as [final Hfinal].
  exists final. apply (yields_pairs_of _ _ _ Hfinal).
  enough (List.length prs <= List.length (List.concat (map tsv_line prs)))%nat by lia.
  apply concat_map_length. intros [s d]. unfold tsv_line. rewrite length_app.
  cbn [List.length]. lia.
Qed.

(** The pairs [("", "")] and [(" a<b ", "c&d")]: empty texts, spaces at the
    ends and XML-special characters all survive. *)
Lemma tsv_export_then_parse_witness :
  exists final,
    pairs_of (S (List.length (tsv_file (txt "en") (txt "zh")
                                       [([], []); (txt " a<b ", txt "c&d")])))
             (TsvParser_init (txt "en") (txt "zh")
                (tsv_file (txt "en") (txt "zh") [([], []); (txt " a<b ", txt "c&d")]))
    = Some (Return [([], []); (txt " a<b ", txt "c&d")] final).
Proof.
  apply (tsv_export_then_parse (txt "en") (txt "zh") [([], []); (txt " a<b ", txt "c&d")]).
  assert (Hend : forall (c : ascii) (s : text),
            existsb (Ascii.eqb c) s = false -> ~ ends_with_char c s).
  { intros c s Hs [b Hb]. apply (not_in_text c s Hs). rewrite Hb.
    apply in_or_app. right. now left. }
  repeat constructor; cbn [fst snd];
    try (apply not_in_text; reflexivity); try (apply Hend; reflexivity);
    vm_compute; reflexivity.
Defined.

(** X7.  A line that does not hold exactly one tab stops a conversion: the
    error names the line, the pairs of the lines before it have been
    written, and the exporter is finalised all the same. *)
Theorem tsv_convert_stops_at_bad_line {X} `{ParallelPhraseExporter X} (x : X)
    (src_code dst_code bad rest : text) (prs : list (text * text)) :
  Forall tsv_text_ok prs ->
  ~ In nl bad -> len bad + 1 < _SENTENCE_BUFFER_SIZE ->
  count_occ ascii_dec bad tab <> 1%nat ->
  exists p,
    convert (TsvParser_init src_code dst_code
               (List.concat (map tsv_line prs) ++ bad ++ nl :: rest)) x
    = Some (Raises (InvalidFileFormatError (txt "TSV")
                      (Some (Z.of_nat (List.length prs) + 1)) msg_two_phrases)
                   (p, export_pairs x prs)).
Proof.
  intros Hprs Hnl Hlen Htab. unfold convert, TsvParser_init.
  cbn [unread TsvParser_parser _tsv_stream].
  assert (Hfuel : exists fuel,
             S (List.length (List.concat (map tsv_line prs) ++ bad ++ nl :: rest))
             = (List.length prs + S fuel)%nat).
  { exists (List.length (List.concat (map tsv_line prs) ++ bad ++ nl :: rest)
            - List.length prs)%nat.
    assert (List.length prs <= List.length (List.concat (map tsv_line prs)))%nat.
    { apply concat_map_length. intros [s d]. unfold tsv_line. rewrite length_app.
      cbn [List.length]. lia. }
    rewrite length_app. lia. }
  destruct Hfuel as [fuel ->].
  rewrite (tsv_feed_prefix _ _ _ prs Hprs).
  set (base := lines_read (List.length prs) (ParallelPhraseParser_init (txt "TSV"))).
  destruct (lines_read_index (List.length prs) (ParallelPhraseParser_init (txt "TSV")))
    as [Hidx Hfmt]. fold base in Hidx, Hfmt.
  cbn [feed_all next_parallel_phrase_pair TsvParser_parser].
  assert (Hread : readline base (bad ++ nl :: rest) true true
                  = Return (rstrip nl (rstrip cr (rstrip nl (bad ++ [nl]))))
                           (next_line base, rest)).
  { unfold readline. rewrite (stream_readline_line bad rest) by (assumption || (unfold len in *; lia)).
    rewrite endswith_app. cbn [orb andb].
    replace (falsy (bad ++ [nl])) with false by (now destruct bad).
    replace (len (bad ++ [nl]) =? _SENTENCE_BUFFER_SIZE) with false; [reflexivity|].
    symmetry. apply Z.eqb_neq. unfold len in *. rewrite length_app. cbn [List.length]. lia. }
  rewrite (tsv_next_of_line (mkTsvParser base _ _ (bad ++ nl :: rest)) _ _ Hread).
  pose proof (split_length tab (rstrip nl (rstrip cr (rstrip nl (bad ++ [nl]))))) as Hsplit.
  rewrite !rstrip_count, count_occ_app in Hsplit by discriminate.
  cbn [count_occ] in Hsplit. destruct (ascii_dec nl tab) as [E|_]; [discriminate E|].
  eexists.
  destruct (split tab _) as [|a [|b [|c l]]]; cbn [List.length] in Hsplit; try lia;
    unfold invalid_format_error, current_line_number, next_line;
    cbn [fst FILE_FORMAT _line_index]; rewrite Hidx, Hfmt; reflexivity.
Qed.

Lemma tsv_convert_stops_at_bad_line_witness :
  exists p,
    convert (TsvParser_init (txt "en") (txt "zh")
               (List.concat (map tsv_line [(txt "a", txt "b")]) ++ txt "no tab" ++ nl :: txt "c"))
            (TmxExporter_init (txt "en") (txt "zh") [])
    = Some (Raises (InvalidFileFormatError (txt "TSV")
                      (Some (Z.of_nat (List.length [(txt "a", txt "b")]) + 1)) msg_two_phrases)
                   (p, export_pairs (TmxExporter_init (txt "en") (txt "zh") [])
                                    [(txt "a", txt "b")])).
Proof.
  apply (tsv_convert_stops_at_bad_line (TmxExporter_init (txt "en") (txt "zh") [])
           (txt "en") (txt "zh") (txt "no tab") (txt "c") [(txt "a", txt "b")]).
  - assert (Hend : forall (c : ascii) (s : text),
              existsb (Ascii.eqb c) s = false -> ~ ends_with_char c s).
    { intros c s Hs [b Hb]. apply (not_in_text c s Hs). rewrite Hb.
      apply in_or_app. right. now left. }
    repeat constructor; cbn [fst snd];
      try (apply not_in_text; reflexivity); try (apply Hend; reflexivity);
      vm_compute; reflexivity.
  - apply not_in_text. reflexivity.
  - vm_compute. reflexivity.
  - vm_compute. discriminate.
Defined.

(** ** The TMX parser: texts *)

Lemma drop_while_idem (p : ascii -> bool) (s : text) :
  drop_while p (drop_while p s) = drop_while p s.
Proof.
  induction s as [|c s IH]; [reflexivity|]. cbn [drop_while].
  destruct (p c) eqn:E; [exact IH|]. cbn [drop_while]. now rewrite E.
Qed.

Lemma drop_while_snoc (p : ascii -> bool) (s : text) (c : ascii) :
  p c = false -> drop_while p (s ++ [c]) = drop_while p s ++ [c].
Proof.
  intros Hc. induction s as [|d s IH]; cbn [app drop_while]; [now rewrite Hc|].
  destruct (p d); [exact IH|reflexivity].
Qed.

(** [strip] changes nothing in what [strip] returns. *)
Lemma strip_strip (s : text) : strip (strip s) = strip s.
Proof.
  unfold strip, lstrip_ws, rstrip_ws.
  destruct (drop_while is_space s) as [|c t] eqn:E; [reflexivity|].
  pose proof (drop_while_head _ _ _ _ E) as Hc.
  cbn [rev]. rewrite (drop_while_snoc _ _ _ Hc), rev_app_distr. cbn [rev app drop_while].
  rewrite Hc. cbn [rev]. rewrite (drop_while_snoc _ _ _ Hc), rev_app_distr. cbn [rev app].
  now rewrite rev_involutive, drop_while_idem.
Qed.

(** X8.  The text that [_parse_tuv_element] returns has no white space at
    either end, whatever the element holds: stripping it again changes
    nothing. *)
Theorem parse_tuv_text_is_stripped (tuv : Lxml.Element) :
  strip (fst (_parse_tuv_element tuv)) = fst (_parse_tuv_element tuv).
Proof. unfold _parse_tuv_element. cbn [fst]. apply strip_strip. Qed.

(** The accumulator of the loop over the children of a [<tu>] holds only
    texts that are not empty and are stripped. *)
Definition found_ok (t : option text) : Prop :=
  match t with
  | Some s => s <> [] /\ strip s = s
  | None => True
  end.

Lemma tu_child_found (self : TmxParser) (acc : option text * option text)
    (child : Lxml.Element) :
  found_ok (fst acc) /\ found_ok (snd acc) ->
  found_ok (fst (tu_child self acc child)) /\ found_ok (snd (tu_child self acc child)).
Proof.
  destruct acc as [src dst]. cbn [fst snd]. intros [Hs Hd]. unfold tu_child.
  destruct (negb (text_eqb (Lxml.tag child) (txt "tuv"))); [now split|].
  assert (Hstrip : strip (fst (_parse_tuv_element child)) = fst (_parse_tuv_element child))
    by (unfold _parse_tuv_element; cbn [fst]; apply strip_strip).
  destruct (_parse_tuv_element child) as [t [lang|]]; [|now split]. cbn [fst] in Hstrip.
  destruct (falsy t) eqn:Et; cbn [negb andb]; [now split|].
  assert (Ht : found_ok (Some t)).
  { split; [|exact Hstrip]. intros ->. discriminate. }
  destruct (negb (falsy lang)); [|now split].
  destruct (_is_same_language lang (tmx_src_lang self)); [now split|].
  destruct (_is_same_language lang (tmx_dst_lang self)); now split.
Qed.

(** X9.  When [_parse_tu_element] reports no error it has found both texts, and
    both are not empty and have no white space at their ends. *)
Theorem parse_tu_pair_is_clean (self : TmxParser) (tu : Lxml.Element)
    (src dst : option text) :
  _parse_tu_element self tu = (src, dst, None) ->
  exists s d, src = Some s /\ dst = Some d /\ s <> [] /\ d <> []
              /\ strip s = s /\ strip d = d.
Proof.
  unfold _parse_tu_element.
  assert (Hacc : forall cs acc,
            found_ok (fst acc) /\ found_ok (snd acc) ->
            found_ok (fst (fold_left (tu_child self) cs acc))
            /\ found_ok (snd (fold_left (tu_child self) cs acc))).
  { induction cs as [|c cs IH]; intros acc Ha; [exact Ha|].
    cbn [fold_left]. apply IH. now apply tu_child_found. }
  specialize (Hacc (Lxml.getchildren tu) (None, None) (conj I I)).
  destruct (fold_left (tu_child self) (Lxml.getchildren tu) (None, None)) as [src' dst'].
  cbn [fst snd] in Hacc. destruct Hacc as [Hs Hd].
  destruct src' as [s|], dst' as [d|]; cbn [none_or_empty andb];
    try (destruct (falsy _); discriminate); try discriminate.
  destruct (falsy s) eqn:Es, (falsy d) eqn:Ed; cbn [andb]; try discriminate.
  intros [= <- <-]. destruct Hs as [Hs1 Hs2], Hd as [Hd1 Hd2].
  exists s, d. repeat split; assumption.
Qed.

(** A [<tu>] whose segments are padded with white space and split by an
    inner element. *)
Definition tu_padded : Lxml.Element :=
  Lxml.Elem (txt "tu") [] []
    [Lxml.Elem (txt "tuv") [(Lxml.xml_namespace ++ txt "lang", txt "en-GB")] []
       [Lxml.Elem (txt "seg") [] (txt "  Hello ")
          [Lxml.Elem (txt "b") [] (txt "big") [] (txt " world  ")] []] [];
     Lxml.Elem (txt "tuv") [(Lxml.xml_namespace ++ txt "lang", txt "zh")] []
       [Lxml.Elem (txt "seg") [] (nl :: txt " ni hao") [] []] []] [].

Lemma parse_tu_pair_is_clean_witness :
  exists s d, Some (txt "Hello big world") = Some s /\ Some (txt "ni hao") = Some d
              /\ s <> [] /\ d <> [] /\ strip s = s /\ strip d = d.
Proof.
  apply (parse_tu_pair_is_clean (TmxParser_init (txt "en") (txt "zh") []) tu_padded).
  reflexivity.
Defined.

(** ** The TMX parser: the stack of open tags *)

Lemma parent_of_empty_tag : Lxml.lookup [] _PARENT_TAG_NAME = None.
Proof. reflexivity. Qed.

(** The stack of tag names starts with the empty name, and no event takes
    it away: [self._tag_name_stack[-1]] always has a value. *)
Lemma verify_keeps_stack_bottom (self : TmxParser) (action : Lxml.action) (tag : text) :
  (exists rest, _tag_name_stack self = [] :: rest) ->
  exists rest, _tag_name_stack (state_of (_verify_element self action tag)) = [] :: rest.
Proof.
  intros [rest Hs]. unfold _verify_element.
  destruct (Lxml.lookup tag _PARENT_TAG_NAME) as [parent|] eqn:El; [|now exists rest].
  destruct action.
  - destruct (negb (text_eqb (stack_top self) parent)); [now exists rest|].
    destruct (text_eqb tag (txt "header") && _header_inited self)%bool; [now exists rest|].
    assert (Hs' : _tag_name_stack (if text_eqb tag (txt "header")
                                   then set_header_inited self true else self)
                  = [] :: rest) by (destruct (text_eqb tag (txt "header")); exact Hs).
    destruct (_ && _)%bool; [now exists rest|].
    destruct (_ && _)%bool; [now exists rest|].
    cbn [state_of set_stack _tag_name_stack]. rewrite Hs'. now exists (rest ++ [tag]).
  - destruct (negb (text_eqb (stack_top self) tag)) eqn:Et; [now exists rest|].
    cbn [state_of set_stack _tag_name_stack]. rewrite Hs.
    destruct rest as [|r rest].
    + exfalso. apply negb_false_iff, text_eqb_eq in Et.
      unfold stack_top in Et. rewrite Hs in Et. cbn in Et. subst tag.
      rewrite parent_of_empty_tag in El. discriminate.
    + exists (removelast (r :: rest)). reflexivity.
Qed.

Lemma handle_event_keeps_stack (self : TmxParser) (ev : Lxml.event) :
  _tag_name_stack (state_of (_handle_event self ev))
  = _tag_name_stack (state_of (_verify_element self (fst ev) (Lxml.tag (snd ev)))).
Proof.
  destruct ev as [action element]. cbn [fst snd]. unfold _handle_event.
  destruct (_verify_element self action (Lxml.tag element)) as [[] s1|e s1];
    cbn [state_of]; [|reflexivity].
  destruct action; [reflexivity|].
  pose proof (parse_header_keeps_state s1 element) as Hh.
  destruct (text_eqb (Lxml.tag element) (txt "header")).
  - destruct (_parse_header_element s1 element) as [[] s2|e s2]; cbn [state_of] in Hh;
      subst s2; [|reflexivity].
    destruct (text_eqb (Lxml.tag element) (txt "tu")); [|reflexivity].
    destruct (_parse_tu_element s1 element) as [[src dst] [m|]]; reflexivity.
  - destruct (text_eqb (Lxml.tag element) (txt "tu")); [|reflexivity].
    destruct (_parse_tu_element s1 element) as [[src dst] [m|]]; reflexivity.
Qed.

(** X10.  After any sequence of events, handled to the end or up to an
    error, the stack of tag names still starts with the empty name it
    started with: it is never popped. *)
Theorem stack_bottom_is_kept (events : list Lxml.event) (self : TmxParser)
    (rest : list text) :
  _tag_name_stack self = [] :: rest ->
  exists rest', _tag_name_stack (state_of (_handle_events self events)) = [] :: rest'.
Proof.
  revert self rest. induction events as [|ev events IH]; intros self rest Hs.
  - now exists rest.
  - cbn [_handle_events].
    destruct (verify_keeps_stack_bottom self (fst ev) (Lxml.tag (snd ev)))
      as [rest1 H1]; [now exists rest|].
    rewrite <- handle_event_keeps_stack in H1.
    destruct (_handle_event self ev) as [[] s1|e s1]; cbn [state_of] in *.
    + now apply (IH s1 rest1).
    + now exists rest1.
Qed.

Lemma stack_bottom_is_kept_witness :
  exists rest',
    _tag_name_stack
      (state_of (_handle_events parser_in_tu
                   [(Lxml.end_, Lxml.Elem (txt "tu") [] [] [] []);
                    (Lxml.end_, Lxml.Elem (txt "body") [] [] [] [])]))
    = [] :: rest'.
Proof.
  apply (stack_bottom_is_kept _ parser_in_tu [txt "tmx"; txt "body"; txt "tu"]).
  reflexivity.
Defined.

(** ** The TMX parser: skipped phrases *)

(** X11.  [_skip_phrase_or_fail_parsing] records the phrase while fewer than
    [_MAX_SKIPPED_PHRASES] are recorded and raises otherwise, leaving the
    list as it is: the list never grows beyond the limit. *)
Theorem skipped_phrases_are_capped (self : TmxParser) (src dst : option text)
    (message : text) :
  let before := _skipped_phrases (tmx_base self) in
  let o := _skip_phrase_or_fail_parsing self src dst message in
  let after := _skipped_phrases (tmx_base (state_of o)) in
  (raised o = None <-> Z.of_nat (List.length before) < _MAX_SKIPPED_PHRASES)
  /\ (raised o = None ->
      after = before ++ [(current_line_number (tmx_base self), src, dst, message)])
  /\ (raised o <> None -> after = before)
  /\ Z.of_nat (List.length after)
     <= Z.max (Z.of_nat (List.length before)) _MAX_SKIPPED_PHRASES.
Proof.
  cbv zeta. unfold _skip_phrase_or_fail_parsing.
  destruct (Z.ltb_spec (Z.of_nat (List.length (_skipped_phrases (tmx_base self))))
                       _MAX_SKIPPED_PHRASES) as [Hlt|Hge];
    cbn [raised state_of set_base tmx_base _skipped_phrases].
  - split; [tauto|]. split; [reflexivity|]. split; [congruence|].
    rewrite length_app. cbn [List.length]. lia.
  - split; [split; [discriminate|lia]|]. split; [discriminate|]. split; [reflexivity|]. lia.
Qed.

(** ** The TMX parser: [_read_next] and [next_parallel_phrase_pair] *)

(** What the events of a line leave alone: the stream, the pull parser and
    the index into the buffered pairs. *)
Definition same_reading (a b : TmxParser) : Prop :=
  _tmx_stream a = _tmx_stream b /\ _parser a = _parser b
  /\ _buffered_pairs_index a = _buffered_pairs_index b.

Lemma same_reading_refl (a : TmxParser) : same_reading a a.
Proof. repeat split. Qed.

Lemma same_reading_trans (a b c : TmxParser) :
  same_reading a b -> same_reading b c -> same_reading a c.
Proof. unfold same_reading. intros (H1 & H2 & H3) (H4 & H5 & H6). repeat split; congruence. Qed.

Lemma verify_same_reading (self : TmxParser) (action : Lxml.action) (tag : text) :
  same_reading (state_of (_verify_element self action tag)) self.
Proof.
  unfold _verify_element.
  destruct (Lxml.lookup tag _PARENT_TAG_NAME); [|apply same_reading_refl].
  destruct action.
  - destruct (negb (text_eqb (stack_top self) t)); [apply same_reading_refl|].
    destruct (text_eqb tag (txt "header") && _header_inited self)%bool;
      [apply same_reading_refl|].
    destruct (text_eqb tag (txt "header")); cbn;
      repeat match goal with |- context [if ?c then _ else _] => destruct c end;
      repeat split.
  - destruct (negb (text_eqb (stack_top self) tag)); repeat split.
Qed.

Definition is_PyError (e : exn) : bool :=
  match e with PyError _ => true | _ => false end.

(** One event: the state stays the same reading, the buffer grows by at
    most a pair, and what is raised is an [InvalidFileFormatError]. *)
Lemma handle_event_same_reading (self : TmxParser) (ev : Lxml.event) :
  same_reading (state_of (_handle_event self ev)) self
  /\ match raised (_handle_event self ev) with
     | Some e => is_InvalidFormat e = true
     | None => True
     end.
Proof.
  destruct ev as [action element]. unfold _handle_event.
  pose proof (verify_same_reading self action (Lxml.tag element)) as Hv.
  assert (Hraise : forall e s, _verify_element self action (Lxml.tag element) = Raises e s ->
                               is_InvalidFormat e = true).
  { intros e s. unfold _verify_element.
    destruct (Lxml.lookup (Lxml.tag element) _PARENT_TAG_NAME); [|discriminate].
    destruct action.
    - destruct (negb _); [now intros [= <- _]|].
      destruct (_ && _)%bool; [now intros [= <- _]|].
      destruct (_ && _)%bool; [now intros [= <- _]|].
      destruct (_ && _)%bool; [now intros [= <- _]|discriminate].
    - destruct (negb _); [now intros [= <- _]|discriminate]. }
  destruct (_verify_element self action (Lxml.tag element)) as [[] s1|e s1] eqn:Ev;
    cbn [state_of raised] in *; [|split; [exact Hv|now apply (Hraise e s1)]].
  destruct action; [now split|].
  assert (Hh : forall o : outcome TmxParser unit,
            (same_reading (state_of o) s1
             /\ match raised o with Some e => is_InvalidFormat e = true | None => True end) ->
            same_reading
              (state_of match o with
                        | Raises e s => Raises e s
                        | Return _ s =>
                            if text_eqb (Lxml.tag element) (txt "tu") then
                              match _parse_tu_element s element with
                              | (src, dst, None) =>
                                  Return tt (set_buffered s
                                               (_buffered_parsed_pairs s
                                                  ++ [(text_or_empty src, text_or_empty dst)])
                                               (_buffered_pairs_index s))
                              | (src, dst, Some error_message) =>
                                  if _skip_invalid_tmx_data
                                  then _skip_phrase_or_fail_parsing s src dst error_message
                                  else Raises (tmx_error s error_message true) s
                              end
                            else Return tt s
                        end) self
            /\ match raised match o with
                            | Raises e s => Raises e s
                            | Return _ s =>
                                if text_eqb (Lxml.tag element) (txt "tu") then
                                  match _parse_tu_element s element with
                                  | (src, dst, None) =>
                                      Return tt (set_buffered s
                                                   (_buffered_parsed_pairs s
                                                      ++ [(text_or_empty src,
                                                           text_or_empty dst)])
                                                   (_buffered_pairs_index s))
                                  | (src, dst, Some error_message) =>
                                      if _skip_invalid_tmx_data
                                      then _skip_phrase_or_fail_parsing s src dst error_message
                                      else Raises (tmx_error s error_message true) s
                                  end
                                else Return tt s
                            end with
               | Some e => is_InvalidFormat e = true
               | None => True
               end).
  { intros [[] s|e s]; cbn [state_of raised]; intros [Hs He].
    - destruct (text_eqb (Lxml.tag element) (txt "tu")); cbn [state_of raised];
        [|split; [exact (same_reading_trans _ _ _ Hs Hv)|exact I]].
      destruct (_parse_tu_element s element) as [[src dst] [m|]];
        cbn [_skip_invalid_tmx_data state_of raised].
      + split; [exact (same_reading_trans _ _ _ Hs Hv)|reflexivity].
      + split; [|exact I]. apply (same_reading_trans _ s); [repeat split|].
        exact (same_reading_trans _ _ _ Hs Hv).
    - split; [exact (same_reading_trans _ _ _ Hs Hv)|exact He]. }
  apply Hh. destruct (text_eqb (Lxml.tag element) (txt "header")).
  - pose proof (parse_header_keeps_state s1 element) as Hp.
    unfold _parse_header_element in *.
    destruct (Lxml.get element (txt "srclang")) as [l|]; [|split; [apply same_reading_refl|exact I]].
    destruct (falsy l); [split; [apply same_reading_refl|exact I]|].
    destruct (negb _); split; try apply same_reading_refl; try exact I. reflexivity.
  - split; [apply same_reading_refl|exact I].
Qed.

Lemma handle_events_same_reading (events : list Lxml.event) (self : TmxParser) :
  same_reading (state_of (_handle_events self events)) self
  /\ match raised (_handle_events self events) with
     | Some e => is_InvalidFormat e = true
     | None => True
     end.
Proof.
  revert self. induction events as [|ev events IH]; intros self; cbn [_handle_events].
  - split; [apply same_reading_refl|exact I].
  - destruct (handle_event_same_reading self ev) as [Hs He].
    destruct (_handle_event self ev) as [[] s|e s]; cbn [state_of raised] in *.
    + destruct (IH s) as [Hs' He']. split; [exact (same_reading_trans _ _ _ Hs' Hs)|exact He'].
    + now split.
Qed.

(** What [stream.readline] returns from a stream that is not empty takes
    at least one character. *)
Lemma readline_shortens (base : ParallelPhraseParser) (s : stream) (check strip_ : bool)
    (line : text) (b : ParallelPhraseParser) (s' : stream) :
  readline base s check strip_ = Return line (b, s') ->
  (List.length s' < List.length s)%nat.
Proof.
  intros Hr. destruct (stream_readline _SENTENCE_BUFFER_SIZE s) as [raw rest] eqn:Hraw.
  destruct (readline_return _ _ _ _ _ _ _ _ Hraw Hr) as (Hne & _ & Hbs).
  injection Hbs as _ ->.
  rewrite (stream_readline_app s _ _ _ Hraw), length_app.
  destruct raw; [contradiction|]. cbn [List.length]. lia.
Qed.

(** The loop of [_read_next] ends on every stream: each round returns,
    raises, or takes at least one character from the stream. *)
Lemma read_next_loop_ends (fuel : nat) :
  forall (self : TmxParser) (total : Z),
    (List.length (_tmx_stream self) < fuel)%nat ->
    exists o, _read_next_loop fuel self total = Some o.
Proof.
  induction fuel as [|fuel IH]; intros self total Hf; [lia|]. cbn [_read_next_loop].
  destruct (readline (tmx_base self) (_tmx_stream self) false false) as [buff [b s]|e [b s]]
    eqn:Hr.
  - apply readline_shortens in Hr.
    destruct (Lxml.feed _ buff) as [[p events]|m]; [|eexists; reflexivity].
    destruct (handle_events_same_reading events (set_parser (set_stream (set_base self b) s) p))
      as [(Hs & _) _].
    destruct (_handle_events _ events) as [[] self'|e self']; [|eexists; reflexivity].
    cbn [state_of] in Hs. cbn in Hs.
    destruct (negb _); [eexists; reflexivity|].
    destruct (_ >? _); [eexists; reflexivity|].
    apply IH. rewrite Hs. lia.
  - destruct e; try (eexists; reflexivity).
    destruct (Lxml.close _); eexists; reflexivity.
Qed.

(** X12.  [_read_next] ends on every stream and in every state of the
    parser. *)
Theorem read_next_terminates (self : TmxParser) : exists o, _read_next self = Some o.
Proof.
  unfold _read_next. apply read_next_loop_ends. cbn [set_buffered _tmx_stream]. lia.
Qed.

(** When the loop returns, a pair is buffered and the index is as it was;
    when it raises, the exception is none of Python's own. *)
Lemma read_next_loop_result (fuel : nat) :
  forall (self : TmxParser) (total : Z) (o : outcome TmxParser unit),
    _read_next_loop fuel self total = Some o ->
    match o with
    | Return _ self' =>
        _buffered_parsed_pairs self' <> []
        /\ _buffered_pairs_index self' = _buffered_pairs_index self
    | Raises e _ => is_PyError e = false
    end.
Proof.
  induction fuel as [|fuel IH]; intros self total o; cbn [_read_next_loop]; [discriminate|].
  destruct (readline (tmx_base self) (_tmx_stream self) false false) as [buff [b s]|e [b s]]
    eqn:Hr.
  - destruct (Lxml.feed _ buff) as [[p events]|m]; [|now intros [= <-]].
    destruct (handle_events_same_reading events (set_parser (set_stream (set_base self b) s) p))
      as [(_ & _ & Hi) He].
    destruct (_handle_events _ events) as [[] self'|e self']; cbn [state_of raised] in *.
    + cbn in Hi.
      destruct (_buffered_parsed_pairs self') as [|pr prs] eqn:Eb; cbn [negb].
      * destruct (_ >? _); [now intros [= <-]|].
        intros Ho. specialize (IH _ _ _ Ho). destruct o as [[] s''|e s'']; [|exact IH].
        destruct IH as [H1 H2]. split; [exact H1|congruence].
      * intros [= <-]. rewrite Eb. split; [discriminate|exact Hi].
    + intros [= <-]. now destruct e.
  - unfold readline in Hr.
    destruct (stream_readline _SENTENCE_BUFFER_SIZE (_tmx_stream self)) as [raw rest].
    destruct (falsy raw).
    + injection Hr as <- _ _. destruct (Lxml.close _); now intros [= <-].
    + destruct (endswith raw [nl] || endswith raw [nl; cr])%bool; cbn [andb] in Hr; discriminate.
Qed.



(** ** The example counts: small and large totals *)

(** X14.  Up to [2 ^ 50] the test count is a tenth of the total, rounded down,
    and the validation count is the same or one more: fewer than ten pairs
    leave the test set empty, and fewer than five the validation set as
    well. *)
Theorem test_count_is_a_tenth (N : Z) :
  0 <= N <= 2 ^ 50 ->
  exists counts,
    _autosplit_example_count N = Some counts
    /\ test_example_count counts = N / 10
    /\ 0 <= validation_example_count counts - test_example_count counts <= 1
    /\ (N < 10 -> test_example_count counts = 0)
    /\ (N < 5 -> validation_example_count counts = 0 /\ train_example_count counts = N).
Proof.
  intros HN. exists (exact_counts N). split; [now apply example_count_exact|].
  unfold exact_counts, cdiv.
  cbn [train_example_count validation_example_count test_example_count].
  destruct HN as [HN _].
  pose proof (Z.div_mod (- (8 * N)) 10 ltac:(lia)) as H8.
  pose proof (Z.mod_pos_bound (- (8 * N)) 10 ltac:(lia)) as B8.
  set (q8 := - (8 * N) / 10) in *. set (r8 := (- (8 * N)) mod 10) in *.
  pose proof (Z.div_mod (- (9 * N - 10 * - q8)) 10 ltac:(lia)) as H9.
  pose proof (Z.mod_pos_bound (- (9 * N - 10 * - q8)) 10 ltac:(lia)) as B9.
  set (q9 := - (9 * N - 10 * - q8) / 10) in *. set (r9 := (- (9 * N - 10 * - q8)) mod 10) in *.
  pose proof (Z.div_mod N 10 ltac:(lia)) as H1.
  pose proof (Z.mod_pos_bound N 10 ltac:(lia)) as B1.
  set (q1 := N / 10) in *. set (r1 := N mod 10) in *.
  clearbody q8 r8 q9 r9 q1 r1. lia.
Qed.

Lemma test_count_is_a_tenth_witness :
  exists counts,
    _autosplit_example_count 4 = Some counts
    /\ test_example_count counts = 4 / 10
    /\ 0 <= validation_example_count counts - test_example_count counts <= 1
    /\ (4 < 10 -> test_example_count counts = 0)
    /\ (4 < 5 -> validation_example_count counts = 0 /\ train_example_count counts = 4).
Proof. apply (test_count_is_a_tenth 4). split; [lia|]. vm_compute. discriminate. Defined.

(** X15.  For every total that is not negative, also where the floats round:
    what [_autosplit_example_count] returns is a triple of non-negative
    counts that add up to the total. *)
Theorem counts_always_add_up (N : Z) (counts : example_counts) :
  0 <= N -> _autosplit_example_count N = Some counts ->
  0 <= train_example_count counts /\ 0 <= validation_example_count counts
  /\ 0 <= test_example_count counts
  /\ train_example_count counts + validation_example_count counts
     + test_example_count counts = N.
Proof.
  intros HN Hc. destruct (example_count_sound N counts HN Hc) as [(H1 & H2 & H3) Hr].
  rewrite remaining_eq in Hr. repeat split; assumption.
Qed.

(** At 2502701574162349, where validation is not the exact ceiling. *)
Lemma counts_always_add_up_witness :
  0 <= train_example_count (mkCounts 2002161259329880 250270157416234 250270157416235)
  /\ 0 <= validation_example_count
            (mkCounts 2002161259329880 250270157416234 250270157416235)
  /\ 0 <= test_example_count (mkCounts 2002161259329880 250270157416234 250270157416235)
  /\ train_example_count (mkCounts 2002161259329880 250270157416234 250270157416235)
     + validation_example_count (mkCounts 2002161259329880 250270157416234 250270157416235)
     + test_example_count (mkCounts 2002161259329880 250270157416234 250270157416235)
     = 2502701574162349.
Proof.
  apply (counts_always_add_up 2502701574162349
           (mkCounts 2002161259329880 250270157416234 250270157416235)).
  - lia.
  - vm_compute. reflexivity.
Defined.

(** ** The split: every pair goes to one output *)

(** The three outputs together hold the pairs that were read, each once. *)
Lemma assigned_partition (uses : list MLUse) :
  forall pairs : list (text * text),
    ~ In UNASSIGNED uses -> List.length uses = List.length pairs ->
    Permutation (assigned TRAIN uses pairs ++ assigned VALIDATION uses pairs
                 ++ assigned TEST uses pairs) pairs.
Proof.
  induction uses as [|u uses IH]; intros [|pr pairs] Hun Hlen; try discriminate.
  - constructor.
  - injection Hlen as Hlen.
    assert (Hrest : ~ In UNASSIGNED uses) by (intros Hin; apply Hun; now right).
    specialize (IH pairs Hrest Hlen). cbn [assigned].
    destruct u; [exfalso; apply Hun; now left| | |];
      cbn [MLUse_eqb MLUse_value Z.eqb Pos.eqb].
    + cbn [app]. now constructor.
    + apply Permutation_sym. etransitivity; [|apply Permutation_middle].
      constructor. now apply Permutation_sym.
    + apply Permutation_sym. rewrite app_assoc.
      etransitivity; [|apply Permutation_middle].
      constructor. rewrite <- app_assoc. now apply Permutation_sym.
Qed.

(** The pairs of an output are in the order in which they were read. *)
Fixpoint subsequence (a b : list (text * text)) : Prop :=
  match a, b with
  | [], _ => True
  | _ :: _, [] => False
  | x :: a', y :: b' => (x = y /\ subsequence a' b') \/ subsequence a b'
  end.

Lemma assigned_subsequence (u : MLUse) (uses : list MLUse) :
  forall pairs : list (text * text), subsequence (assigned u uses pairs) pairs.
Proof.
  induction uses as [|w uses IH]; intros [|pr pairs]; cbn [assigned]; try exact I.
  destruct (MLUse_eqb u w).
  - cbn [subsequence]. left. split; [reflexivity|apply IH].
  - specialize (IH pairs). destruct (assigned u uses pairs) as [|x a]; [exact I|].
    cbn [subsequence]. now right.
Qed.

(** X16.  [autosplit] over at most as many pairs as the counts allow: the three
    exporters are fed lists of pairs that together are a rearrangement of
    the pairs read (none lost, none written twice), each in the order of
    reading. *)
Theorem split_is_a_partition {X} `{ParallelPhraseExporter X}
    (self : AutoSplitUtil) (e : exporters X) (pairs : list (text * text)) :
  nonneg (_example_counts self) ->
  Z.of_nat (List.length pairs) <= remaining (_example_counts self) ->
  exists uses self' e' train validation test,
    autosplit_pairs self e pairs = Return uses (self', e')
    /\ train_exporter e' = feed_list (train_exporter e) train
    /\ validation_exporter e' = feed_list (validation_exporter e) validation
    /\ test_exporter e' = feed_list (test_exporter e) test
    /\ Permutation (train ++ validation ++ test) pairs
    /\ subsequence train pairs /\ subsequence validation pairs /\ subsequence test pairs.
Proof.
  intros Hc Hlen.
  destruct (autosplit_pairs_run pairs self e Hc Hlen)
    as (uses & self' & e' & Hrun & Hl & Hun & _ & _ & _ & _ & Hx1 & Hx2 & Hx3).
  exists uses, self', e', (assigned TRAIN uses pairs), (assigned VALIDATION uses pairs),
         (assigned TEST uses pairs).
  repeat (split; [assumption|]).
  split; [now apply assigned_partition|].
  repeat split; apply assigned_subsequence.
Qed.

Lemma split_is_a_partition_witness :
  exists uses self' e' train validation test,
    autosplit_pairs (mkAutoSplit (mkCounts 1 1 0) (mkRandom (fun _ => 1) 0))
                    (mkExporters (TsvExporter_init (txt "en") (txt "zh") [])
                                 (TsvExporter_init (txt "en") (txt "zh") [])
                                 (TsvExporter_init (txt "en") (txt "zh") []))
                    [(txt "a", txt "b"); (txt "c", txt "d")]
    = Return uses (self', e')
    /\ train_exporter e' = feed_list (TsvExporter_init (txt "en") (txt "zh") []) train
    /\ validation_exporter e'
       = feed_list (TsvExporter_init (txt "en") (txt "zh") []) validation
    /\ test_exporter e' = feed_list (TsvExporter_init (txt "en") (txt "zh") []) test
    /\ Permutation (train ++ validation ++ test) [(txt "a", txt "b"); (txt "c", txt "d")]
    /\ subsequence train [(txt "a", txt "b"); (txt "c", txt "d")]
    /\ subsequence validation [(txt "a", txt "b"); (txt "c", txt "d")]
    /\ subsequence test [(txt "a", txt "b"); (txt "c", txt "d")].
Proof.
  apply (split_is_a_partition (mkAutoSplit (mkCounts 1 1 0) (mkRandom (fun _ => 1) 0))).
  - unfold nonneg. cbn. lia.
  - vm_compute. discriminate.
Defined.

(** ** The split: more pairs than were counted *)

Lemma autosplit_pairs_app {X} `{ParallelPhraseExporter X} (pairs more : list (text * text)) :
  forall (self : AutoSplitUtil) (e : exporters X),
    autosplit_pairs self e (pairs ++ more)
    = match autosplit_pairs self e pairs with
      | Return uses (self', e') =>
          match autosplit_pairs self' e' more with
          | Return uses' s => Return (uses ++ uses') s
          | Raises ex s => Raises ex s
          end
      | Raises ex s => Raises ex s
      end.
Proof.
  induction pairs as [|[src dst] pairs IH]; intros self e; cbn [app autosplit_pairs].
  - destruct (autosplit_pairs self e more) as [uses [s1 e1]|ex [s1 e1]]; reflexivity.
  - destruct (_assign_ml_use self) as [u s1|ex s1]; [|reflexivity].
    destruct (feed_exporter e u src dst) as [e1|]; [|reflexivity].
    destruct (_select_ml_use s1 u) as [[] s2|ex s2]; [|reflexivity].
    rewrite IH. destruct (autosplit_pairs s2 e1 pairs) as [uses [s3 e3]|ex [s3 e3]];
      [|reflexivity].
    destruct (autosplit_pairs s3 e3 more) as [uses' [s4 e4]|ex [s4 e4]]; reflexivity.
Qed.

(** X17.  When the parsers yield more pairs than [total_size] said, the pair
    after the last counted one makes [random.randint(0, -1)] raise
    [ValueError]: by then every exporter has been fed the pairs of its
    class, and none is finalised. *)
Theorem split_raises_on_an_extra_pair {X} `{ParallelPhraseExporter X}
    (N : Z) (counts : example_counts) (r : random_state) (e : exporters X)
    (pairs : list (text * text)) (extra : text * text) (more : list (text * text)) :
  0 <= N -> _autosplit_example_count N = Some counts ->
  Z.of_nat (List.length pairs) = N ->
  exists uses self' e',
    autosplit N r e (pairs ++ extra :: more)
    = Some (Raises (PyError (txt "ValueError")) (self', e'))
    /\ _example_counts self' = mkCounts 0 0 0
    /\ train_exporter e'
       = feed_list (initialize (train_exporter e)) (assigned TRAIN uses pairs)
    /\ validation_exporter e'
       = feed_list (initialize (validation_exporter e)) (assigned VALIDATION uses pairs)
    /\ test_exporter e'
       = feed_list (initialize (test_exporter e)) (assigned TEST uses pairs).
Proof.
  intros HN Hc Hlen. destruct extra as [src dst].
  destruct (example_count_sound N counts HN Hc) as [Hn Hr].
  destruct (autosplit_pairs_run pairs (mkAutoSplit counts r) (exporters_map initialize e))
    as (uses & self' & e' & Hrun & Hl & Hun & Hnn & Ht & Hv & Hs & Hx1 & Hx2 & Hx3).
  { exact Hn. }
  { cbn [_example_counts]. lia. }
  cbn [_example_counts] in Ht, Hv, Hs.
  pose proof (count_use_total uses Hun) as Htot. rewrite remaining_eq in Hr.
  destruct Hnn as (Hn1 & Hn2 & Hn3).
  assert (Hz : _example_counts self' = mkCounts 0 0 0).
  { destruct (_example_counts self') as [a b c]. cbn in *. f_equal; lia. }
  exists uses, (mkAutoSplit (_example_counts self') (rng self')), e'.
  unfold autosplit. rewrite Hc, autosplit_pairs_app, Hrun.
  cbn [autosplit_pairs]. unfold _assign_ml_use. rewrite Hz.
  cbn [values sum fold_left train_example_count validation_example_count
       test_example_count Z.add Z.sub Z.opp Z.pos_sub randint Z.ltb Z.compare].
  cbn [_example_counts exporters_map train_exporter validation_exporter test_exporter] in *.
  repeat split; assumption.
Qed.

Lemma split_raises_on_an_extra_pair_witness :
  exists uses self' e',
    autosplit 1 (mkRandom (fun _ => 0) 0)
              (mkExporters (TsvExporter_init (txt "en") (txt "zh") [])
                           (TsvExporter_init (txt "en") (txt "zh") [])
                           (TsvExporter_init (txt "en") (txt "zh") []))
              ([(txt "a", txt "b")] ++ (txt "c", txt "d") :: [])
    = Some (Raises (PyError (txt "ValueError")) (self', e'))
    /\ _example_counts self' = mkCounts 0 0 0
    /\ train_exporter e'
       = feed_list (initialize (TsvExporter_init (txt "en") (txt "zh") []))
                   (assigned TRAIN uses [(txt "a", txt "b")])
    /\ validation_exporter e'
       = feed_list (initialize (TsvExporter_init (txt "en") (txt "zh") []))
                   (assigned VALIDATION uses [(txt "a", txt "b")])
    /\ test_exporter e'
       = feed_list (initialize (TsvExporter_init (txt "en") (txt "zh") []))
                   (assigned TEST uses [(txt "a", txt "b")]).
Proof.
  apply (split_raises_on_an_extra_pair 1 (mkCounts 1 0 0)).
  - lia.
  - vm_compute. reflexivity.
  - reflexivity.
Defined.

(** ** Counting, then splitting *)

(** [exporter=None] in [iterate_parallel_phrases]: nothing is fed. *)
#[export] Instance no_exporter : ParallelPhraseExporter unit := {
  feed_parallel_phrase_pair := fun x _ _ => x;
  initialize := fun x => x;
  finalize := fun x => x;
  getvalue := fun _ => []
}.

(** [iterate_parallel_phrases(input_file_paths, src, dst)] for one input:
    the number of pairs of the parser. *)
Definition iterate_parallel_phrases {P} `{PhraseParser P} (parser : P)
  : option (outcome (P * unit) Z) :=
  feed_all (S (unread parser)) parser tt 0.

(** The function [autosplit] of the module, for one input: the pairs are
    counted in a first pass over the input, and [AutoSplitUtil.autosplit]
    reads the input again from its start. *)
Definition autosplit_input {P X} `{PhraseParser P} `{ParallelPhraseExporter X}
    (parser : P) (r : random_state) (e : exporters X)
  : option (outcome (AutoSplitUtil * exporters X) (list MLUse) + exn) :=
  match iterate_parallel_phrases parser with
  | None => None
  | Some (Raises ex _) => Some (inr ex)
  | Some (Return total_count _) =>
      match pairs_of (S (unread parser)) parser with
      | None => None
      | Some (Raises ex _) => Some (inr ex)
      | Some (Return pairs _) =>
          match autosplit total_count r e pairs with
          | None => Some (inr (PyError (txt "OverflowError")))
          | Some o => Some (inl o)
          end
      end
  end.

(** X18.  [autosplit] on a TSV file of [N] lines, [N] up to [2 ^ 50]: the count
    of the first pass is [N], the split raises nothing, and the three
    outputs hold [ceil(0.8 N)], [ceil(0.9 N) - ceil(0.8 N)] and
    [floor(N / 10)] of the pairs of the file; together they hold each pair
    once. *)
Theorem autosplit_of_a_tsv_file {X} `{ParallelPhraseExporter X}
    (src_code dst_code : text) (prs : list (text * text)) (r : random_state)
    (e : exporters X) :
  Forall tsv_text_ok prs ->
  Z.of_nat (List.length prs) <= 2 ^ 50 ->
  exists uses self' e' train validation test,
    autosplit_input (TsvParser_init src_code dst_code (tsv_file src_code dst_code prs)) r e
    = Some (inl (Return uses (self', e')))
    /\ train_exporter e' = export_pairs (train_exporter e) train
    /\ validation_exporter e' = export_pairs (validation_exporter e) validation
    /\ test_exporter e' = export_pairs (test_exporter e) test
    /\ Permutation (train ++ validation ++ test) prs
    /\ Z.of_nat (List.length train) = cdiv (8 * Z.of_nat (List.length prs)) 10
    /\ Z.of_nat (List.length test) = Z.of_nat (List.length prs) / 10
    /\ Z.of_nat (List.length train) + Z.of_nat (List.length validation)
       + Z.of_nat (List.length test) = Z.of_nat (List.length prs).
Proof.
  intros Hprs HN. set (N := Z.of_nat (List.length prs)) in *.
  destruct (tsv_yields_written (_parse_locale src_code) (_parse_locale dst_code) prs Hprs
              (ParallelPhraseParser_init (txt "TSV"))) as [final Hy].
  assert (Hlen : (List.length prs <= List.length (List.concat (map tsv_line prs)))%nat).
  { apply concat_map_length. intros [s d]. unfold tsv_line. rewrite length_app.
    cbn [List.length]. lia. }
  assert (HN0 : 0 <= N <= 2 ^ 50) by (unfold N; lia).
  pose proof (example_count_exact N HN0) as Hc.
  destruct (example_count_sound N _ ltac:(lia) Hc) as [Hn Hr].
  destruct (autosplit_pairs_run prs (mkAutoSplit (exact_counts N) r)
              (exporters_map initialize e))
    as (uses & self' & e' & Hrun & Hl & Hun & Hnn & Ht & Hv & Hs & Hx1 & Hx2 & Hx3).
  { exact Hn. }
  { cbn [_example_counts]. fold N. lia. }
  cbn [_example_counts] in Ht, Hv, Hs.
  pose proof (count_use_total uses Hun) as Htot. rewrite remaining_eq in Hr.
  destruct Hnn as (Hn1 & Hn2 & Hn3).
  assert (Hz : count_use TRAIN uses = train_example_count (exact_counts N)
               /\ count_use VALIDATION uses = validation_example_count (exact_counts N)
               /\ count_use TEST uses = test_example_count (exact_counts N))
    by (unfold N in *; lia).
  destruct Hz as (Hz1 & Hz2 & Hz3).
  exists uses, self', (exporters_map finalize e'),
         (assigned TRAIN uses prs), (assigned VALIDATION uses prs), (assigned TEST uses prs).
  unfold autosplit_input, iterate_parallel_phrases.
  rewrite tsv_file_lines. unfold TsvParser_init in *.
  rewrite (yields_feed_all _ _ _ Hy)
    by (cbn [unread TsvParser_parser _tsv_stream]; lia).
  rewrite (yields_pairs_of _ _ _ Hy) by (cbn [unread TsvParser_parser _tsv_stream]; lia).
  cbn [Z.add]. fold N. unfold autosplit. rewrite Hc, Hrun.
  cbn [exporters_map train_exporter validation_exporter test_exporter] in *.
  rewrite Hx1, Hx2, Hx3. unfold export_pairs, feed_list.
  repeat (split; [reflexivity|]).
  split; [now apply assigned_partition|].
  rewrite !assigned_length by (symmetry; exact Hl).
  rewrite Hz1, Hz2, Hz3. unfold exact_counts.
  cbn [train_example_count validation_example_count test_example_count].
  split; [reflexivity|]. split; [|lia].
  unfold cdiv. destruct HN0 as [HN0 _]. clearbody N.
  pose proof (Z.div_mod (- (8 * N)) 10 ltac:(lia)) as H8.
  pose proof (Z.mod_pos_bound (- (8 * N)) 10 ltac:(lia)) as B8.
  set (q8 := - (8 * N) / 10) in *. set (r8 := (- (8 * N)) mod 10) in *.
  pose proof (Z.div_mod (- (9 * N - 10 * - q8)) 10 ltac:(lia)) as H9.
  pose proof (Z.mod_pos_bound (- (9 * N - 10 * - q8)) 10 ltac:(lia)) as B9.
  set (q9 := - (9 * N - 10 * - q8) / 10) in *. set (r9 := (- (9 * N - 10 * - q8)) mod 10) in *.
  pose proof (Z.div_mod N 10 ltac:(lia)) as H1.
  pose proof (Z.mod_pos_bound N 10 ltac:(lia)) as B1.
  set (q1 := N / 10) in *. set (r1 := N mod 10) in *.
  clearbody q8 r8 q9 r9 q1 r1. lia.
Qed.

Lemma autosplit_of_a_tsv_file_witness :
  exists uses self' e' train validation test,
    autosplit_input
      (TsvParser_init (txt "en") (txt "zh")
         (tsv_file (txt "en") (txt "zh") [(txt "a", txt "b"); (txt "c", txt "d")]))
      (mkRandom (fun _ => 1) 0)
      (mkExporters (TsvExporter_init (txt "en") (txt "zh") [])
                   (TsvExporter_init (txt "en") (txt "zh") [])
                   (TsvExporter_init (txt "en") (txt "zh") []))
    = Some (inl (Return uses (self', e')))
    /\ train_exporter e' = export_pairs (TsvExporter_init (txt "en") (txt "zh") []) train
    /\ validation_exporter e'
       = export_pairs (TsvExporter_init (txt "en") (txt "zh") []) validation
    /\ test_exporter e' = export_pairs (TsvExporter_init (txt "en") (txt "zh") []) test
    /\ Permutation (train ++ validation ++ test) [(txt "a", txt "b"); (txt "c", txt "d")]
    /\ Z.of_nat (List.length train)
       = cdiv (8 * Z.of_nat (List.length [(txt "a", txt "b"); (txt "c", txt "d")])) 10
    /\ Z.of_nat (List.length test)
       = Z.of_nat (List.length [(txt "a", txt "b"); (txt "c", txt "d")]) / 10
    /\ Z.of_nat (List.length train) + Z.of_nat (List.length validation)
       + Z.of_nat (List.length test)
       = Z.of_nat (List.length [(txt "a", txt "b"); (txt "c", txt "d")]).
Proof.
  apply (autosplit_of_a_tsv_file (txt "en") (txt "zh")
           [(txt "a", txt "b"); (txt "c", txt "d")]).
  - assert (Hend : forall (c : ascii) (s : text),
              existsb (Ascii.eqb c) s = false -> ~ ends_with_char c s).
    { intros c s Hs [b Hb]. apply (not_in_text c s Hs). rewrite Hb.
      apply in_or_app. right. now left. }
    repeat constructor; cbn [fst snd];
      try (apply not_in_text; reflexivity); try (apply Hend; reflexivity);
      vm_compute; reflexivity.
  - vm_compute. discriminate.
Defined.

(** ** Tags that the parser does not know *)



(** ** The output of the TSV exporter *)

(** X20.  [TsvExporter] writes one line for every pair, the two texts as they
    are with a tab between them and a newline after them, and nothing
    else: no header, no footer, no escaping. *)
Theorem tsv_export_bytes (src_code dst_code out : text) (prs : list (text * text)) :
  getvalue (export_pairs (TsvExporter_init src_code dst_code out) prs)
  = out ++ List.concat (map (fun pr => fst pr ++ [tab] ++ snd pr ++ [nl]) prs).
Proof.
  unfold export_pairs. cbn [finalize initialize TsvExporter_exporter].
  exact (tsv_feed_list prs (TsvExporter_init src_code dst_code out)).
Qed.
